(** * vinylscrobbles: duplicate suppression and scrobble delivery queue

    A shallow embedding of [src/duplicate_detector.py], [src/lastfm_scrobbler.py]
    and the parts of [src/database.py] they call, with the properties of the
    specification stated over it.

    Conventions of the embedding.
    - Text ([str]) is a list of characters; a character is a code point in
      0..255 (Latin-1), which is where [lower] is modelled exactly.
    - Python [int] is [Z]; [float] is the kernel's binary64 [float];
      [Optional[T]] is [option T].
    - The SQLite store, the wall clock and the Last.fm sink live in one
      [World] record; methods are state-passing computations that either
      return a value or raise. *)

From Stdlib Require Import String Ascii ZArith List Bool Lia.
From Stdlib Require Import DecimalString.
From Stdlib Require Import Floats.
From Stdlib Require Import Sorting.Sorted.
From Stdlib Require Import Sorting.Permutation.
Import ListNotations.

#[local] Set Warnings "-inexact-float".

Local Open Scope Z_scope.
Local Open Scope list_scope.

(** ** Python text builtins used by the sources *)

Definition str := list ascii.

(** A literal: the characters of a Rocq string. *)
Definition lit (s : string) : str := list_ascii_of_string s.

Definition char_space : ascii := " "%char.
Definition char_tab : ascii := ascii_of_nat 9.
Definition char_newline : ascii := ascii_of_nat 10.
Definition char_return : ascii := ascii_of_nat 13.
Definition char_dquote : ascii := ascii_of_nat 34.
Definition char_squote : ascii := ascii_of_nat 39.

Module Py.

(** Truth value of a string: [not text] holds for the empty string. *)
Definition truthy (s : str) : bool :=
  match s with [] => false | _ :: _ => true end.

(** [x or ''] for an optional string. *)
Definition or_empty (o : option str) : str :=
  match o with Some s => s | None => [] end.

(** Truth value of an optional string: [None] and [''] are both falsy. *)
Definition truthy_opt (o : option str) : bool := truthy (or_empty o).

(** [str.lower] on one code point below 256: the upper-case letters are
    A..Z and the Latin-1 capitals U+00C0..U+00DE without the
    multiplication sign U+00D7; each maps 32 places up. *)
Definition lower_char (c : ascii) : ascii :=
  let n := N_of_ascii c in
  if (((65 <=? n) && (n <=? 90))
      || ((192 <=? n) && (n <=? 222) && negb (n =? 215)))%N
  then ascii_of_N (n + 32) else c.

Definition lower (s : str) : str := map lower_char s.

Fixpoint starts_with (p s : str) : bool :=
  match p, s with
  | [], _ => true
  | _ :: _, [] => false
  | a :: p', b :: s' => Ascii.eqb a b && starts_with p' s'
  end.

(** [sub in s]. *)
Fixpoint contains (sub s : str) : bool :=
  starts_with sub s ||
  match s with
  | [] => false
  | _ :: r => contains sub r
  end.

(** [s.replace(old, new)] for a non-empty [old]: non-overlapping
    occurrences, leftmost first.  [skip] counts the characters of a
    matched occurrence that remain to be passed over. *)
Fixpoint replace_from (old new : str) (skip : nat) (s : str) : str :=
  match s with
  | [] => []
  | c :: r =>
      match skip with
      | S k => replace_from old new k r
      | O =>
          if starts_with old s
          then new ++ replace_from old new (Nat.pred (length old)) r
          else c :: replace_from old new 0 r
      end
  end.

Definition replace (old new s : str) : str := replace_from old new 0 s.

Definition mem (c : ascii) (chars : str) : bool :=
  existsb (Ascii.eqb c) chars.

Fixpoint lstrip (chars s : str) : str :=
  match s with
  | [] => []
  | c :: r => if mem c chars then lstrip chars r else s
  end.

Definition rstrip (chars s : str) : str := rev (lstrip chars (rev s)).

(** [s.strip(chars)]. *)
Definition strip (chars s : str) : str := rstrip chars (lstrip chars s).

(** The integer nearest to [a / b] for [b > 0], ties to the even one. *)
Definition nearest_even (a b : Z) : Z :=
  let q := a / b in
  let r := a mod b in
  if 2 * r <? b then q
  else if b <? 2 * r then q + 1
  else if Z.even q then q else q + 1.

(** The exponent of [a / b] for [a, b > 0]: the [e] with
    [2 ^ e <= a / b < 2 ^ (e + 1)]. *)
Definition quotient_exponent (a b : Z) : Z :=
  let t := Z.log2 a - Z.log2 b in
  if a * 2 ^ Z.max 0 (- t) <? b * 2 ^ Z.max 0 t then t - 1 else t.

(** [round(d / n)] for ints [d] and [n > 0].  The true division yields the
    binary64 number nearest to the quotient: 53 significant bits, ties to
    the even significand, that is the quotient rounded at the unit
    [2 ^ (e - 52)] of its exponent [e].  [round] then takes that float to
    the nearest integer, ties to the even one.  A quotient of [2 ^ 1024]
    or more, where the source raises [OverflowError], is rounded here in
    the same way. *)
Definition round_div (d n : Z) : Z :=
  if d =? 0 then 0
  else
    let a := Z.abs d in
    let shift := 52 - quotient_exponent a n in
    Z.sgn d
    * (if 0 <=? shift
       then nearest_even (nearest_even (a * 2 ^ shift) n) (2 ^ shift)
       else nearest_even a (n * 2 ^ (- shift)) * 2 ^ (- shift)).

(** [str(z)]: decimal digits with a leading minus sign when negative. *)
Definition str_of_int (z : Z) : str :=
  list_ascii_of_string (NilZero.string_of_int (Z.to_int z)).

End Py.

(** ** [DuplicateDetector._normalize_string] *)

(** The [replacements] dict, in insertion order. *)
Definition replacements : list (str * str) :=
  [ (lit "&", lit "and");
    (lit "+", lit "and");
    ([char_space; char_space], [char_space]);
    ([char_tab], [char_space]);
    ([char_newline], [char_space]);
    ([char_return], [char_space]) ].

(** The argument of [strip]: space, the listed punctuation, both quotes,
    tab, newline and carriage return. *)
Definition strip_chars : str :=
  lit " .,!?-_()[]{}" ++ [char_dquote; char_squote; char_tab; char_newline; char_return].

Definition double_space : str := [char_space; char_space].

(** [while '  ' in normalized: normalized = normalized.replace('  ', ' ')].
    Each pass shortens the text, so its length bounds the number of passes
    ([collapse_loop_exits] below). *)
Fixpoint collapse_loop (fuel : nat) (normalized : str) : str :=
  match fuel with
  | O => normalized
  | S k =>
      if Py.contains double_space normalized
      then collapse_loop k (Py.replace double_space [char_space] normalized)
      else normalized
  end.

Definition apply_replacements (text : str) : str :=
  fold_left (fun normalized '(old, new) => Py.replace old new normalized)
            replacements text.

Definition _normalize_string (text : str) : str :=
  if negb (Py.truthy text) then []
  else
    let normalized := Py.lower text in
    let normalized := apply_replacements normalized in
    let normalized := Py.strip strip_chars normalized in
    collapse_loop (length normalized) normalized.


(** ** Data classes and tables *)

(** Modelled from the spec: the [RecognitionResult] data class of
    [music_recognizer.py] is not part of the sources at hand; its fields are
    those the specification lists (section 3) and the callers read.
    [metadata] is the JSON text of the metadata dict, [None] when the dict is
    missing or empty. *)
Module RecognitionResult.
Record t := mk {
  success : bool;
  confidence : float;
  artist : option str;
  title : option str;
  album : option str;
  duration : option Z;
  provider : str;
  metadata : option str
}.
End RecognitionResult.

Module ScrobbleEntry.
Record t := mk {
  artist : str;
  title : str;
  album : option str;
  timestamp : option Z;
  duration : option Z;
  track_number : option Z;
  mbid : option str;
  retry_count : Z;
  created_at : option Z;
  id : option Z
}.
End ScrobbleEntry.

Module DuplicateEntry.
Record t := mk {
  fingerprint : str;
  artist : str;
  title : str;
  timestamp : Z;
  confidence : float;
  id : option Z
}.
End DuplicateEntry.

Module DuplicateCheck.
Record t := mk {
  is_duplicate : bool;
  confidence : float;
  time_since_last : option Z;
  similar_track : option (str * str);   (* 'artist', 'title' *)
  fingerprint : option str
}.
End DuplicateCheck.

Module ScrobbleResult.
Record t := mk {
  success : bool;
  entry_id : option Z;
  error_message : option str;
  should_retry : bool
}.
End ScrobbleResult.

(** Rows of the three tables of [_initialize_database] the core touches. *)
Module QueueRow.
Record t := mk {
  id : Z;
  artist : str;
  title : str;
  album : option str;
  timestamp : option Z;
  duration : option Z;
  track_number : option Z;
  mbid : option str;
  retry_count : Z;
  created_at : Z;
  metadata : option str
}.
End QueueRow.

Module HistoryRow.
Record t := mk {
  id : Z;
  artist : str;
  title : str;
  album : option str;
  timestamp : Z;
  duration : option Z;
  track_number : option Z;
  mbid : option str;
  scrobbled_at : Z;
  recognition_provider : str;
  recognition_confidence : float;
  metadata : option str
}.
End HistoryRow.

Module CacheRow.
Record t := mk {
  id : Z;
  fingerprint : str;
  artist : str;
  title : str;
  timestamp : Z;
  confidence : float;
  expires_at : Z
}.
End CacheRow.

(** The [stats] dict of the scrobbler. *)
Module Stats.
Record t := mk {
  scrobbles_attempted : Z;
  scrobbles_successful : Z;
  scrobbles_failed : Z;
  queue_processed : Z;
  authentication_errors : Z;
  network_errors : Z
}.
End Stats.

(** ** The world: store, clock and sink *)

(** Exceptions that cross method boundaries. *)
Inductive Exn : Type :=
| DatabaseError                               (* sqlite3.Error *)
| WSError (error_code : option Z) (message : str)   (* pylast.WSError *)
| OtherError (message : str).                 (* any other Exception *)

(** The methods of [DatabaseManager] that reach the connection. *)
Inductive StoreCall : Type :=
| CallAddToScrobbleQueue
| CallGetScrobbleQueue
| CallRemoveFromScrobbleQueue (entry_id : option Z)
| CallIncrementRetryCount (entry_id : option Z)
| CallGetQueueSize
| CallAddToHistory
| CallGetRecentScrobbles
| CallAddDuplicateEntry (fingerprint : str)
| CallFindDuplicate (fingerprint : str)
| CallGetRecentStats.

(** What the Last.fm network answers to one [scrobble].  The code of a
    web-service error is what the handler's
    [getattr(e, 'error_code', None)] finds on the exception: an exception
    object with that attribute gives [Some], and [pylast.WSError] as the
    library defines it, which has [status] and [details] only, gives
    [None]. *)
Inductive SinkReply : Type :=
| Accepted
| RaisesWSError (error_code : option Z) (message : str)
| RaisesOther (message : str).

(** The arguments of one [network.scrobble] call. *)
Module Submission.
Record t := mk {
  artist : str;
  title : str;
  timestamp : Z;
  album : option str;
  duration : option Z;
  track_number : option Z;
  mbid : option str
}.
End Submission.

(** The tables, with the AUTOINCREMENT counters of their [id] columns. *)
Record Store := mkStore {
  scrobble_queue : list QueueRow.t;
  queue_seq : Z;
  scrobble_history : list HistoryRow.t;
  history_seq : Z;
  duplicate_cache : list CacheRow.t;
  cache_seq : Z
}.

(** [clock n] is what the [n]-th reading of [int(time.time())] returns;
    [store_fault n] says whether the [n]-th store call raises;
    [sink_reply n] is the network's answer to the [n]-th scrobble.
    [store_log] and [sink_log] record the calls made, oldest first. *)
Record World := mkWorld {
  clock : nat -> Z;
  clock_reads : nat;
  store_fault : nat -> bool;
  store_log : list StoreCall;
  sink_reply : nat -> SinkReply;
  sink_log : list Submission.t;
  store : Store;
  stats : Stats.t
}.

Definition set_clock_reads (n : nat) (w : World) : World :=
  mkWorld (clock w) n (store_fault w) (store_log w) (sink_reply w)
          (sink_log w) (store w) (stats w).

Definition set_store_log (l : list StoreCall) (w : World) : World :=
  mkWorld (clock w) (clock_reads w) (store_fault w) l (sink_reply w)
          (sink_log w) (store w) (stats w).

Definition set_sink_log (l : list Submission.t) (w : World) : World :=
  mkWorld (clock w) (clock_reads w) (store_fault w) (store_log w)
          (sink_reply w) l (store w) (stats w).

Definition set_store (s : Store) (w : World) : World :=
  mkWorld (clock w) (clock_reads w) (store_fault w) (store_log w)
          (sink_reply w) (sink_log w) s (stats w).

Definition set_stats (s : Stats.t) (w : World) : World :=
  mkWorld (clock w) (clock_reads w) (store_fault w) (store_log w)
          (sink_reply w) (sink_log w) (store w) s.

Definition set_scrobble_queue (q : list QueueRow.t) (s : Store) : Store :=
  mkStore q (queue_seq s) (scrobble_history s) (history_seq s)
          (duplicate_cache s) (cache_seq s).

(** ** Computations: state passing with exceptions *)

Inductive Outcome (A : Type) : Type :=
| Returned (a : A) (w : World)
| Raised (e : Exn) (w : World).
Arguments Returned {A} a w.
Arguments Raised {A} e w.

Definition M (A : Type) : Type := World -> Outcome A.

Definition ret {A} (a : A) : M A := fun w => Returned a w.

Definition bind {A B} (m : M A) (k : A -> M B) : M B :=
  fun w =>
    match m w with
    | Returned a w' => k a w'
    | Raised e w' => Raised e w'
    end.

Definition raise {A} (e : Exn) : M A := fun w => Raised e w.

(** [try: m  except Exception as e: handler e]. *)
Definition try_except {A} (m : M A) (handler : Exn -> M A) : M A :=
  fun w =>
    match m w with
    | Returned a w' => Returned a w'
    | Raised e w' => handler e w'
    end.

Definition modify (f : World -> World) : M unit :=
  fun w => Returned tt (f w).

Definition get {A} (f : World -> A) : M A :=
  fun w => Returned (f w) w.

Notation "x <- m ;; k" := (bind m (fun x => k))
  (at level 61, m at next level, right associativity).
Notation "m ;;; k" := (bind m (fun _ => k))
  (at level 61, right associativity).

(** The final world of an outcome, and its value when it returned. *)
Definition world_of {A} (o : Outcome A) : World :=
  match o with Returned _ w => w | Raised _ w => w end.

Definition value_of {A} (o : Outcome A) : option A :=
  match o with Returned a _ => Some a | Raised _ _ => None end.

(** [int(time.time())]. *)
Definition time_now : M Z :=
  fun w => Returned (clock w (clock_reads w)) (set_clock_reads (S (clock_reads w)) w).

(** Entering [with self._get_connection() as conn] and executing: the call is
    logged, and raises when the store is at fault on this call. *)
Definition connect (call : StoreCall) : M unit :=
  fun w =>
    let n := length (store_log w) in
    let w' := set_store_log (store_log w ++ [call]) w in
    if store_fault w n then Raised DatabaseError w' else Returned tt w'.

Definition str_eqb (a b : str) : bool :=
  if list_eq_dec ascii_dec a b then true else false.

(** ** [DatabaseManager] *)

Module DatabaseManager.

(** [ORDER BY key ASC]: rows with equal keys stay in table order, which
    is what a scan of the index on the key yields. *)
Fixpoint insert_by {A} (key : A -> Z) (x : A) (rows : list A) : list A :=
  match rows with
  | [] => [x]
  | y :: r => if key y <=? key x then y :: insert_by key x r else x :: rows
  end.

Definition order_by {A} (key : A -> Z) (rows : list A) : list A :=
  fold_left (fun sorted x => insert_by key x sorted) rows [].

Definition entry_of_row (row : QueueRow.t) : ScrobbleEntry.t :=
  ScrobbleEntry.mk
    (QueueRow.artist row) (QueueRow.title row) (QueueRow.album row)
    (QueueRow.timestamp row) (QueueRow.duration row)
    (QueueRow.track_number row) (QueueRow.mbid row)
    (QueueRow.retry_count row) (Some (QueueRow.created_at row))
    (Some (QueueRow.id row)).

Definition id_is (entry_id : option Z) (row_id : Z) : bool :=
  match entry_id with
  | Some i => row_id =? i
  | None => false          (* [id = NULL] selects no row *)
  end.

(** Returns the id of the inserted row. *)
Definition add_to_scrobble_queue (entry : ScrobbleEntry.t)
           (metadata : option str) : M Z :=
  created_at <- match ScrobbleEntry.created_at entry with
                | None => time_now
                | Some t => ret t
                end ;;
  let timestamp := match ScrobbleEntry.timestamp entry with
                   | None => created_at
                   | Some t => t
                   end in
  connect CallAddToScrobbleQueue ;;;
  s <- get store ;;
  let new_id := queue_seq s + 1 in
  let row := QueueRow.mk new_id
               (ScrobbleEntry.artist entry) (ScrobbleEntry.title entry)
               (ScrobbleEntry.album entry) (Some timestamp)
               (ScrobbleEntry.duration entry)
               (ScrobbleEntry.track_number entry) (ScrobbleEntry.mbid entry)
               (ScrobbleEntry.retry_count entry) created_at metadata in
  modify (set_store
            (mkStore (scrobble_queue s ++ [row]) new_id
                     (scrobble_history s) (history_seq s)
                     (duplicate_cache s) (cache_seq s))) ;;;
  ret new_id.

Definition get_scrobble_queue (limit : nat) : M (list ScrobbleEntry.t) :=
  connect CallGetScrobbleQueue ;;;
  s <- get store ;;
  ret (map entry_of_row
           (firstn limit (order_by QueueRow.created_at (scrobble_queue s)))).

Definition remove_from_scrobble_queue (entry_id : option Z) : M bool :=
  connect (CallRemoveFromScrobbleQueue entry_id) ;;;
  s <- get store ;;
  let hit row := id_is entry_id (QueueRow.id row) in
  modify (set_store
            (set_scrobble_queue
               (filter (fun row => negb (hit row)) (scrobble_queue s)) s)) ;;;
  ret (existsb hit (scrobble_queue s)).

Definition bump (row : QueueRow.t) : QueueRow.t :=
  QueueRow.mk (QueueRow.id row) (QueueRow.artist row) (QueueRow.title row)
              (QueueRow.album row) (QueueRow.timestamp row)
              (QueueRow.duration row) (QueueRow.track_number row)
              (QueueRow.mbid row) (QueueRow.retry_count row + 1)
              (QueueRow.created_at row) (QueueRow.metadata row).

Definition increment_retry_count (entry_id : option Z) : M bool :=
  connect (CallIncrementRetryCount entry_id) ;;;
  s <- get store ;;
  let hit row := id_is entry_id (QueueRow.id row) in
  modify (set_store
            (set_scrobble_queue
               (map (fun row => if hit row then bump row else row)
                    (scrobble_queue s)) s)) ;;;
  ret (existsb hit (scrobble_queue s)).

Definition get_queue_size : M Z :=
  connect CallGetQueueSize ;;;
  s <- get store ;;
  ret (Z.of_nat (length (scrobble_queue s))).

(** Returns the id of the inserted history row.  The [timestamp] column
    is NOT NULL, so an entry without one is refused by the store. *)
Definition add_to_history (entry : ScrobbleEntry.t) (provider : str)
           (confidence : float) (metadata : option str) : M Z :=
  scrobbled_at <- time_now ;;
  connect CallAddToHistory ;;;
  match ScrobbleEntry.timestamp entry with
  | None => raise DatabaseError
  | Some timestamp =>
      s <- get store ;;
      let new_id := history_seq s + 1 in
      let row := HistoryRow.mk new_id
                   (ScrobbleEntry.artist entry) (ScrobbleEntry.title entry)
                   (ScrobbleEntry.album entry) timestamp
                   (ScrobbleEntry.duration entry)
                   (ScrobbleEntry.track_number entry)
                   (ScrobbleEntry.mbid entry)
                   scrobbled_at provider confidence metadata in
      modify (set_store
                (mkStore (scrobble_queue s) (queue_seq s)
                         (scrobble_history s ++ [row]) new_id
                         (duplicate_cache s) (cache_seq s))) ;;;
      ret new_id
  end.

(** [ORDER BY scrobbled_at DESC LIMIT ?]. *)
Definition get_recent_scrobbles (limit : nat) : M (list HistoryRow.t) :=
  connect CallGetRecentScrobbles ;;;
  s <- get store ;;
  ret (firstn limit
         (order_by (fun row => - HistoryRow.scrobbled_at row)
                   (scrobble_history s))).

(** [INSERT OR REPLACE]: a row with the same (UNIQUE) fingerprint is
    deleted, and the new row gets a fresh id.  Returns that id. *)
Definition add_duplicate_entry (entry : DuplicateEntry.t)
           (ttl_seconds : Z) : M Z :=
  now <- time_now ;;
  let expires_at := now + ttl_seconds in
  connect (CallAddDuplicateEntry (DuplicateEntry.fingerprint entry)) ;;;
  s <- get store ;;
  let new_id := cache_seq s + 1 in
  let row := CacheRow.mk new_id
               (DuplicateEntry.fingerprint entry)
               (DuplicateEntry.artist entry) (DuplicateEntry.title entry)
               (DuplicateEntry.timestamp entry)
               (DuplicateEntry.confidence entry) expires_at in
  let others :=
    filter (fun r => negb (str_eqb (CacheRow.fingerprint r)
                                   (DuplicateEntry.fingerprint entry)))
           (duplicate_cache s) in
  modify (set_store
            (mkStore (scrobble_queue s) (queue_seq s)
                     (scrobble_history s) (history_seq s)
                     (others ++ [row]) new_id)) ;;;
  ret new_id.

(** [WHERE fingerprint = ? AND expires_at > ?], first row. *)
Definition find_duplicate (fingerprint : str) : M (option DuplicateEntry.t) :=
  current_time <- time_now ;;
  connect (CallFindDuplicate fingerprint) ;;;
  s <- get store ;;
  ret (option_map
         (fun row =>
            DuplicateEntry.mk (CacheRow.fingerprint row)
                              (CacheRow.artist row) (CacheRow.title row)
                              (CacheRow.timestamp row)
                              (CacheRow.confidence row)
                              (Some (CacheRow.id row)))
         (find (fun row => str_eqb (CacheRow.fingerprint row) fingerprint
                           && (current_time <? CacheRow.expires_at row))
               (duplicate_cache s))).

(** The rows of [system_stats] of the last [hours] hours.  The one caller
    in the core drops the result, so only the time reading and the store
    call are kept. *)
Definition get_recent_stats (hours : Z) : M unit :=
  _ <- time_now ;;
  connect CallGetRecentStats.

End DatabaseManager.

(** ** External libraries *)

(** [hashlib.sha256(data.encode('utf-8')).hexdigest()]. *)
Class Hashlib := { sha256_hexdigest : str -> str }.

(** [difflib.SequenceMatcher(None, a, b).ratio()]. *)
Class Difflib := { sequence_ratio : str -> str -> float }.

(** ** [DuplicateDetector] *)

Module DuplicateDetector.

(** The configuration read by [__init__]. *)
Record t := mk {
  enabled : bool;
  time_window : Z;
  similarity_threshold : float;
  cache_size : Z
}.

Section Methods.
Context {hashlib : Hashlib} {difflib : Difflib}.

Definition _create_fingerprint (recognition_result : RecognitionResult.t) : str :=
  let artist := _normalize_string (Py.or_empty (RecognitionResult.artist recognition_result)) in
  let title := _normalize_string (Py.or_empty (RecognitionResult.title recognition_result)) in
  let album := _normalize_string (Py.or_empty (RecognitionResult.album recognition_result)) in
  let fingerprint_data := artist ++ lit "|" ++ title ++ lit "|" ++ album in
  let fingerprint_data :=
    match RecognitionResult.duration recognition_result with
    | Some d =>
        if negb (d =? 0)      (* [if recognition_result.duration:] *)
        then fingerprint_data ++ lit "|" ++ Py.str_of_int (Py.round_div d 5 * 5)
        else fingerprint_data
    | None => fingerprint_data
    end in
  firstn 16 (sha256_hexdigest fingerprint_data).

Definition _calculate_similarity (artist1 title1 artist2 title2 : option str) : float :=
  let artist1_norm := _normalize_string (Py.or_empty artist1) in
  let title1_norm := _normalize_string (Py.or_empty title1) in
  let artist2_norm := _normalize_string (Py.or_empty artist2) in
  let title2_norm := _normalize_string (Py.or_empty title2) in
  let artist_similarity := sequence_ratio artist1_norm artist2_norm in
  let title_similarity := sequence_ratio title1_norm title2_norm in
  ((title_similarity * 0.7) + (artist_similarity * 0.3))%float.

(** The [for scrobble in recent_scrobbles] loop of
    [_check_similar_tracks]. *)
Fixpoint scan_recent (self : t) (recognition_result : RecognitionResult.t)
         (fingerprint : str) (current_time cutoff_time : Z)
         (recent_scrobbles : list HistoryRow.t) : DuplicateCheck.t :=
  match recent_scrobbles with
  | [] => DuplicateCheck.mk false 0%float None None (Some fingerprint)
  | scrobble :: rest =>
      if HistoryRow.scrobbled_at scrobble <? cutoff_time
      then scan_recent self recognition_result fingerprint
                       current_time cutoff_time rest
      else
        let similarity :=
          _calculate_similarity
            (RecognitionResult.artist recognition_result)
            (RecognitionResult.title recognition_result)
            (Some (HistoryRow.artist scrobble))
            (Some (HistoryRow.title scrobble)) in
        if PrimFloat.leb (similarity_threshold self) similarity
        then
          let time_since_last := current_time - HistoryRow.scrobbled_at scrobble in
          DuplicateCheck.mk true similarity (Some time_since_last)
            (Some (HistoryRow.artist scrobble, HistoryRow.title scrobble))
            (Some fingerprint)
        else scan_recent self recognition_result fingerprint
                         current_time cutoff_time rest
  end.

Definition _check_similar_tracks (self : t)
           (recognition_result : RecognitionResult.t)
           (fingerprint : str) : M DuplicateCheck.t :=
  current_time <- time_now ;;
  let cutoff_time := current_time - time_window self in
  DatabaseManager.get_recent_stats (Z.quot (time_window self) 3600 + 1) ;;;
  recent_scrobbles <- DatabaseManager.get_recent_scrobbles 100 ;;
  ret (scan_recent self recognition_result fingerprint
                   current_time cutoff_time recent_scrobbles).

Definition is_duplicate (self : t)
           (recognition_result : RecognitionResult.t) : M DuplicateCheck.t :=
  if negb (enabled self)
  then ret (DuplicateCheck.mk false 0%float None None None)
  else if negb (RecognitionResult.success recognition_result)
          || negb (Py.truthy_opt (RecognitionResult.artist recognition_result))
          || negb (Py.truthy_opt (RecognitionResult.title recognition_result))
  then ret (DuplicateCheck.mk false 0%float None None None)
  else
    let fingerprint := _create_fingerprint recognition_result in
    existing_entry <- DatabaseManager.find_duplicate fingerprint ;;
    match existing_entry with
    | Some existing =>
        now <- time_now ;;
        let time_since_last := now - DuplicateEntry.timestamp existing in
        ret (DuplicateCheck.mk true 1%float (Some time_since_last)
               (Some (DuplicateEntry.artist existing,
                      DuplicateEntry.title existing))
               (Some fingerprint))
    | None => _check_similar_tracks self recognition_result fingerprint
    end.

Definition add_track (self : t)
           (recognition_result : RecognitionResult.t) : M bool :=
  if negb (enabled self) || negb (RecognitionResult.success recognition_result)
  then ret false
  else
    let fingerprint := _create_fingerprint recognition_result in
    timestamp <- time_now ;;
    let entry :=
      DuplicateEntry.mk fingerprint
        (Py.or_empty (RecognitionResult.artist recognition_result))
        (Py.or_empty (RecognitionResult.title recognition_result))
        timestamp
        (RecognitionResult.confidence recognition_result)
        None in
    try_except
      (DatabaseManager.add_duplicate_entry entry (time_window self) ;;;
       ret true)
      (fun _ => ret false).

End Methods.

End DuplicateDetector.

(** ** [LastFMScrobbler] *)

Module LastFMScrobbler.

(** The configuration read by [__init__] and the flags set by
    [_initialize_lastfm] and [start]/[stop_scrobble_processor].
    [network] says whether [self.network] is a network object (not
    [None]).  The flags are read as they stand; another thread changing
    them during a call is outside the embedding. *)
Record t := mk {
  enabled : bool;
  min_play_time : Z;
  max_queue_size : Z;
  retry_interval : Z;
  max_retries : Z;
  network : bool;
  _authenticated : bool;
  _running : bool
}.

Definition is_available (self : t) : bool :=
  enabled self && _authenticated self && network self.

Definition count_attempted : M unit :=
  modify (fun w =>
    let s := stats w in
    set_stats (Stats.mk (Stats.scrobbles_attempted s + 1)
                        (Stats.scrobbles_successful s)
                        (Stats.scrobbles_failed s) (Stats.queue_processed s)
                        (Stats.authentication_errors s)
                        (Stats.network_errors s)) w).

Definition count_successful : M unit :=
  modify (fun w =>
    let s := stats w in
    set_stats (Stats.mk (Stats.scrobbles_attempted s)
                        (Stats.scrobbles_successful s + 1)
                        (Stats.scrobbles_failed s) (Stats.queue_processed s)
                        (Stats.authentication_errors s)
                        (Stats.network_errors s)) w).

Definition count_failed : M unit :=
  modify (fun w =>
    let s := stats w in
    set_stats (Stats.mk (Stats.scrobbles_attempted s)
                        (Stats.scrobbles_successful s)
                        (Stats.scrobbles_failed s + 1) (Stats.queue_processed s)
                        (Stats.authentication_errors s)
                        (Stats.network_errors s)) w).

Definition count_processed : M unit :=
  modify (fun w =>
    let s := stats w in
    set_stats (Stats.mk (Stats.scrobbles_attempted s)
                        (Stats.scrobbles_successful s)
                        (Stats.scrobbles_failed s) (Stats.queue_processed s + 1)
                        (Stats.authentication_errors s)
                        (Stats.network_errors s)) w).

Definition count_network_error : M unit :=
  modify (fun w =>
    let s := stats w in
    set_stats (Stats.mk (Stats.scrobbles_attempted s)
                        (Stats.scrobbles_successful s)
                        (Stats.scrobbles_failed s) (Stats.queue_processed s)
                        (Stats.authentication_errors s)
                        (Stats.network_errors s + 1)) w).

(** [x or int(time.time())]: [None] and [0] both fall through to the
    clock. *)
Definition or_time_now (x : option Z) : M Z :=
  match x with
  | Some t => if t =? 0 then time_now else ret t
  | None => time_now
  end.

(** [self.network.get_track(...)] followed by [self.network.scrobble(...)].
    Without a network object the attribute access raises; otherwise the
    submission is logged and the sink answers. *)
Definition network_scrobble (self : t) (submission : Submission.t) : M unit :=
  if negb (network self)
  then raise (OtherError (lit "'NoneType' object has no attribute 'get_track'"))
  else
    fun w =>
      let n := length (sink_log w) in
      let w' := set_sink_log (sink_log w ++ [submission]) w in
      match sink_reply w n with
      | Accepted => Returned tt w'
      | RaisesWSError error_code message => Raised (WSError error_code message) w'
      | RaisesOther message => Raised (OtherError message) w'
      end.

(** [str(e)]. *)
Definition exn_message (e : Exn) : str :=
  match e with
  | DatabaseError => lit "database error"
  | WSError _ message => message
  | OtherError message => message
  end.

(** The error codes after which a scrobble is not retried. *)
Definition permanent_error_codes : list Z := [2; 3; 4; 5; 6; 7; 9; 10; 13; 26].

Definition code_in (error_code : option Z) (codes : list Z) : bool :=
  match error_code with
  | Some c => existsb (Z.eqb c) codes
  | None => false
  end.

Definition too_short (self : t) (entry : ScrobbleEntry.t) : bool :=
  match ScrobbleEntry.duration entry with
  | Some d => negb (d =? 0) && (d <? min_play_time self)
  | None => false
  end.

Definition _attempt_scrobble (self : t) (entry : ScrobbleEntry.t) : M ScrobbleResult.t :=
  try_except
    (if negb (Py.truthy (ScrobbleEntry.artist entry))
        || negb (Py.truthy (ScrobbleEntry.title entry))
     then ret (ScrobbleResult.mk false None
                 (Some (lit "Missing artist or title")) false)
     else if too_short self entry
     then ret (ScrobbleResult.mk false None
                 (Some (lit "Track too short ("
                        ++ match ScrobbleEntry.duration entry with
                           | Some d => Py.str_of_int d
                           | None => lit "None"
                           end
                        ++ lit "s < " ++ Py.str_of_int (min_play_time self)
                        ++ lit "s)"))
                 false)
     else
       timestamp <- or_time_now (ScrobbleEntry.timestamp entry) ;;
       network_scrobble self
         (Submission.mk (ScrobbleEntry.artist entry)
                        (ScrobbleEntry.title entry) timestamp
                        (ScrobbleEntry.album entry)
                        (ScrobbleEntry.duration entry)
                        (ScrobbleEntry.track_number entry)
                        (ScrobbleEntry.mbid entry)) ;;;
       count_attempted ;;;
       ret (ScrobbleResult.mk true (ScrobbleEntry.id entry) None false))
    (fun e =>
       match e with
       | WSError error_code error_message =>
           let should_retry := negb (code_in error_code permanent_error_codes) in
           count_attempted ;;;
           ret (ScrobbleResult.mk false None (Some error_message) should_retry)
       | _ =>
           count_attempted ;;;
           count_network_error ;;;
           ret (ScrobbleResult.mk false None (Some (exn_message e)) true)
       end).

(** The body of the [for entry in queue_entries] loop, after the
    [_running] test. *)
Definition process_entry (self : t) (entry : ScrobbleEntry.t) : M unit :=
  try_except
    (result <- _attempt_scrobble self entry ;;
     if ScrobbleResult.success result
     then
       DatabaseManager.remove_from_scrobble_queue (ScrobbleEntry.id entry) ;;;
       DatabaseManager.add_to_history entry (lit "lastfm") 1%float None ;;;
       count_successful ;;;
       count_processed
     else if ScrobbleResult.should_retry result
             && (ScrobbleEntry.retry_count entry <? max_retries self)
     then
       DatabaseManager.increment_retry_count (ScrobbleEntry.id entry) ;;;
       count_failed
     else
       DatabaseManager.remove_from_scrobble_queue (ScrobbleEntry.id entry) ;;;
       count_failed ;;;
       count_processed)
    (fun _ =>
       if ScrobbleEntry.retry_count entry <? max_retries self
       then DatabaseManager.increment_retry_count (ScrobbleEntry.id entry) ;;;
            ret tt
       else ret tt).

Fixpoint process_entries (self : t) (queue_entries : list ScrobbleEntry.t) : M unit :=
  match queue_entries with
  | [] => ret tt
  | entry :: rest =>
      if negb (_running self) then ret tt
      else process_entry self entry ;;; process_entries self rest
  end.

Definition _process_scrobble_queue (self : t) : M unit :=
  if negb (is_available self) then ret tt
  else
    queue_entries <- DatabaseManager.get_scrobble_queue 50 ;;
    match queue_entries with
    | [] => ret tt
    | _ :: _ => process_entries self queue_entries
    end.

(** [_scrobble_loop], run for a given number of wake-ups: every pass
    calls [_process_scrobble_queue] and swallows what it raises. *)
Fixpoint _scrobble_loop (wakeups : nat) (self : t) : M unit :=
  match wakeups with
  | O => ret tt
  | S k =>
      if negb (_running self) then ret tt
      else
        try_except (_process_scrobble_queue self) (fun _ => ret tt) ;;;
        _scrobble_loop k self
  end.

Definition queue_scrobble (self : t) (recognition_result : RecognitionResult.t)
           (timestamp : option Z) : M bool :=
  if negb (RecognitionResult.success recognition_result) then ret false
  else if negb (Py.truthy_opt (RecognitionResult.artist recognition_result))
          || negb (Py.truthy_opt (RecognitionResult.title recognition_result))
  then ret false
  else
    current_queue_size <- DatabaseManager.get_queue_size ;;
    if max_queue_size self <=? current_queue_size then ret false
    else
      timestamp <- or_time_now timestamp ;;
      let entry :=
        ScrobbleEntry.mk
          (Py.or_empty (RecognitionResult.artist recognition_result))
          (Py.or_empty (RecognitionResult.title recognition_result))
          (RecognitionResult.album recognition_result)
          (Some timestamp)
          (RecognitionResult.duration recognition_result)
          None None 0 None None in
      try_except
        (DatabaseManager.add_to_scrobble_queue
           entry (RecognitionResult.metadata recognition_result) ;;;
         ret true)
        (fun _ => ret false).

(** Immediate submission, bypassing the queue.  A missing artist or title
    is passed on as it is; the attempt only tests it for emptiness, so it
    is kept here as the empty text. *)
Definition scrobble_now (self : t) (recognition_result : RecognitionResult.t)
           (timestamp : option Z) : M ScrobbleResult.t :=
  if negb (is_available self)
  then ret (ScrobbleResult.mk false None (Some (lit "Last.fm not available")) true)
  else
    timestamp <- or_time_now timestamp ;;
    let entry :=
      ScrobbleEntry.mk
        (Py.or_empty (RecognitionResult.artist recognition_result))
        (Py.or_empty (RecognitionResult.title recognition_result))
        (RecognitionResult.album recognition_result)
        (Some timestamp)
        (RecognitionResult.duration recognition_result)
        None None 0 None None in
    _attempt_scrobble self entry.

(** The [for entry in entries] loop of [clear_queue], with its counter. *)
Fixpoint clear_entries (entries : list ScrobbleEntry.t) (count : Z) : M Z :=
  match entries with
  | [] => ret count
  | entry :: rest =>
      removed <- DatabaseManager.remove_from_scrobble_queue (ScrobbleEntry.id entry) ;;
      clear_entries rest (if removed then count + 1 else count)
  end.

Definition clear_queue : M Z :=
  entries <- DatabaseManager.get_scrobble_queue 1000 ;;
  clear_entries entries 0.

End LastFMScrobbler.

(** ** Notions the properties are stated with *)

(** Runs of spaces collapsed to one space each: what the [while] loop of
    [_normalize_string] computes ([collapse_loop_squeeze]). *)
Fixpoint squeeze (s : str) : str :=
  match s with
  | [] => []
  | c :: r =>
      match r with
      | [] => [c]
      | c' :: _ =>
          if Ascii.eqb c char_space && Ascii.eqb c' char_space
          then squeeze r
          else c :: squeeze r
      end
  end.

Definition starts_with_space (s : str) : bool :=
  match s with
  | c :: _ => Ascii.eqb c char_space
  | [] => false
  end.

(** What the six replacements make of one character, double spaces apart. *)
Definition fold_char (c : ascii) : str :=
  if Ascii.eqb c "&"%char || Ascii.eqb c "+"%char then lit "and"
  else if Ascii.eqb c char_tab || Ascii.eqb c char_newline || Ascii.eqb c char_return
       then [char_space]
       else [c].

(** The characters [strip] removes at the edges: white space and the
    punctuation the source lists. *)
Definition is_edge_char (c : ascii) : bool := Py.mem c strip_chars.

(** Space, tab, newline, carriage return. *)
Definition is_blank (c : ascii) : bool :=
  Py.mem c [char_space; char_tab; char_newline; char_return].

(** The normal form [_normalize_string] computes, written without the
    loop ([normalize_canonical]). *)
Definition canonical (s : str) : str :=
  squeeze (Py.strip strip_chars (flat_map fold_char (Py.lower s))).

(** One local variation of a text: a letter replaced by its lower-case
    form, an ampersand by a plus sign or by the word, a run of blanks by
    another run of blanks. *)
Inductive variation : str -> str -> Prop :=
| var_case (c : ascii) : variation [c] [Py.lower_char c]
| var_amp_plus : variation ["&"%char] ["+"%char]
| var_amp_and : variation ["&"%char] ["a"%char; "n"%char; "d"%char]
| var_blank_run (r r' : str) :
    r <> [] -> r' <> [] ->
    forallb is_blank r = true -> forallb is_blank r' = true ->
    variation r r'.

(** Two texts that differ only by such variations, anywhere and in either
    direction, and by edge characters at either end. *)
Inductive differ_only_by_variations : str -> str -> Prop :=
| dv_refl (s : str) : differ_only_by_variations s s
| dv_sym (s t : str) :
    differ_only_by_variations s t -> differ_only_by_variations t s
| dv_trans (s t u : str) :
    differ_only_by_variations s t -> differ_only_by_variations t u ->
    differ_only_by_variations s u
| dv_inside (p u v q : str) :
    variation u v -> differ_only_by_variations (p ++ u ++ q) (p ++ v ++ q)
| dv_leading (e s : str) :
    forallb is_edge_char e = true -> differ_only_by_variations (e ++ s) s
| dv_trailing (e s : str) :
    forallb is_edge_char e = true -> differ_only_by_variations (s ++ e) s.

(** The text is empty or starts with a character [strip] keeps. *)
Definition head_kept (chars s : str) : bool :=
  match s with
  | [] => true
  | c :: _ => negb (Py.mem c chars)
  end.

(** The last three replacements, as one map on characters. *)
Definition blank_to_space (c : ascii) : ascii :=
  let c := if Ascii.eqb char_tab c then char_space else c in
  let c := if Ascii.eqb char_newline c then char_space else c in
  if Ascii.eqb char_return c then char_space else c.

(** The first two replacements, each as a map from a character to text. *)
Definition word_for (sign : ascii) (c : ascii) : str :=
  if Ascii.eqb sign c then lit "and" else [c].

(** Lower-casing and the replacements, double spaces apart. *)
Definition folded (s : str) : str := flat_map fold_char (Py.lower s).

(** A character that lower-casing and the replacements leave alone. *)
Definition settled (c : ascii) : bool :=
  Ascii.eqb (Py.lower_char c) c && str_eqb (fold_char c) [c].

(** The same result with no duration. *)
Definition without_duration (r : RecognitionResult.t) : RecognitionResult.t :=
  RecognitionResult.mk
    (RecognitionResult.success r) (RecognitionResult.confidence r)
    (RecognitionResult.artist r) (RecognitionResult.title r)
    (RecognitionResult.album r) None
    (RecognitionResult.provider r) (RecognitionResult.metadata r).

(** The exception an outcome raised, if it raised. *)
Definition raised_with {A} (o : Outcome A) : option Exn :=
  match o with Raised e _ => Some e | Returned _ _ => None end.

(** The rows the fuzzy check scans: the 100 most recent of the history,
    most recent first. *)
Definition recent_history (w : World) : list HistoryRow.t :=
  firstn 100
    (DatabaseManager.order_by (fun row => - HistoryRow.scrobbled_at row)
                              (scrobble_history (store w))).

Section Scan.
Context {difflib : Difflib}.

(** The similarity of a result to a history row. *)
Definition similarity_to (r : RecognitionResult.t) (row : HistoryRow.t) : float :=
  DuplicateDetector._calculate_similarity
    (RecognitionResult.artist r) (RecognitionResult.title r)
    (Some (HistoryRow.artist row)) (Some (HistoryRow.title row)).

(** A history row inside the window whose similarity reaches the
    threshold. *)
Definition qualifies (self : DuplicateDetector.t) (r : RecognitionResult.t)
           (cutoff_time : Z) (row : HistoryRow.t) : bool :=
  negb (HistoryRow.scrobbled_at row <? cutoff_time)
  && PrimFloat.leb (DuplicateDetector.similarity_threshold self)
                   (similarity_to r row).

End Scan.

(** An entry the delivery attempt turns down before reaching the sink:
    no artist, no title, or a known duration below the minimum. *)
Definition fails_validation (self : LastFMScrobbler.t) (entry : ScrobbleEntry.t) : bool :=
  negb (Py.truthy (ScrobbleEntry.artist entry))
  || negb (Py.truthy (ScrobbleEntry.title entry))
  || LastFMScrobbler.too_short self entry.

(** The store answers every call. *)
Definition reliable (w : World) : Prop := forall n, store_fault w n = false.

(** No row of the queue has this id. *)
Definition absent (entry_id : Z) (queue : list QueueRow.t) : Prop :=
  ~ In entry_id (map QueueRow.id queue).

(** From one world to a later one the fault oracle is the same and no new
    id has entered the queue. *)
Definition later (w w' : World) : Prop :=
  store_fault w' = store_fault w
  /\ incl (map QueueRow.id (scrobble_queue (store w')))
          (map QueueRow.id (scrobble_queue (store w))).

(** A computation that, on a reliable store, ends in a later world. *)
Definition keeps {A} (m : M A) : Prop :=
  forall w, reliable w -> later w (world_of (m w)).

(** A computation that, on a reliable store, does not raise. *)
Definition returns {A} (m : M A) : Prop :=
  forall w, reliable w -> exists a w', m w = Returned a w'.

(** A sink answer after which the attempt asks for a retry. *)
Definition transient (reply : SinkReply) : bool :=
  match reply with
  | Accepted => false
  | RaisesWSError error_code _ =>
      negb (LastFMScrobbler.code_in error_code LastFMScrobbler.permanent_error_codes)
  | RaisesOther _ => true
  end.

(** Every answer of the sink is a transient failure. *)
Definition sink_down (w : World) : Prop :=
  forall n, transient (sink_reply w n) = true.

(** The row with its retry count set. *)
Definition with_retry_count (count : Z) (row : QueueRow.t) : QueueRow.t :=
  QueueRow.mk (QueueRow.id row) (QueueRow.artist row) (QueueRow.title row)
              (QueueRow.album row) (QueueRow.timestamp row)
              (QueueRow.duration row) (QueueRow.track_number row)
              (QueueRow.mbid row) count
              (QueueRow.created_at row) (QueueRow.metadata row).

(** An answer the library can give.  [pylast.WSError] carries [status] and
    [details] and has no [error_code] attribute, so what the handler reads
    with [getattr(e, 'error_code', None)] is [None], whatever the error
    number Last.fm reported. *)
Definition from_pylast (reply : SinkReply) : bool :=
  match reply with
  | RaisesWSError (Some _) _ => false
  | _ => true
  end.

(** An entry the attempt hands to the sink: it has an artist and a title,
    and its duration is missing, zero, or not below the minimum play
    time. *)
Definition submittable (self : LastFMScrobbler.t) (entry : ScrobbleEntry.t) : Prop :=
  ScrobbleEntry.artist entry <> []
  /\ ScrobbleEntry.title entry <> []
  /\ match ScrobbleEntry.duration entry with
     | Some d => d = 0 \/ LastFMScrobbler.min_play_time self <= d
     | None => True
     end.

(** ** Concrete instances *)

(** Stand-ins for the two library functions, to run the methods on
    concrete inputs: the digest is the data itself, the ratio is 1 on
    equal texts and 0 otherwise. *)
Definition plain_hash : Hashlib := {| sha256_hexdigest := fun data => data |}.

Definition exact_ratio : Difflib :=
  {| sequence_ratio := fun a b => if str_eqb a b then 1%float else 0%float |}.

(** A successful result as the tests build them. *)
Definition result_of (artist title : string) (duration : option Z) : RecognitionResult.t :=
  RecognitionResult.mk true 0.85%float (Some (lit artist)) (Some (lit title))
                       None duration (lit "audd") None.

(** The defaults of the two [__init__] methods, with Last.fm enabled,
    authenticated and running. *)
Definition default_detector : DuplicateDetector.t :=
  DuplicateDetector.mk true 900 0.9%float 1000.

Definition default_scrobbler : LastFMScrobbler.t :=
  LastFMScrobbler.mk true 30 1000 300 5 true true true.

Definition empty_store : Store := mkStore [] 0 [] 0 [] 0.

Definition zero_stats : Stats.t := Stats.mk 0 0 0 0 0 0.

(** A clock that advances one second per reading. *)
Definition ticking_clock (n : nat) : Z := 1700000000 + Z.of_nat n.

(** A world with the given store, store faults and sink replies. *)
Definition world_with (s : Store) (faults : nat -> bool)
           (replies : nat -> SinkReply) : World :=
  mkWorld ticking_clock 0 faults [] replies [] s zero_stats.

Definition never : nat -> bool := fun _ => false.

Definition only_at (k : nat) : nat -> bool := fun n => Nat.eqb n k.

Definition always_accepted : nat -> SinkReply := fun _ => Accepted.

Definition always_offline : nat -> SinkReply :=
  fun _ => RaisesOther (lit "connection refused").

Definition queued_row : QueueRow.t :=
  QueueRow.mk 1 (lit "Artist") (lit "Song") (Some (lit "Album"))
              (Some 1699999000) (Some 180) None None 0 1699999000 None.

Definition untitled_row : QueueRow.t :=
  QueueRow.mk 1 (lit "Artist") [] None (Some 1699999000) (Some 180)
              None None 3 1699999000 None.

(** A row of ten seconds, under the default minimum play time of 30. *)
Definition short_row : QueueRow.t :=
  QueueRow.mk 1 (lit "Artist") (lit "Song") None (Some 1699999000) (Some 10)
              None None 3 1699999000 None.

Definition zero_entry : ScrobbleEntry.t :=
  ScrobbleEntry.mk (lit "Artist") (lit "Song") None (Some 1699999000)
                   (Some 0) None None 0 (Some 1699999000) (Some 1).

Definition store_with_queue (queue : list QueueRow.t) : Store :=
  mkStore queue 1 [] 0 [] 0.

Definition played_row : HistoryRow.t :=
  HistoryRow.mk 1 (lit "artist") (lit "SONG!") None 1699999900 (Some 180)
                None None 1699999900 (lit "lastfm") 1%float None.

Definition store_with_history (history : list HistoryRow.t) : Store :=
  mkStore [] 0 history 1 [] 0.

(** ** Invariants of the tables *)

(** The ids of the queue are pairwise different and none is above the
    AUTOINCREMENT counter. *)
Definition queue_ids_fresh (s : Store) : Prop :=
  NoDup (map QueueRow.id (scrobble_queue s))
  /\ Forall (fun row => QueueRow.id row <= queue_seq s) (scrobble_queue s).

(** The fingerprints of the duplicate cache are pairwise different (the
    UNIQUE constraint of the column). *)
Definition cache_keys_unique (s : Store) : Prop :=
  NoDup (map CacheRow.fingerprint (duplicate_cache s)).

(** The entry [find_duplicate] builds from a cache row. *)
Definition entry_of_cache_row (row : CacheRow.t) : DuplicateEntry.t :=
  DuplicateEntry.mk (CacheRow.fingerprint row) (CacheRow.artist row)
                    (CacheRow.title row) (CacheRow.timestamp row)
                    (CacheRow.confidence row) (Some (CacheRow.id row)).

(** ** What a computation leaves alone *)

(** A computation whose final world is related to its initial one,
    whether it returns or raises. *)
Definition respects (R : World -> World -> Prop) {A} (m : M A) : Prop :=
  forall w, R w (world_of (m w)).

(** A computation that never raises. *)
Definition total {A} (m : M A) : Prop :=
  forall w, exists a w', m w = Returned a w'.

(** The tables are the same. *)
Definition same_store (w w' : World) : Prop := store w' = store w.

(** [row'] is [row] with its retry count no lower. *)
Definition retried (row row' : QueueRow.t) : Prop :=
  row' = with_retry_count (QueueRow.retry_count row') row
  /\ QueueRow.retry_count row <= QueueRow.retry_count row'.

(** The second queue comes from the first by deleting rows and raising
    retry counts: no row is added, changed otherwise or moved. *)
Inductive dwindles : list QueueRow.t -> list QueueRow.t -> Prop :=
| dw_nil : dwindles [] []
| dw_drop (row : QueueRow.t) (q q' : list QueueRow.t) :
    dwindles q q' -> dwindles (row :: q) q'
| dw_keep (row row' : QueueRow.t) (q q' : list QueueRow.t) :
    retried row row' -> dwindles q q' -> dwindles (row :: q) (row' :: q').

Definition queue_dwindles (w w' : World) : Prop :=
  dwindles (scrobble_queue (store w)) (scrobble_queue (store w')).

(** ** Cache maintenance *)

(** The maintenance methods reach the store by statements of their own.
    Their calls are logged apart and fail by an oracle of their own: a run
    makes its calls in one fixed order, so any pattern of failures over
    them is a choice of the two oracles. *)
Module Maintenance.

Inductive Call : Type :=
| CallCleanupExpiredDuplicates    (* DELETE ... WHERE expires_at <= ? *)
| CallExpireAll                   (* UPDATE duplicate_cache SET expires_at = 0 *)
| CallSelectRecentFingerprints.   (* SELECT ... ORDER BY timestamp DESC LIMIT ? *)

Record State := mk {
  world : World;
  fault : nat -> bool;
  log : list Call
}.

Inductive Result (A : Type) : Type :=
| Finished (a : A) (s : State)
| Aborted (e : Exn) (s : State).
Arguments Finished {A} a s.
Arguments Aborted {A} e s.

Definition Job (A : Type) : Type := State -> Result A.

Definition pure {A} (a : A) : Job A := fun s => Finished a s.

Definition and_then {A B} (m : Job A) (k : A -> Job B) : Job B :=
  fun s =>
    match m s with
    | Finished a s' => k a s'
    | Aborted e s' => Aborted e s'
    end.

(** [try: m  except Exception as e: handler e]. *)
Definition guarded {A} (m : Job A) (handler : Exn -> Job A) : Job A :=
  fun s =>
    match m s with
    | Finished a s' => Finished a s'
    | Aborted e s' => handler e s'
    end.

(** A computation on the world, run inside a job. *)
Definition lift {A} (m : M A) : Job A :=
  fun s =>
    match m (world s) with
    | Returned a w => Finished a (mk w (fault s) (log s))
    | Raised e w => Aborted e (mk w (fault s) (log s))
    end.

(** Entering the connection and executing a maintenance statement. *)
Definition connect (call : Call) : Job unit :=
  fun s =>
    let s' := mk (world s) (fault s) (log s ++ [call]) in
    if fault s (length (log s)) then Aborted DatabaseError s' else Finished tt s'.

(** Replace the duplicate cache. *)
Definition set_duplicate_cache (cache : list CacheRow.t) : Job unit :=
  lift (modify (fun w =>
    let s := store w in
    set_store (mkStore (scrobble_queue s) (queue_seq s)
                       (scrobble_history s) (history_seq s)
                       cache (cache_seq s)) w)).

Definition state_of {A} (r : Result A) : State :=
  match r with Finished _ s => s | Aborted _ s => s end.

Definition expired (current_time : Z) (row : CacheRow.t) : bool :=
  CacheRow.expires_at row <=? current_time.

Definition expire (row : CacheRow.t) : CacheRow.t :=
  CacheRow.mk (CacheRow.id row) (CacheRow.fingerprint row) (CacheRow.artist row)
              (CacheRow.title row) (CacheRow.timestamp row)
              (CacheRow.confidence row) 0.

(** [DatabaseManager.cleanup_expired_duplicates]: the number of rows
    deleted. *)
Definition cleanup_expired_duplicates : Job Z :=
  and_then (lift time_now) (fun current_time =>
  and_then (connect CallCleanupExpiredDuplicates) (fun _ =>
  and_then (lift (get (fun w => duplicate_cache (store w)))) (fun cache =>
  and_then (set_duplicate_cache
              (filter (fun row => negb (expired current_time row)) cache)) (fun _ =>
  pure (Z.of_nat (length (filter (expired current_time) cache))))))).

(** [DuplicateDetector.cleanup_expired]. *)
Definition cleanup_expired : Job Z :=
  guarded cleanup_expired_duplicates (fun _ => pure 0).

(** [DuplicateDetector.clear_cache]: every row is marked expired, then the
    expired rows are cleaned up; the answer is the number of rows
    marked. *)
Definition clear_cache : Job Z :=
  guarded
    (and_then (lift time_now) (fun _ =>
     and_then (connect CallExpireAll) (fun _ =>
     and_then (lift (get (fun w => duplicate_cache (store w)))) (fun cache =>
     and_then (set_duplicate_cache (map expire cache)) (fun _ =>
     and_then cleanup_expired (fun _ =>
     pure (Z.of_nat (length cache))))))))
    (fun _ => pure 0).

(** One dict of [get_recent_fingerprints]. *)
Record FingerprintInfo := mkInfo {
  info_fingerprint : str;
  info_artist : str;
  info_title : str;
  info_timestamp : Z;
  info_confidence : float;
  info_expires_at : Z;
  age_seconds : Z
}.

(** [LIMIT ?]: a negative limit is no limit. *)
Definition limit_rows {A} (limit : Z) (rows : list A) : list A :=
  if limit <? 0 then rows else firstn (Z.to_nat limit) rows.

(** The loop over [cursor.fetchall()]: the clock is read once per row. *)
Fixpoint describe_rows (rows : list CacheRow.t) : Job (list FingerprintInfo) :=
  match rows with
  | [] => pure []
  | row :: rest =>
      and_then (lift time_now) (fun now =>
      and_then (describe_rows rest) (fun infos =>
      pure (mkInfo (CacheRow.fingerprint row) (CacheRow.artist row)
                   (CacheRow.title row) (CacheRow.timestamp row)
                   (CacheRow.confidence row) (CacheRow.expires_at row)
                   (now - CacheRow.timestamp row)
              :: infos)))
  end.

(** [DuplicateDetector.get_recent_fingerprints].  The connection is entered
    before the clock is read for the query.  The store answers the query
    through its index on [expires_at] and sorts what it finds, so rows of
    equal timestamp come in the order of their expiry, and in table order
    when that is equal too. *)
Definition get_recent_fingerprints (limit : Z) : Job (list FingerprintInfo) :=
  guarded
    (and_then (connect CallSelectRecentFingerprints) (fun _ =>
     and_then (lift time_now) (fun current_time =>
     and_then (lift (get (fun w => duplicate_cache (store w)))) (fun cache =>
     describe_rows
       (limit_rows limit
          (DatabaseManager.order_by (fun row => - CacheRow.timestamp row)
             (DatabaseManager.order_by CacheRow.expires_at
                (filter (fun row => current_time <? CacheRow.expires_at row)
                        cache))))))))
    (fun _ => pure []).

(** A job started on a world, with its own oracle and an empty log. *)
Definition start (w : World) (faults : nat -> bool) : State := mk w faults [].

End Maintenance.

(** An info dict carries the fields of its row. *)
Definition describes (info : Maintenance.FingerprintInfo) (row : CacheRow.t) : Prop :=
  Maintenance.info_fingerprint info = CacheRow.fingerprint row
  /\ Maintenance.info_artist info = CacheRow.artist row
  /\ Maintenance.info_title info = CacheRow.title row
  /\ Maintenance.info_timestamp info = CacheRow.timestamp row
  /\ Maintenance.info_expires_at info = CacheRow.expires_at row.

(** A cache row that has expired when [ticking_clock] starts, and one that
    has not. *)
Definition stale_row : CacheRow.t :=
  CacheRow.mk 1 (lit "abc") (lit "artist") (lit "song") 1699999000
              0.85%float 1699999900.

Definition fresh_row : CacheRow.t :=
  CacheRow.mk 2 (lit "def") (lit "artist") (lit "other song") 1699999950
              0.9%float 1700000850.

Definition store_with_cache (cache : list CacheRow.t) : Store :=
  mkStore [] 0 [] 0 cache 2.


(** ** [ConfigManager] *)

(** What [json.load] yields.  A dict keeps its keys in insertion order and
    holds each key once; it is read from the front.  The configuration is a
    tree: no dict is reachable by two paths, as [json.load] builds it and
    [set] with a fresh value keeps it. *)
#[local] Set Warnings "-register-all".

Inductive Json : Type :=
| JNull
| JBool (b : bool)
| JInt (n : Z)
| JFloat (x : float)
| JStr (s : str)
| JList (items : list Json)
| JDict (fields : list (str * Json)).

Module ConfigManager.

Definition is_dict (value : Json) : bool :=
  match value with JDict _ => true | _ => false end.

(** [fields[key]] of a dict. *)
Fixpoint lookup (key : str) (fields : list (str * Json)) : option Json :=
  match fields with
  | [] => None
  | (k, v) :: rest => if str_eqb k key then Some v else lookup key rest
  end.

(** [fields[key] = value]: a key that is present keeps its place. *)
Fixpoint assign (key : str) (value : Json) (fields : list (str * Json))
  : list (str * Json) :=
  match fields with
  | [] => [(key, value)]
  | (k, v) :: rest =>
      if str_eqb k key then (k, value) :: rest
      else (k, v) :: assign key value rest
  end.

(** [key_path.split('.')], which is never empty: its first key and the
    others. *)
Fixpoint split_dot (key_path : str) : str * list str :=
  match key_path with
  | [] => ([], [])
  | c :: rest =>
      let (key, keys) := split_dot rest in
      if Ascii.eqb c "."%char then ([], key :: keys) else (c :: key, keys)
  end.

Definition keys_of (key_path : str) : list str :=
  let (key, keys) := split_dot key_path in key :: keys.

(** [value[key]] for a string key: [KeyError] on a dict without the key,
    [TypeError] on anything that is not a dict; [None] stands for both,
    which [get] catches alike. *)
Definition subscript (value : Json) (key : str) : option Json :=
  match value with
  | JDict fields => lookup key fields
  | _ => None
  end.

Fixpoint walk (value : Json) (keys : list str) : option Json :=
  match keys with
  | [] => Some value
  | key :: rest =>
      match subscript value key with
      | Some inner => walk inner rest
      | None => None
      end
  end.

Definition get (config : Json) (key_path : str) (default : Json) : Json :=
  match walk config (keys_of key_path) with
  | Some value => value
  | None => default
  end.

(** The loop of [set] over [keys[:-1]] and the final assignment, on the
    keys [key :: rest].  A value on the way that is not a dict makes the
    membership test, the item assignment or the subscript raise
    [TypeError], for which [None] stands; this happens before anything is
    written, since below a dict that [set] creates every key is new. *)
Fixpoint set_path (key : str) (rest : list str) (value : Json) (config : Json)
  : option Json :=
  match config with
  | JDict fields =>
      match rest with
      | [] => Some (JDict (assign key value fields))
      | next :: rest' =>
          let inner := match lookup key fields with
                       | Some found => found
                       | None => JDict []
                       end in
          match set_path next rest' value inner with
          | Some inner' => Some (JDict (assign key inner' fields))
          | None => None
          end
      end
  | _ => None
  end.

Definition set (config : Json) (key_path : str) (value : Json) : option Json :=
  let (key, keys) := split_dot key_path in set_path key keys value config.

(** Two key lists part ways at some key: neither leads through the
    other. *)
Fixpoint diverges (keys keys' : list str) : bool :=
  match keys, keys' with
  | k :: rest, k' :: rest' => if str_eqb k k' then diverges rest rest' else true
  | _, _ => false
  end.

(** [update_nested_dict]: what [original[key]] becomes for an entry
    [key: value] of the updates, given what it is ([None]: the key is
    missing). *)
Fixpoint update_value (value : Json) (current : option Json) : Json :=
  match value with
  | JDict inner =>
      match current with
      | Some (JDict existing) =>
          JDict
            ((fix update_items (updates original : list (str * Json))
                : list (str * Json) :=
                match updates with
                | [] => original
                | (k, v) :: rest =>
                    update_items rest
                      (assign k (update_value v (lookup k original)) original)
                end) inner existing)
      | _ => value
      end
  | _ => value
  end.

Fixpoint update_nested_dict (original updates : list (str * Json))
  : list (str * Json) :=
  match updates with
  | [] => original
  | (k, v) :: rest =>
      update_nested_dict
        (assign k (update_value v (lookup k original)) original) rest
  end.

(** [update_config] on a configuration that is a dict, as the file holds
    one. *)
Definition update_config (config : list (str * Json))
           (updates : list (str * Json)) : Json :=
  JDict (update_nested_dict config updates).

End ConfigManager.

(** Every dict below holds each key once. *)
Inductive well_keyed : Json -> Prop :=
| wk_dict (fields : list (str * Json)) :
    NoDup (map fst fields) ->
    (forall k v, In (k, v) fields -> well_keyed v) ->
    well_keyed (JDict fields)
| wk_other (value : Json) :
    ConfigManager.is_dict value = false -> well_keyed value.

(** A configuration file in small. *)
Definition sample_config : Json :=
  JDict [ (lit "duplicate_detection",
           JDict [ (lit "enabled", JBool true); (lit "time_window", JInt 900) ]);
          (lit "scrobbling",
           JDict [ (lit "lastfm", JDict [ (lit "max_retries", JInt 5) ]) ]);
          (lit "version", JStr (lit "1.0")) ].
(** * Properties *)

(** ** Text builtins *)

#[local] Arguments Ascii.eqb : simpl never.

Ltac each_char c :=
  destruct c as [[|] [|] [|] [|] [|] [|] [|] [|]].

Lemma ascii_eqb_eq (a b : ascii) : Ascii.eqb a b = true <-> a = b.
Proof. apply Ascii.eqb_eq. Qed.

Lemma lower_char_idempotent (c : ascii) :
  Py.lower_char (Py.lower_char c) = Py.lower_char c.
Proof. each_char c; vm_compute; reflexivity. Qed.

Lemma lower_idempotent (s : str) : Py.lower (Py.lower s) = Py.lower s.
Proof.
  unfold Py.lower. rewrite map_map.
  apply map_ext. intro c. apply lower_char_idempotent.
Qed.

Lemma replace_single (a : ascii) (new s : str) :
  Py.replace [a] new s
  = flat_map (fun c => if Ascii.eqb a c then new else [c]) s.
Proof.
  unfold Py.replace.
  induction s as [|c r IH]; simpl; [reflexivity|].
  rewrite andb_true_r.
  destruct (Ascii.eqb a c); simpl; rewrite IH; reflexivity.
Qed.

Lemma replace_single_map (a b : ascii) (s : str) :
  Py.replace [a] [b] s = map (fun c => if Ascii.eqb a c then b else c) s.
Proof.
  rewrite replace_single.
  induction s as [|c r IH]; simpl; [reflexivity|].
  rewrite IH. destruct (Ascii.eqb a c); reflexivity.
Qed.

Lemma replace_double_nil : Py.replace double_space [char_space] [] = [].
Proof. reflexivity. Qed.

Lemma replace_double_hit (r : str) :
  Py.replace double_space [char_space] (char_space :: char_space :: r)
  = char_space :: Py.replace double_space [char_space] r.
Proof. reflexivity. Qed.

Lemma replace_double_miss (c : ascii) (r : str) :
  Ascii.eqb c char_space && starts_with_space r = false ->
  Py.replace double_space [char_space] (c :: r)
  = c :: Py.replace double_space [char_space] r.
Proof.
  intro H. unfold Py.replace, double_space. simpl.
  destruct r as [|c' r']; simpl in *.
  - rewrite andb_false_r. reflexivity.
  - rewrite (Ascii.eqb_sym char_space c), (Ascii.eqb_sym char_space c').
    rewrite andb_true_r. rewrite H. reflexivity.
Qed.

(** ** [squeeze] *)

Lemma squeeze_cons (c : ascii) (r : str) :
  squeeze (c :: r)
  = if Ascii.eqb c char_space && starts_with_space r
    then squeeze r else c :: squeeze r.
Proof.
  destruct r as [|c' r']; simpl.
  - rewrite andb_false_r. reflexivity.
  - reflexivity.
Qed.

Lemma starts_with_space_squeeze (s : str) :
  starts_with_space (squeeze s) = starts_with_space s.
Proof.
  induction s as [|c r IH]; [reflexivity|].
  rewrite squeeze_cons.
  change (starts_with_space (c :: r)) with (Ascii.eqb c char_space).
  destruct (Ascii.eqb c char_space) eqn:Ec;
    destruct (starts_with_space r) eqn:Er; simpl;
    rewrite ?IH, ?Er, ?Ec; reflexivity.
Qed.

Lemma squeeze_cons_congr (c : ascii) (a b : str) :
  squeeze a = squeeze b -> squeeze (c :: a) = squeeze (c :: b).
Proof.
  intro H. rewrite !squeeze_cons.
  rewrite <- (starts_with_space_squeeze a), <- (starts_with_space_squeeze b), H.
  reflexivity.
Qed.

Lemma squeeze_app_congr (p a b : str) :
  squeeze a = squeeze b -> squeeze (p ++ a) = squeeze (p ++ b).
Proof.
  intro H. induction p as [|c p IH]; simpl; [exact H|].
  apply squeeze_cons_congr. exact IH.
Qed.

Lemma squeeze_idempotent (s : str) : squeeze (squeeze s) = squeeze s.
Proof.
  induction s as [|c r IH]; [reflexivity|].
  rewrite squeeze_cons.
  destruct (Ascii.eqb c char_space && starts_with_space r) eqn:E.
  - exact IH.
  - rewrite squeeze_cons, starts_with_space_squeeze, E, IH. reflexivity.
Qed.

Lemma starts_with_space_snoc (y : ascii) (a : str) (c : ascii) :
  starts_with_space ((y :: a) ++ [c]) = starts_with_space (y :: a).
Proof. reflexivity. Qed.

Lemma starts_with_space_rev_cons (x y : ascii) (a : str) :
  starts_with_space (rev (x :: y :: a)) = starts_with_space (rev (y :: a)).
Proof.
  change (rev (x :: y :: a)) with (rev (y :: a) ++ [x]).
  destruct (rev (y :: a)) eqn:E; [|reflexivity].
  apply (f_equal (@length ascii)) in E.
  rewrite length_rev in E. discriminate.
Qed.

Lemma squeeze_snoc (a : str) (c : ascii) :
  squeeze (a ++ [c])
  = if Ascii.eqb c char_space && starts_with_space (rev a)
    then squeeze a else squeeze a ++ [c].
Proof.
  induction a as [|x a IH].
  - simpl. rewrite andb_false_r. reflexivity.
  - destruct a as [|y a'].
    + simpl. rewrite ?andb_false_r, ?andb_true_r.
      destruct (Ascii.eqb_spec x char_space) as [Hx|Hx];
        destruct (Ascii.eqb_spec c char_space) as [Hc|Hc];
        subst; reflexivity.
    + change ((x :: y :: a') ++ [c]) with (x :: ((y :: a') ++ [c])).
      rewrite (squeeze_cons x ((y :: a') ++ [c])), (squeeze_cons x (y :: a')).
      rewrite IH, starts_with_space_snoc, starts_with_space_rev_cons.
      destruct (Ascii.eqb x char_space && starts_with_space (y :: a'));
        destruct (Ascii.eqb c char_space && starts_with_space (rev (y :: a')));
        reflexivity.
Qed.

Lemma squeeze_rev (s : str) : squeeze (rev s) = rev (squeeze s).
Proof.
  induction s as [|c r IH]; [reflexivity|].
  change (rev (c :: r)) with (rev r ++ [c]).
  rewrite squeeze_snoc, (squeeze_cons c r), rev_involutive, IH.
  destruct (Ascii.eqb c char_space && starts_with_space r); reflexivity.
Qed.

Lemma squeeze_blank_run (n : nat) (s : str) :
  squeeze (repeat char_space (S n) ++ s) = squeeze (char_space :: s).
Proof.
  induction n as [|n IH]; [reflexivity|].
  change (repeat char_space (S (S n)) ++ s)
    with (char_space :: (repeat char_space (S n) ++ s)).
  rewrite squeeze_cons. simpl repeat at 1. simpl app at 1.
  simpl starts_with_space. rewrite Ascii.eqb_refl. simpl andb.
  exact IH.
Qed.

Lemma forallb_squeeze (p : ascii -> bool) (s : str) :
  forallb p s = true -> forallb p (squeeze s) = true.
Proof.
  induction s as [|c r IH]; [reflexivity|].
  intro H. simpl in H. apply andb_true_iff in H as [Hc Hr].
  rewrite squeeze_cons.
  destruct (Ascii.eqb c char_space && starts_with_space r).
  - auto.
  - simpl. rewrite Hc. auto.
Qed.

(** ** The double-space pass and the loop *)

Lemma contains_double_cons (c : ascii) (r : str) :
  Py.contains double_space (c :: r)
  = (Ascii.eqb c char_space && starts_with_space r)
    || Py.contains double_space r.
Proof.
  unfold double_space. simpl.
  destruct r as [|c' r']; simpl.
  - rewrite !andb_false_r. reflexivity.
  - rewrite (Ascii.eqb_sym char_space c), (Ascii.eqb_sym char_space c').
    rewrite andb_true_r. reflexivity.
Qed.

Lemma squeeze_fixed (s : str) :
  Py.contains double_space s = false -> squeeze s = s.
Proof.
  induction s as [|c r IH]; [reflexivity|].
  rewrite contains_double_cons. intro H.
  apply orb_false_iff in H as [H1 H2].
  rewrite squeeze_cons, H1, (IH H2). reflexivity.
Qed.

Lemma contains_double_squeeze (s : str) :
  Py.contains double_space (squeeze s) = false.
Proof.
  induction s as [|c r IH]; [reflexivity|].
  rewrite squeeze_cons.
  destruct (Ascii.eqb c char_space && starts_with_space r) eqn:E; [exact IH|].
  rewrite contains_double_cons, starts_with_space_squeeze, E, IH. reflexivity.
Qed.

(** The pass only shortens runs of spaces: any character-wise map that
    keeps the space sees the same text up to run lengths. *)
Lemma squeeze_map_replace_double (g : ascii -> ascii) (s : str) :
  g char_space = char_space ->
  squeeze (map g (Py.replace double_space [char_space] s)) = squeeze (map g s).
Proof.
  intro Hg.
  assert (H : forall n s, (length s <= n)%nat ->
            squeeze (map g (Py.replace double_space [char_space] s))
            = squeeze (map g s)).
  { clear s. induction n as [|n IH]; intros s Hn.
    - destruct s; [reflexivity|simpl in Hn; lia].
    - destruct s as [|c r]; [reflexivity|].
      destruct (Ascii.eqb c char_space && starts_with_space r) eqn:E.
      + apply andb_true_iff in E as [Ec Er].
        destruct r as [|c' r']; [discriminate|].
        simpl in Er. apply Ascii.eqb_eq in Ec, Er. subst c c'.
        rewrite replace_double_hit.
        change (map g (char_space :: char_space :: r'))
          with (g char_space :: g char_space :: map g r').
        change (map g (char_space :: Py.replace double_space [char_space] r'))
          with (g char_space :: map g (Py.replace double_space [char_space] r')).
        rewrite Hg.
        rewrite (squeeze_cons char_space (char_space :: map g r')).
        simpl starts_with_space. rewrite Ascii.eqb_refl. simpl andb.
        apply squeeze_cons_congr. apply IH. simpl in Hn. lia.
      + rewrite (replace_double_miss _ _ E).
        change (map g (c :: Py.replace double_space [char_space] r))
          with (g c :: map g (Py.replace double_space [char_space] r)).
        change (map g (c :: r)) with (g c :: map g r).
        apply squeeze_cons_congr. apply IH. simpl in Hn. lia. }
  apply (H (length s)). lia.
Qed.

Lemma squeeze_replace_double (s : str) :
  squeeze (Py.replace double_space [char_space] s) = squeeze s.
Proof.
  pose proof (squeeze_map_replace_double (fun c => c) s eq_refl) as H.
  rewrite !map_id in H. exact H.
Qed.

Lemma replace_double_length (s : str) :
  (length (Py.replace double_space [char_space] s) <= length s)%nat
  /\ (Py.contains double_space s = true ->
      (length (Py.replace double_space [char_space] s) < length s)%nat).
Proof.
  assert (H : forall n s, (length s <= n)%nat ->
            (length (Py.replace double_space [char_space] s) <= length s)%nat
            /\ (Py.contains double_space s = true ->
                (length (Py.replace double_space [char_space] s) < length s)%nat)).
  { clear s. induction n as [|n IH]; intros s Hn.
    - destruct s; [|simpl in Hn; lia]. split; [reflexivity|discriminate].
    - destruct s as [|c r]; [split; [reflexivity|discriminate]|].
      destruct (Ascii.eqb c char_space && starts_with_space r) eqn:E.
      + apply andb_true_iff in E as [Ec Er].
        destruct r as [|c' r']; [discriminate|].
        simpl in Er. apply Ascii.eqb_eq in Ec, Er. subst c c'.
        rewrite replace_double_hit.
        destruct (IH r') as [Hle _]; [simpl in Hn; lia|].
        simpl length in *. split; intros; lia.
      + rewrite (replace_double_miss _ _ E), contains_double_cons, E.
        destruct (IH r) as [Hle Hlt]; [simpl in Hn; lia|].
        simpl orb. simpl length. split; [lia|].
        intro Hc. specialize (Hlt Hc). lia. }
  apply (H (length s)). lia.
Qed.

(** With fuel for every character the loop leaves by its condition: the
    result is the text with every run of spaces collapsed. *)
Lemma collapse_loop_squeeze (fuel : nat) (s : str) :
  (length s <= fuel)%nat -> collapse_loop fuel s = squeeze s.
Proof.
  revert s. induction fuel as [|k IH]; intros s Hlen.
  - destruct s; [reflexivity|simpl in Hlen; lia].
  - simpl. destruct (Py.contains double_space s) eqn:E.
    + destruct (replace_double_length s) as [_ Hlt]. specialize (Hlt E).
      rewrite IH by lia. apply squeeze_replace_double.
    + symmetry. apply squeeze_fixed. exact E.
Qed.

Lemma collapse_loop_exits (s : str) :
  Py.contains double_space (collapse_loop (length s) s) = false.
Proof.
  rewrite collapse_loop_squeeze by lia. apply contains_double_squeeze.
Qed.

(** ** [strip] *)

Lemma lstrip_all (chars u : str) :
  forallb (fun c => Py.mem c chars) u = true -> Py.lstrip chars u = [].
Proof.
  induction u as [|c r IH]; [reflexivity|].
  simpl. intro H. apply andb_true_iff in H as [Hc Hr].
  rewrite Hc. auto.
Qed.

Lemma lstrip_app_edge (chars u s : str) :
  forallb (fun c => Py.mem c chars) u = true ->
  Py.lstrip chars (u ++ s) = Py.lstrip chars s.
Proof.
  induction u as [|c r IH]; [reflexivity|].
  simpl. intro H. apply andb_true_iff in H as [Hc Hr].
  rewrite Hc. auto.
Qed.

Lemma lstrip_app_inner (chars s u : str) :
  forallb (fun c => Py.mem c chars) s = false ->
  Py.lstrip chars (s ++ u) = Py.lstrip chars s ++ u.
Proof.
  induction s as [|c r IH]; [discriminate|].
  simpl. destruct (Py.mem c chars); simpl; auto.
Qed.

Lemma lstrip_idempotent (chars s : str) :
  Py.lstrip chars (Py.lstrip chars s) = Py.lstrip chars s.
Proof.
  induction s as [|c r IH]; [reflexivity|].
  simpl. destruct (Py.mem c chars) eqn:E; [exact IH|].
  simpl. rewrite E. reflexivity.
Qed.

Lemma forallb_lstrip (p : ascii -> bool) (chars s : str) :
  forallb p s = true -> forallb p (Py.lstrip chars s) = true.
Proof.
  induction s as [|c r IH]; [reflexivity|].
  simpl. intro H. destruct (Py.mem c chars); [|exact H].
  apply andb_true_iff in H as [_ Hr]. auto.
Qed.

Lemma forallb_rev (p : ascii -> bool) (s : str) :
  forallb p (rev s) = forallb p s.
Proof.
  induction s as [|c r IH]; [reflexivity|].
  simpl. rewrite forallb_app, IH. simpl.
  rewrite andb_true_r. apply andb_comm.
Qed.

Lemma forallb_strip (p : ascii -> bool) (chars s : str) :
  forallb p s = true -> forallb p (Py.strip chars s) = true.
Proof.
  intro H. unfold Py.strip, Py.rstrip.
  rewrite forallb_rev. apply forallb_lstrip.
  rewrite forallb_rev. apply forallb_lstrip. exact H.
Qed.

Lemma rstrip_app_edge (chars s u : str) :
  forallb (fun c => Py.mem c chars) u = true ->
  Py.rstrip chars (s ++ u) = Py.rstrip chars s.
Proof.
  intro H. unfold Py.rstrip. rewrite rev_app_distr.
  rewrite lstrip_app_edge; [reflexivity|].
  rewrite forallb_rev. exact H.
Qed.

Lemma strip_leading (chars u s : str) :
  forallb (fun c => Py.mem c chars) u = true ->
  Py.strip chars (u ++ s) = Py.strip chars s.
Proof.
  intro H. unfold Py.strip. rewrite lstrip_app_edge by exact H. reflexivity.
Qed.

Lemma strip_trailing (chars s u : str) :
  forallb (fun c => Py.mem c chars) u = true ->
  Py.strip chars (s ++ u) = Py.strip chars s.
Proof.
  intro H. unfold Py.strip.
  destruct (forallb (fun c => Py.mem c chars) s) eqn:Es.
  - rewrite (lstrip_all chars s Es).
    rewrite lstrip_all; [reflexivity|].
    rewrite forallb_app, Es, H. reflexivity.
  - rewrite lstrip_app_inner by exact Es.
    apply rstrip_app_edge. exact H.
Qed.

(** [lstrip] keeps a suffix; what it drops are edge characters. *)
Lemma lstrip_split (chars s : str) :
  exists u, s = u ++ Py.lstrip chars s
            /\ forallb (fun c => Py.mem c chars) u = true.
Proof.
  induction s as [|c r [u [Hu Hall]]].
  - exists []. split; reflexivity.
  - simpl. destruct (Py.mem c chars) eqn:E.
    + exists (c :: u). split; [simpl; f_equal; exact Hu|].
      simpl. rewrite E, Hall. reflexivity.
    + exists []. split; reflexivity.
Qed.

Lemma head_kept_lstrip (chars s : str) : head_kept chars (Py.lstrip chars s) = true.
Proof.
  induction s as [|c r IH]; [reflexivity|].
  simpl. destruct (Py.mem c chars) eqn:E; [exact IH|].
  simpl. rewrite E. reflexivity.
Qed.

Lemma lstrip_fixed (chars s : str) :
  head_kept chars s = true -> Py.lstrip chars s = s.
Proof.
  destruct s as [|c r]; [reflexivity|].
  simpl. intro H. apply negb_true_iff in H. rewrite H. reflexivity.
Qed.

Lemma head_kept_rstrip (chars s : str) :
  head_kept chars s = true -> head_kept chars (Py.rstrip chars s) = true.
Proof.
  intro H. unfold Py.rstrip.
  destruct (lstrip_split chars (rev s)) as [u [Hu Hall]].
  apply (f_equal (@rev ascii)) in Hu.
  rewrite rev_involutive, rev_app_distr in Hu.
  destruct (rev (Py.lstrip chars (rev s))) as [|c r]; [reflexivity|].
  rewrite Hu in H. exact H.
Qed.

Lemma strip_idempotent (chars s : str) :
  Py.strip chars (Py.strip chars s) = Py.strip chars s.
Proof.
  unfold Py.strip.
  rewrite (lstrip_fixed chars (Py.rstrip chars (Py.lstrip chars s))).
  - unfold Py.rstrip. rewrite rev_involutive, lstrip_idempotent. reflexivity.
  - apply head_kept_rstrip, head_kept_lstrip.
Qed.

Lemma lstrip_cons (chars : str) (c : ascii) (r : str) :
  Py.lstrip chars (c :: r)
  = if Py.mem c chars then Py.lstrip chars r else c :: r.
Proof. reflexivity. Qed.

Lemma space_is_edge_char : Py.mem char_space strip_chars = true.
Proof. reflexivity. Qed.

Lemma squeeze_lstrip (s : str) :
  squeeze (Py.lstrip strip_chars s) = Py.lstrip strip_chars (squeeze s).
Proof.
  induction s as [|c r IH]; [reflexivity|].
  rewrite squeeze_cons, lstrip_cons.
  destruct (Ascii.eqb c char_space) eqn:Ec.
  - apply Ascii.eqb_eq in Ec. subst c.
    rewrite space_is_edge_char.
    destruct (starts_with_space r); cbv beta iota delta [andb].
    + exact IH.
    + rewrite lstrip_cons, space_is_edge_char. exact IH.
  - cbv beta iota delta [andb].
    rewrite lstrip_cons.
    destruct (Py.mem c strip_chars) eqn:E; [exact IH|].
    rewrite squeeze_cons, Ec. reflexivity.
Qed.

Lemma squeeze_strip (s : str) :
  squeeze (Py.strip strip_chars s) = Py.strip strip_chars (squeeze s).
Proof.
  unfold Py.strip, Py.rstrip.
  rewrite squeeze_rev, squeeze_lstrip, squeeze_rev, squeeze_lstrip.
  reflexivity.
Qed.

(** ** The normal form of [_normalize_string] *)

Lemma apply_replacements_unfold (y : str) :
  apply_replacements y
  = map blank_to_space
        (Py.replace double_space [char_space]
           (flat_map (word_for "+"%char) (flat_map (word_for "&"%char) y))).
Proof.
  unfold apply_replacements, replacements. simpl fold_left.
  rewrite !replace_single_map, !map_map.
  change (lit "&") with ["&"%char]. change (lit "+") with ["+"%char].
  rewrite !replace_single. reflexivity.
Qed.

Lemma fold_char_pointwise (c : ascii) :
  map blank_to_space (flat_map (word_for "+"%char) (word_for "&"%char c))
  = fold_char c.
Proof. each_char c; vm_compute; reflexivity. Qed.

Lemma fold_char_flat_map (y : str) :
  map blank_to_space
      (flat_map (word_for "+"%char) (flat_map (word_for "&"%char) y))
  = flat_map fold_char y.
Proof.
  induction y as [|c r IH]; [reflexivity|].
  simpl flat_map. rewrite flat_map_app, map_app, IH, fold_char_pointwise.
  reflexivity.
Qed.

Lemma normalize_canonical (s : str) : _normalize_string s = canonical s.
Proof.
  unfold _normalize_string, canonical.
  destruct s as [|c r]; [reflexivity|].
  simpl negb. cbv beta iota.
  rewrite collapse_loop_squeeze by lia.
  rewrite apply_replacements_unfold.
  rewrite !squeeze_strip.
  rewrite squeeze_map_replace_double by reflexivity.
  rewrite fold_char_flat_map. reflexivity.
Qed.

Lemma settled_fold_lower (c : ascii) :
  forallb settled (fold_char (Py.lower_char c)) = true.
Proof. each_char c; vm_compute; reflexivity. Qed.

Lemma settled_flat_map (s : str) :
  forallb settled (flat_map fold_char (Py.lower s)) = true.
Proof.
  induction s as [|c r IH]; [reflexivity|].
  simpl. rewrite forallb_app, settled_fold_lower, IH. reflexivity.
Qed.

Lemma settled_fixed (s : str) :
  forallb settled s = true ->
  flat_map fold_char (Py.lower s) = s.
Proof.
  induction s as [|c r IH]; [reflexivity|].
  simpl. intro H. apply andb_true_iff in H as [Hc Hr].
  unfold settled in Hc. apply andb_true_iff in Hc as [H1 H2].
  apply Ascii.eqb_eq in H1.
  unfold str_eqb in H2.
  destruct (list_eq_dec ascii_dec (fold_char c) [c]) as [E|]; [|discriminate].
  rewrite H1, E. simpl. f_equal. apply IH. exact Hr.
Qed.

Lemma canonical_settled (s : str) : forallb settled (canonical s) = true.
Proof.
  unfold canonical. apply forallb_squeeze, forallb_strip, settled_flat_map.
Qed.

Lemma canonical_idempotent (s : str) : canonical (canonical s) = canonical s.
Proof.
  unfold canonical at 1.
  rewrite (settled_fixed _ (canonical_settled s)).
  unfold canonical.
  rewrite <- squeeze_strip, strip_idempotent.
  apply squeeze_idempotent.
Qed.

(** C7. Normalisation is idempotent: normalising an already normalised
    text changes nothing, for every input text. *)
Theorem normalize_idempotent (x : str) :
  _normalize_string (_normalize_string x) = _normalize_string x.
Proof.
  rewrite !normalize_canonical. apply canonical_idempotent.
Qed.

(** ** Variations that normalisation absorbs *)

Lemma folded_app (a b : str) : folded (a ++ b) = folded a ++ folded b.
Proof. unfold folded, Py.lower. rewrite map_app, flat_map_app. reflexivity. Qed.

Lemma folded_blank_char (c : ascii) :
  is_blank c = true -> fold_char (Py.lower_char c) = [char_space].
Proof. each_char c; vm_compute; intro H; try reflexivity; discriminate H. Qed.

Lemma folded_blank_run (r : str) :
  forallb is_blank r = true -> folded r = repeat char_space (length r).
Proof.
  induction r as [|c r IH]; [reflexivity|].
  simpl forallb. intro H. apply andb_true_iff in H as [Hc Hr].
  unfold folded in *. simpl. rewrite (folded_blank_char c Hc), (IH Hr).
  reflexivity.
Qed.

Lemma folded_edge_char (c : ascii) :
  is_edge_char c = true ->
  forallb is_edge_char (fold_char (Py.lower_char c)) = true.
Proof. each_char c; vm_compute; intro H; try reflexivity; discriminate H. Qed.

Lemma folded_edge (e : str) :
  forallb is_edge_char e = true -> forallb is_edge_char (folded e) = true.
Proof.
  induction e as [|c r IH]; [reflexivity|].
  simpl forallb. intro H. apply andb_true_iff in H as [Hc Hr].
  unfold folded in *. simpl.
  rewrite forallb_app, (folded_edge_char c Hc), (IH Hr). reflexivity.
Qed.

Lemma squeeze_runs (a b : str) (n m : nat) :
  squeeze (a ++ repeat char_space (S n) ++ b)
  = squeeze (a ++ repeat char_space (S m) ++ b).
Proof.
  apply squeeze_app_congr. rewrite !squeeze_blank_run. reflexivity.
Qed.

Lemma canonical_variation (p u v q : str) :
  variation u v -> canonical (p ++ u ++ q) = canonical (p ++ v ++ q).
Proof.
  intro H. unfold canonical. fold (folded (p ++ u ++ q)) (folded (p ++ v ++ q)).
  rewrite !folded_app.
  destruct H as [c | | | r r' Hr Hr' Hb Hb'].
  - unfold folded at 2 5. simpl Py.lower.
    rewrite lower_char_idempotent. reflexivity.
  - reflexivity.
  - reflexivity.
  - rewrite (folded_blank_run r Hb), (folded_blank_run r' Hb').
    destruct r as [|c r]; [contradiction|].
    destruct r' as [|c' r']; [contradiction|].
    rewrite !squeeze_strip. f_equal. apply squeeze_runs.
Qed.

Lemma canonical_leading (e s : str) :
  forallb is_edge_char e = true -> canonical (e ++ s) = canonical s.
Proof.
  intro H. unfold canonical. fold (folded (e ++ s)) (folded s).
  rewrite folded_app, strip_leading; [reflexivity|].
  apply folded_edge. exact H.
Qed.

Lemma canonical_trailing (e s : str) :
  forallb is_edge_char e = true -> canonical (s ++ e) = canonical s.
Proof.
  intro H. unfold canonical. fold (folded (s ++ e)) (folded s).
  rewrite folded_app, strip_trailing; [reflexivity|].
  apply folded_edge. exact H.
Qed.

Lemma normalize_variations (s t : str) :
  differ_only_by_variations s t -> _normalize_string s = _normalize_string t.
Proof.
  intro H. rewrite !normalize_canonical.
  induction H as [s | s t _ IH | s t u _ IH1 _ IH2 | p u v q Hv | e s He | e s He].
  - reflexivity.
  - symmetry. exact IH.
  - rewrite IH1. exact IH2.
  - apply canonical_variation. exact Hv.
  - apply canonical_leading. exact He.
  - apply canonical_trailing. exact He.
Qed.

Section Fingerprint.
Context {hashlib : Hashlib}.

(** C8. Two recognition results whose artist, title and album differ only
    by letter case, by the ampersand, the plus sign or the word standing
    for one another, by the length and make-up of runs of blanks, or by
    edge characters at either end, and whose durations are the same, have
    equal fingerprints. *)
Theorem fingerprint_invariant (r1 r2 : RecognitionResult.t) :
  differ_only_by_variations
    (Py.or_empty (RecognitionResult.artist r1))
    (Py.or_empty (RecognitionResult.artist r2)) ->
  differ_only_by_variations
    (Py.or_empty (RecognitionResult.title r1))
    (Py.or_empty (RecognitionResult.title r2)) ->
  differ_only_by_variations
    (Py.or_empty (RecognitionResult.album r1))
    (Py.or_empty (RecognitionResult.album r2)) ->
  RecognitionResult.duration r1 = RecognitionResult.duration r2 ->
  DuplicateDetector._create_fingerprint r1
  = DuplicateDetector._create_fingerprint r2.
Proof.
  intros Ha Ht Hb Hd. unfold DuplicateDetector._create_fingerprint.
  rewrite (normalize_variations _ _ Ha), (normalize_variations _ _ Ht),
          (normalize_variations _ _ Hb), Hd.
  reflexivity.
Qed.

End Fingerprint.

Lemma fingerprint_invariant_witness :
  @DuplicateDetector._create_fingerprint plain_hash
     (result_of "Simon & Garfunkel" "Cecilia" (Some 175))
  = @DuplicateDetector._create_fingerprint plain_hash
     (result_of "Simon + Garfunkel" "Cecilia!" (Some 175)).
Proof.
  apply (@fingerprint_invariant plain_hash).
  - exact (dv_inside (lit "Simon ") _ _ (lit " Garfunkel") var_amp_plus).
  - apply dv_sym. exact (dv_trailing (lit "!") (lit "Cecilia") eq_refl).
  - apply dv_refl.
  - reflexivity.
Defined.

Section Fingerprint0.
Context {hashlib : Hashlib}.

Lemma fingerprint_zero_duration (r : RecognitionResult.t) :
  RecognitionResult.duration r = Some 0 ->
  DuplicateDetector._create_fingerprint r
  = DuplicateDetector._create_fingerprint
      (RecognitionResult.mk
         (RecognitionResult.success r) (RecognitionResult.confidence r)
         (RecognitionResult.artist r) (RecognitionResult.title r)
         (RecognitionResult.album r) None
         (RecognitionResult.provider r) (RecognitionResult.metadata r)).
Proof.
  intro H. unfold DuplicateDetector._create_fingerprint. rewrite H. reflexivity.
Qed.

End Fingerprint0.

(** ** The duplicate check *)

Section Detector.
Context {hashlib : Hashlib} {difflib : Difflib}.

(** C9. When the detector is disabled, or the result is unsuccessful, or
    its artist or title is empty, [is_duplicate] returns a non-duplicate
    check without a fingerprint and leaves the world as it was: no store
    call is made and the clock is not read. *)
Theorem is_duplicate_not_cacheable
  (self : DuplicateDetector.t) (r : RecognitionResult.t) (w : World) :
  DuplicateDetector.enabled self = false
  \/ RecognitionResult.success r = false
  \/ Py.truthy_opt (RecognitionResult.artist r) = false
  \/ Py.truthy_opt (RecognitionResult.title r) = false ->
  DuplicateDetector.is_duplicate self r w
  = Returned (DuplicateCheck.mk false 0%float None None None) w.
Proof.
  intros H. unfold DuplicateDetector.is_duplicate.
  destruct (DuplicateDetector.enabled self); [|reflexivity].
  destruct H as [H | [H | [H | H]]]; [discriminate | | | ];
    rewrite H; simpl; rewrite ?orb_true_r; reflexivity.
Qed.

End Detector.

(** C1. A store failure during the duplicate check is not turned into a
    non-duplicate answer: whether the fingerprint lookup fails or the scan
    of the recent history does, [is_duplicate] raises the store's error to
    its caller. *)
Theorem is_duplicate_store_error_propagates :
  raised_with
    (@DuplicateDetector.is_duplicate plain_hash exact_ratio default_detector
       (result_of "Artist" "Song" (Some 180))
       (world_with empty_store (only_at 0) always_accepted))
  = Some DatabaseError
  /\ raised_with
       (@DuplicateDetector.is_duplicate plain_hash exact_ratio default_detector
          (result_of "Artist" "Song" (Some 180))
          (world_with empty_store (only_at 2) always_accepted))
     = Some DatabaseError.
Proof. split; vm_compute; reflexivity. Qed.

Lemma str_eqb_refl (s : str) : str_eqb s s = true.
Proof. unfold str_eqb. destruct (list_eq_dec ascii_dec s s); congruence. Qed.

Lemma str_eqb_eq (a b : str) : str_eqb a b = true <-> a = b.
Proof.
  unfold str_eqb. destruct (list_eq_dec ascii_dec a b); split; congruence.
Qed.

Lemma find_after_replace {A} (p q : A -> bool) (l : list A) (x : A) :
  (forall y, p y = true -> q y = true) ->
  p x = true ->
  find p (filter (fun y => negb (q y)) l ++ [x]) = Some x.
Proof.
  intros Hpq Hx. induction l as [|y l IH]; simpl.
  - rewrite Hx. reflexivity.
  - destruct (q y) eqn:Eq; simpl; [exact IH|].
    destruct (p y) eqn:Ep; [|exact IH].
    rewrite (Hpq y Ep) in Eq. discriminate.
Qed.

(** Unfold one layer of the computation and the record updates. *)
Ltac step_world :=
  unfold bind, ret, raise, try_except, modify, get, time_now, connect,
         set_store, set_store_log, set_sink_log, set_clock_reads, set_stats,
         set_scrobble_queue;
  cbn [clock clock_reads store_fault store_log sink_reply sink_log store stats
       scrobble_queue queue_seq scrobble_history history_seq
       duplicate_cache cache_seq world_of value_of].

Section Detector2.
Context {hashlib : Hashlib} {difflib : Difflib}.

Lemma add_track_true_inv (self : DuplicateDetector.t) (r : RecognitionResult.t) (w : World) :
  value_of (DuplicateDetector.add_track self r w) = Some true ->
  DuplicateDetector.enabled self = true
  /\ RecognitionResult.success r = true
  /\ store_fault w (length (store_log w)) = false.
Proof.
  unfold DuplicateDetector.add_track.
  destruct (DuplicateDetector.enabled self); [|discriminate].
  destruct (RecognitionResult.success r); [|discriminate].
  unfold DatabaseManager.add_duplicate_entry. cbn [negb orb]. step_world.
  destruct (store_fault w (length (store_log w))); [discriminate|].
  auto.
Qed.

(** C4. After [add_track] has inserted the fingerprint of a successful
    result with artist and title, a check of the same result finds the
    stored record, provided the store answers and the record has not
    expired when the lookup reads the clock: the check is a duplicate with
    confidence 1.0, the time since the record's timestamp, the stored
    artist and title, and the fingerprint. *)
Theorem check_after_add_is_duplicate
  (self : DuplicateDetector.t) (r : RecognitionResult.t) (w : World) :
  Py.truthy_opt (RecognitionResult.artist r) = true ->
  Py.truthy_opt (RecognitionResult.title r) = true ->
  value_of (DuplicateDetector.add_track self r w) = Some true ->
  let w1 := world_of (DuplicateDetector.add_track self r w) in
  store_fault w1 (length (store_log w1)) = false ->
  clock w1 (clock_reads w1) < clock w (S (clock_reads w)) + DuplicateDetector.time_window self ->
  exists record,
    In record (duplicate_cache (store w1))
    /\ CacheRow.fingerprint record = DuplicateDetector._create_fingerprint r
    /\ CacheRow.artist record = Py.or_empty (RecognitionResult.artist r)
    /\ CacheRow.title record = Py.or_empty (RecognitionResult.title r)
    /\ CacheRow.timestamp record = clock w (clock_reads w)
    /\ CacheRow.expires_at record
       = clock w (S (clock_reads w)) + DuplicateDetector.time_window self
    /\ value_of (DuplicateDetector.is_duplicate self r w1)
       = Some (DuplicateCheck.mk true 1%float
                 (Some (clock w1 (S (clock_reads w1)) - CacheRow.timestamp record))
                 (Some (CacheRow.artist record, CacheRow.title record))
                 (Some (DuplicateDetector._create_fingerprint r))).
Proof.
  intros Ha Ht Hadd.
  destruct (add_track_true_inv self r w Hadd) as [He [Hs Hf]].
  clear Hadd.
  unfold DuplicateDetector.add_track, DuplicateDetector.is_duplicate.
  rewrite He, Hs, Ha, Ht. cbn [negb orb].
  unfold DatabaseManager.add_duplicate_entry, DatabaseManager.find_duplicate.
  destruct w as [clk n flt log rep slog [q qs h hs c cs] sts].
  step_world. cbn [clock clock_reads store_fault store_log] in Hf.
  rewrite Hf. step_world.
  intros Hf1 Hexp. rewrite Hf1. step_world.
  set (fp := DuplicateDetector._create_fingerprint r) in *.
  set (record := CacheRow.mk (cs + 1) fp
         (Py.or_empty (RecognitionResult.artist r))
         (Py.or_empty (RecognitionResult.title r))
         (clk n) (RecognitionResult.confidence r)
         (clk (S n) + DuplicateDetector.time_window self)).
  exists record.
  split; [apply in_or_app; right; left; reflexivity|].
  repeat (split; [reflexivity|]).
  rewrite (find_after_replace
             (fun row => str_eqb (CacheRow.fingerprint row) fp
                         && (clk (S (S n)) <? CacheRow.expires_at row))
             (fun row => str_eqb (CacheRow.fingerprint row) fp)).
  - reflexivity.
  - intros y Hy. apply andb_true_iff in Hy. tauto.
  - cbn [record CacheRow.fingerprint CacheRow.expires_at].
    rewrite str_eqb_refl. apply Z.ltb_lt. exact Hexp.
Qed.

End Detector2.

Lemma float_mul_comm (x y : float) : (x * y)%float = (y * x)%float.
Proof.
  apply Prim2SF_inj. rewrite !mul_spec.
  unfold SF64mul, SFmul.
  destruct (Prim2SF x) as [sx|sx| |sx mx ex], (Prim2SF y) as [sy|sy| |sy my ey];
    try reflexivity; rewrite (xorb_comm sx sy); try reflexivity.
  rewrite (Pos.mul_comm mx my), (Z.add_comm ex ey). reflexivity.
Qed.

(** ** Ordered reads *)

Lemma insert_by_forall {A} (key : A -> Z) (P : A -> Prop) (x : A) (l : list A) :
  P x -> Forall P l -> Forall P (DatabaseManager.insert_by key x l).
Proof.
  intros Hx Hl. induction Hl as [|y l Hy Hl IH]; simpl.
  - constructor; [exact Hx|constructor].
  - destruct (key y <=? key x); constructor; auto.
Qed.

Lemma insert_by_sorted {A} (key : A -> Z) (x : A) (l : list A) :
  StronglySorted (fun a b => key a <= key b) l ->
  StronglySorted (fun a b => key a <= key b) (DatabaseManager.insert_by key x l).
Proof.
  intro H. induction H as [|y l Hs IH Hy]; simpl.
  - constructor; constructor.
  - destruct (key y <=? key x) eqn:E.
    + constructor; [exact IH|].
      apply insert_by_forall; [apply Z.leb_le; exact E|exact Hy].
    + apply Z.leb_gt in E. constructor.
      * constructor; assumption.
      * constructor; [lia|].
        eapply Forall_impl; [|exact Hy]. intros a Ha. simpl in Ha. lia.
Qed.

Lemma order_by_sorted {A} (key : A -> Z) (rows : list A) :
  StronglySorted (fun a b => key a <= key b) (DatabaseManager.order_by key rows).
Proof.
  unfold DatabaseManager.order_by.
  assert (H : forall acc,
             StronglySorted (fun a b => key a <= key b) acc ->
             StronglySorted (fun a b => key a <= key b)
               (fold_left (fun sorted x => DatabaseManager.insert_by key x sorted)
                          rows acc)).
  { induction rows as [|x rows IH]; intros acc Hacc; simpl; [exact Hacc|].
    apply IH, insert_by_sorted, Hacc. }
  apply H. constructor.
Qed.

Lemma firstn_sorted {A} (R : A -> A -> Prop) (n : nat) (l : list A) :
  StronglySorted R l -> StronglySorted R (firstn n l).
Proof.
  intro H. revert n. induction H as [|x l Hs IH Hx]; intro n.
  - rewrite firstn_nil. constructor.
  - destruct n as [|n]; simpl; [constructor|].
    constructor; [apply IH|].
    apply Forall_forall. intros y Hy.
    rewrite Forall_forall in Hx. apply Hx.
    revert Hy. clear. revert n. induction l as [|z l IHl]; intros n Hy.
    + rewrite firstn_nil in Hy. exact Hy.
    + destruct n; simpl in Hy; [contradiction|].
      destruct Hy as [->|Hy]; [left; reflexivity|right; eauto].
Qed.

Section Fuzzy.
Context {hashlib : Hashlib} {difflib : Difflib}.

Lemma calculate_similarity_weights (artist1 title1 artist2 title2 : option str) :
  DuplicateDetector._calculate_similarity artist1 title1 artist2 title2
  = (0.7 * sequence_ratio (_normalize_string (Py.or_empty title1))
                          (_normalize_string (Py.or_empty title2))
     + 0.3 * sequence_ratio (_normalize_string (Py.or_empty artist1))
                            (_normalize_string (Py.or_empty artist2)))%float.
Proof.
  unfold DuplicateDetector._calculate_similarity.
  rewrite (float_mul_comm 0.7), (float_mul_comm 0.3). reflexivity.
Qed.

Lemma scan_recent_first (self : DuplicateDetector.t) (r : RecognitionResult.t)
      (fingerprint : str) (current_time cutoff_time : Z)
      (rows : list HistoryRow.t) :
  DuplicateDetector.scan_recent self r fingerprint current_time cutoff_time rows
  = match find (qualifies self r cutoff_time) rows with
    | Some row =>
        DuplicateCheck.mk true (similarity_to r row)
          (Some (current_time - HistoryRow.scrobbled_at row))
          (Some (HistoryRow.artist row, HistoryRow.title row))
          (Some fingerprint)
    | None => DuplicateCheck.mk false 0%float None None (Some fingerprint)
    end.
Proof.
  induction rows as [|row rest IH]; [reflexivity|].
  simpl. unfold qualifies at 1.
  destruct (HistoryRow.scrobbled_at row <? cutoff_time); [exact IH|].
  cbn [negb andb]. fold (similarity_to r row).
  destruct (PrimFloat.leb (DuplicateDetector.similarity_threshold self)
                          (similarity_to r row)); [reflexivity|exact IH].
Qed.

Lemma recent_history_sorted (w : World) :
  StronglySorted
    (fun a b => HistoryRow.scrobbled_at b <= HistoryRow.scrobbled_at a)
    (recent_history w).
Proof.
  unfold recent_history. apply firstn_sorted.
  eapply StronglySorted_ind
    with (P := fun l => StronglySorted
                 (fun a b => HistoryRow.scrobbled_at b <= HistoryRow.scrobbled_at a) l);
    [constructor| |apply (order_by_sorted (fun row => - HistoryRow.scrobbled_at row))].
  intros a l _ Hl Ha. constructor; [exact Hl|].
  eapply Forall_impl; [|exact Ha]. intros b Hb. simpl in Hb. lia.
Qed.

(** C3. With no unexpired record for the fingerprint, the check scans the
    recent history, most recent first, and answers with the first row that
    is inside the time window and whose similarity reaches the threshold:
    a duplicate with that similarity as confidence; rows after it play no
    part.  With no such row the answer is a non-duplicate carrying the
    fingerprint.  The similarity is 0.7 times the title ratio plus 0.3
    times the artist ratio, both taken on normalised text. *)
Theorem fuzzy_check_first_match
  (self : DuplicateDetector.t) (r : RecognitionResult.t) (w : World) :
  DuplicateDetector.enabled self = true ->
  RecognitionResult.success r = true ->
  Py.truthy_opt (RecognitionResult.artist r) = true ->
  Py.truthy_opt (RecognitionResult.title r) = true ->
  (forall k, (k < 3)%nat -> store_fault w (length (store_log w) + k) = false) ->
  (forall record, In record (duplicate_cache (store w)) ->
     CacheRow.fingerprint record = DuplicateDetector._create_fingerprint r ->
     CacheRow.expires_at record <= clock w (clock_reads w)) ->
  let fingerprint := DuplicateDetector._create_fingerprint r in
  let current_time := clock w (S (clock_reads w)) in
  let cutoff_time := current_time - DuplicateDetector.time_window self in
  value_of (DuplicateDetector.is_duplicate self r w)
  = Some
      match find (qualifies self r cutoff_time) (recent_history w) with
      | Some row =>
          DuplicateCheck.mk true (similarity_to r row)
            (Some (current_time - HistoryRow.scrobbled_at row))
            (Some (HistoryRow.artist row, HistoryRow.title row))
            (Some fingerprint)
      | None => DuplicateCheck.mk false 0%float None None (Some fingerprint)
      end
  /\ StronglySorted
       (fun a b => HistoryRow.scrobbled_at b <= HistoryRow.scrobbled_at a)
       (recent_history w)
  /\ (forall row,
        similarity_to r row
        = (0.7 * sequence_ratio
                   (_normalize_string (Py.or_empty (RecognitionResult.title r)))
                   (_normalize_string (HistoryRow.title row))
           + 0.3 * sequence_ratio
                     (_normalize_string (Py.or_empty (RecognitionResult.artist r)))
                     (_normalize_string (HistoryRow.artist row)))%float).
Proof.
  intros He Hs Ha Ht Hf Hmiss fingerprint current_time cutoff_time.
  split; [|split; [apply recent_history_sorted|]].
  - unfold DuplicateDetector.is_duplicate.
    rewrite He, Hs, Ha, Ht. cbn [negb orb].
    unfold DatabaseManager.find_duplicate.
    assert (Hnone :
      find (fun row => str_eqb (CacheRow.fingerprint row) fingerprint
                       && (clock w (clock_reads w) <? CacheRow.expires_at row))
           (duplicate_cache (store w)) = None).
    { destruct (find _ _) as [row|] eqn:E; [|reflexivity].
      apply find_some in E as [Hin Hrow].
      apply andb_true_iff in Hrow as [Hfp Hexp].
      apply str_eqb_eq in Hfp. apply Z.ltb_lt in Hexp.
      specialize (Hmiss row Hin Hfp). lia. }
    pose proof (Hf 0%nat ltac:(lia)) as H0.
    pose proof (Hf 1%nat ltac:(lia)) as H1.
    pose proof (Hf 2%nat ltac:(lia)) as H2.
    rewrite Nat.add_0_r in H0.
    unfold DuplicateDetector._check_similar_tracks,
      DatabaseManager.get_recent_stats, DatabaseManager.get_recent_scrobbles.
    unfold recent_history, current_time, cutoff_time.
    destruct w as [clk n flt log rep slog [q qs h hs c cs] sts].
    step_world. cbn [clock clock_reads store_fault store_log store duplicate_cache] in *.
    unfold fingerprint in *. rewrite H0. step_world. rewrite Hnone. cbn [option_map]. step_world.
    rewrite !length_app. cbn [length].
    rewrite H1. step_world.
    rewrite !length_app. cbn [length].
    replace (length log + 1 + 1)%nat with (length log + 2)%nat by lia.
    rewrite H2. step_world.
    rewrite scan_recent_first. reflexivity.
  - intro row. unfold similarity_to.
    rewrite calculate_similarity_weights. reflexivity.
Qed.

End Fuzzy.

(** ** The delivery queue *)

Lemma order_by_snoc {A} (key : A -> Z) (rows : list A) (x : A) :
  DatabaseManager.order_by key (rows ++ [x])
  = DatabaseManager.insert_by key x (DatabaseManager.order_by key rows).
Proof. unfold DatabaseManager.order_by. rewrite fold_left_app. reflexivity. Qed.

Lemma insert_by_last {A} (key : A -> Z) (x : A) (l : list A) :
  Forall (fun y => key y <= key x) l ->
  DatabaseManager.insert_by key x l = l ++ [x].
Proof.
  intro H. induction H as [|y l Hy _ IH]; [reflexivity|].
  simpl. apply Z.leb_le in Hy. rewrite Hy, IH. reflexivity.
Qed.

Lemma insert_by_in {A} (key : A -> Z) (x y : A) (l : list A) :
  In y (DatabaseManager.insert_by key x l) <-> y = x \/ In y l.
Proof.
  induction l as [|z l IH]; simpl.
  - intuition auto.
  - destruct (key z <=? key x); simpl; rewrite ?IH; intuition auto.
Qed.

Lemma order_by_in {A} (key : A -> Z) (y : A) (rows : list A) :
  In y (DatabaseManager.order_by key rows) <-> In y rows.
Proof.
  induction rows as [|x rows IH] using rev_ind; [reflexivity|].
  rewrite order_by_snoc, insert_by_in, in_app_iff, IH. simpl. intuition auto.
Qed.

(** C5. When the queue holds [max_queue_size] entries or more,
    [queue_scrobble] answers [False] and the store is left as it was: no
    entry is evicted, none is added.  Below the limit, a successful result
    with artist and title is persisted as a new row with no retries; read
    back in creation order, it comes after every row created no later
    than it, and the rows already queued keep their order. *)
Theorem queue_scrobble_bounded
  (self : LastFMScrobbler.t) (r : RecognitionResult.t)
  (timestamp : option Z) (w : World) :
  (forall k, (k < 2)%nat -> store_fault w (length (store_log w) + k) = false) ->
  let size := Z.of_nat (length (scrobble_queue (store w))) in
  let after := LastFMScrobbler.queue_scrobble self r timestamp w in
  (LastFMScrobbler.max_queue_size self <= size ->
   value_of after = Some false /\ store (world_of after) = store w)
  /\ (size < LastFMScrobbler.max_queue_size self ->
      RecognitionResult.success r = true ->
      Py.truthy_opt (RecognitionResult.artist r) = true ->
      Py.truthy_opt (RecognitionResult.title r) = true ->
      exists row,
        value_of after = Some true
        /\ scrobble_queue (store (world_of after))
           = scrobble_queue (store w) ++ [row]
        /\ QueueRow.artist row = Py.or_empty (RecognitionResult.artist r)
        /\ QueueRow.title row = Py.or_empty (RecognitionResult.title r)
        /\ QueueRow.retry_count row = 0
        /\ QueueRow.created_at row
           = clock w (Nat.pred (clock_reads (world_of after)))
        /\ DatabaseManager.order_by QueueRow.created_at
             (scrobble_queue (store (world_of after)))
           = DatabaseManager.insert_by QueueRow.created_at row
               (DatabaseManager.order_by QueueRow.created_at
                  (scrobble_queue (store w)))
        /\ (Forall (fun queued => QueueRow.created_at queued
                                  <= QueueRow.created_at row)
                   (scrobble_queue (store w)) ->
            DatabaseManager.order_by QueueRow.created_at
              (scrobble_queue (store (world_of after)))
            = DatabaseManager.order_by QueueRow.created_at
                (scrobble_queue (store w)) ++ [row])).
Proof.
  intros Hf size after.
  pose proof (Hf 0%nat ltac:(lia)) as H0.
  pose proof (Hf 1%nat ltac:(lia)) as H1.
  rewrite Nat.add_0_r in H0.
  subst size after. unfold LastFMScrobbler.queue_scrobble,
    DatabaseManager.get_queue_size, DatabaseManager.add_to_scrobble_queue,
    LastFMScrobbler.or_time_now.
  destruct w as [clk n flt log rep slog [q qs h hs c cs] sts].
  cbn [clock clock_reads store_fault store_log store scrobble_queue] in *.
  split.
  - intro Hfull. apply Z.leb_le in Hfull.
    destruct (RecognitionResult.success r); [|split; reflexivity].
    destruct (Py.truthy_opt (RecognitionResult.artist r));
      [|split; reflexivity].
    destruct (Py.truthy_opt (RecognitionResult.title r));
      [|split; reflexivity].
    cbn [negb orb]. step_world. rewrite H0. step_world.
    rewrite Hfull. split; reflexivity.
  - intros Hroom Hs Ha Ht. apply Z.leb_gt in Hroom.
    rewrite Hs, Ha, Ht. cbn [negb orb]. step_world. rewrite H0. step_world.
    rewrite Hroom.
    assert (Hlen : length (log ++ [CallGetQueueSize]) = (length log + 1)%nat)
      by (rewrite length_app; reflexivity).
    destruct timestamp as [t|]; [destruct (t =? 0)|];
      step_world; cbn [ScrobbleEntry.created_at ScrobbleEntry.timestamp];
      step_world; rewrite Hlen, H1; step_world;
      eexists; (split; [reflexivity|]); (split; [reflexivity|]);
      (repeat (split; [reflexivity|]));
      (split; [apply order_by_snoc|]);
      intro Hall; rewrite order_by_snoc; apply insert_by_last;
      apply Forall_forall; intros y Hy; apply order_by_in in Hy;
      rewrite Forall_forall in Hall; apply (Hall y Hy).
Qed.

Lemma attempt_fails_validation
  (self : LastFMScrobbler.t) (entry : ScrobbleEntry.t) (w : World) :
  fails_validation self entry = true ->
  exists message,
    LastFMScrobbler._attempt_scrobble self entry w
    = Returned (ScrobbleResult.mk false None (Some message) false) w.
Proof.
  unfold fails_validation, LastFMScrobbler._attempt_scrobble. intro H.
  destruct (negb (Py.truthy (ScrobbleEntry.artist entry))
            || negb (Py.truthy (ScrobbleEntry.title entry))) eqn:E.
  - eexists. step_world. reflexivity.
  - simpl in H. rewrite H. eexists. step_world. reflexivity.
Qed.

Lemma remove_reliable (entry_id : option Z) (w : World) :
  store_fault w (length (store_log w)) = false ->
  exists w',
    DatabaseManager.remove_from_scrobble_queue entry_id w
    = Returned (existsb (fun row => DatabaseManager.id_is entry_id (QueueRow.id row))
                        (scrobble_queue (store w))) w'
    /\ scrobble_queue (store w')
       = filter (fun row => negb (DatabaseManager.id_is entry_id (QueueRow.id row)))
                (scrobble_queue (store w))
    /\ store_fault w' = store_fault w
    /\ store_log w' = store_log w ++ [CallRemoveFromScrobbleQueue entry_id]
    /\ sink_reply w' = sink_reply w
    /\ sink_log w' = sink_log w
    /\ clock w' = clock w /\ clock_reads w' = clock_reads w
    /\ stats w' = stats w.
Proof.
  intro Hf. unfold DatabaseManager.remove_from_scrobble_queue.
  destruct w as [clk n flt log rep slog [q qs h hs c cs] sts].
  cbn [store_fault store_log] in Hf. step_world. rewrite Hf. step_world.
  eexists. split; [reflexivity|]. repeat split.
Qed.

Lemma increment_reliable (entry_id : option Z) (w : World) :
  store_fault w (length (store_log w)) = false ->
  exists w',
    DatabaseManager.increment_retry_count entry_id w
    = Returned (existsb (fun row => DatabaseManager.id_is entry_id (QueueRow.id row))
                        (scrobble_queue (store w))) w'
    /\ scrobble_queue (store w')
       = map (fun row => if DatabaseManager.id_is entry_id (QueueRow.id row)
                         then DatabaseManager.bump row else row)
             (scrobble_queue (store w))
    /\ store_fault w' = store_fault w
    /\ store_log w' = store_log w ++ [CallIncrementRetryCount entry_id]
    /\ sink_reply w' = sink_reply w
    /\ sink_log w' = sink_log w
    /\ clock w' = clock w /\ clock_reads w' = clock_reads w
    /\ stats w' = stats w.
Proof.
  intro Hf. unfold DatabaseManager.increment_retry_count.
  destruct w as [clk n flt log rep slog [q qs h hs c cs] sts].
  cbn [store_fault store_log] in Hf. step_world. rewrite Hf. step_world.
  eexists. split; [reflexivity|]. repeat split.
Qed.

(** The loop body on an entry that fails validation: no sink call, the
    rows with its id leave the queue, whatever its retry count. *)
Lemma process_entry_fails_validation
  (self : LastFMScrobbler.t) (entry : ScrobbleEntry.t) (w : World) :
  fails_validation self entry = true ->
  store_fault w (length (store_log w)) = false ->
  exists w',
    LastFMScrobbler.process_entry self entry w = Returned tt w'
    /\ scrobble_queue (store w')
       = filter (fun row => negb (DatabaseManager.id_is (ScrobbleEntry.id entry)
                                                        (QueueRow.id row)))
                (scrobble_queue (store w))
    /\ sink_log w' = sink_log w
    /\ store_fault w' = store_fault w.
Proof.
  intros Hbad Hf. unfold LastFMScrobbler.process_entry.
  destruct (attempt_fails_validation self entry w Hbad) as [message Hatt].
  destruct (remove_reliable (ScrobbleEntry.id entry) w Hf)
    as [w1 [Hrem [Hq [Hflt [_ [_ [Hsink _]]]]]]].
  unfold try_except at 1. unfold bind at 1. rewrite Hatt.
  cbn [ScrobbleResult.success ScrobbleResult.should_retry andb].
  unfold bind at 1. rewrite Hrem.
  unfold LastFMScrobbler.count_failed, LastFMScrobbler.count_processed.
  destruct w1 as [clk n flt log rep slog [q qs h hs c cs] sts].
  step_world. eexists. split; [reflexivity|].
  cbn [store scrobble_queue sink_log store_fault] in *. auto.
Qed.

(** *** What every step of the drain loop keeps *)

Lemma later_refl (w : World) : later w w.
Proof. split; [reflexivity|apply incl_refl]. Qed.

Ltac later_same := split; cbn; [reflexivity|apply incl_refl].

Lemma later_trans (w1 w2 w3 : World) : later w1 w2 -> later w2 w3 -> later w1 w3.
Proof.
  intros [F1 I1] [F2 I2]. split; [congruence|].
  eapply incl_tran; eassumption.
Qed.

Lemma later_reliable (w w' : World) : later w w' -> reliable w -> reliable w'.
Proof. intros [F _] H n. rewrite F. apply H. Qed.

Lemma later_absent (w w' : World) (entry_id : Z) :
  later w w' ->
  absent entry_id (scrobble_queue (store w)) ->
  absent entry_id (scrobble_queue (store w')).
Proof. intros [_ I] H Hin. apply H, I, Hin. Qed.

Lemma keeps_ret {A} (a : A) : keeps (ret a).
Proof. intros w _. apply later_refl. Qed.

Lemma keeps_raise {A} (e : Exn) : keeps (@raise A e).
Proof. intros w _. apply later_refl. Qed.

Lemma keeps_bind {A B} (m : M A) (k : A -> M B) :
  keeps m -> (forall a, keeps (k a)) -> keeps (bind m k).
Proof.
  intros Hm Hk w Hw. unfold bind. specialize (Hm w Hw).
  destruct (m w) as [a w1|e w1]; cbn [world_of] in *; [|exact Hm].
  eapply later_trans; [exact Hm|]. apply Hk. eapply later_reliable; eassumption.
Qed.

Lemma keeps_try {A} (m : M A) (handler : Exn -> M A) :
  keeps m -> (forall e, keeps (handler e)) -> keeps (try_except m handler).
Proof.
  intros Hm Hh w Hw. unfold try_except. specialize (Hm w Hw).
  destruct (m w) as [a w1|e w1]; cbn [world_of] in *; [exact Hm|].
  eapply later_trans; [exact Hm|]. apply Hh. eapply later_reliable; eassumption.
Qed.

Lemma returns_try {A} (m : M A) (handler : Exn -> M A) :
  keeps m -> (forall e, returns (handler e)) -> returns (try_except m handler).
Proof.
  intros Hm Hh w Hw. unfold try_except. specialize (Hm w Hw).
  destruct (m w) as [a w1|e w1]; cbn [world_of] in *; [eauto|].
  apply Hh. eapply later_reliable; eassumption.
Qed.

Lemma keeps_if {A} (b : bool) (m1 m2 : M A) :
  keeps m1 -> keeps m2 -> keeps (if b then m1 else m2).
Proof. destruct b; auto. Qed.

Lemma keeps_time_now : keeps time_now.
Proof. intros [clk n flt log rep slog s sts] _. later_same. Qed.

Lemma keeps_connect (call : StoreCall) : keeps (connect call).
Proof.
  intros [clk n flt log rep slog s sts] _. unfold connect.
  step_world. destruct (flt (length log)); later_same.
Qed.

Lemma keeps_get {A} (f : World -> A) : keeps (get f).
Proof. intros w _. later_same. Qed.

Lemma keeps_set_stats (g : World -> Stats.t) :
  keeps (modify (fun w => set_stats (g w) w)).
Proof. intros [clk n flt log rep slog s sts] _. later_same. Qed.

Lemma keeps_remove (entry_id : option Z) :
  keeps (DatabaseManager.remove_from_scrobble_queue entry_id).
Proof.
  intros w Hw. destruct (remove_reliable entry_id w (Hw _))
    as [w' [E [Hq [Hf _]]]].
  rewrite E. cbn [world_of]. split; [exact Hf|].
  rewrite Hq. apply incl_map. apply incl_filter.
Qed.

Lemma bump_ids (entry_id : option Z) (queue : list QueueRow.t) :
  map QueueRow.id
      (map (fun row => if DatabaseManager.id_is entry_id (QueueRow.id row)
                       then DatabaseManager.bump row else row) queue)
  = map QueueRow.id queue.
Proof.
  rewrite map_map. apply map_ext. intro row.
  destruct (DatabaseManager.id_is entry_id (QueueRow.id row)); reflexivity.
Qed.

Lemma keeps_increment (entry_id : option Z) :
  keeps (DatabaseManager.increment_retry_count entry_id).
Proof.
  intros w Hw. destruct (increment_reliable entry_id w (Hw _))
    as [w' [E [Hq [Hf _]]]].
  rewrite E. cbn [world_of]. split; [exact Hf|].
  rewrite Hq, bump_ids. apply incl_refl.
Qed.

Lemma returns_increment (entry_id : option Z) :
  returns (DatabaseManager.increment_retry_count entry_id).
Proof.
  intros w Hw. destruct (increment_reliable entry_id w (Hw _)) as [w' [E _]].
  eauto.
Qed.

Lemma keeps_add_to_history (entry : ScrobbleEntry.t) (provider : str)
      (confidence : float) (metadata : option str) :
  keeps (DatabaseManager.add_to_history entry provider confidence metadata).
Proof.
  intros [clk n flt log rep slog [q qs h hs c cs] sts] _.
  unfold DatabaseManager.add_to_history. step_world.
  destruct (flt (length log)); [later_same|].
  destruct (ScrobbleEntry.timestamp entry); step_world; later_same.
Qed.

Lemma keeps_network_scrobble (self : LastFMScrobbler.t) (submission : Submission.t) :
  keeps (LastFMScrobbler.network_scrobble self submission).
Proof.
  intros [clk n flt log rep slog s sts] _.
  unfold LastFMScrobbler.network_scrobble.
  destruct (LastFMScrobbler.network self); cbn [negb]; [|later_same].
  step_world. destruct (rep (length slog)); later_same.
Qed.

Lemma keeps_attempt (self : LastFMScrobbler.t) (entry : ScrobbleEntry.t) :
  keeps (LastFMScrobbler._attempt_scrobble self entry).
Proof.
  unfold LastFMScrobbler._attempt_scrobble, LastFMScrobbler.or_time_now,
    LastFMScrobbler.count_attempted, LastFMScrobbler.count_network_error.
  apply keeps_try.
  - repeat first
      [ apply keeps_ret | apply keeps_network_scrobble | apply keeps_time_now
      | apply keeps_set_stats
      | apply keeps_if | apply keeps_bind; [|intro]
      | match goal with
        | |- keeps (match ?x with _ => _ end) => destruct x
        end ].
  - intros [| |];
      repeat first
        [ apply keeps_ret | apply keeps_set_stats | apply keeps_bind; [|intro] ].
Qed.

Lemma keeps_process_entry (self : LastFMScrobbler.t) (entry : ScrobbleEntry.t) :
  keeps (LastFMScrobbler.process_entry self entry).
Proof.
  unfold LastFMScrobbler.process_entry, LastFMScrobbler.count_successful,
    LastFMScrobbler.count_processed, LastFMScrobbler.count_failed.
  apply keeps_try.
  - apply keeps_bind; [apply keeps_attempt|intro result].
    repeat first
      [ apply keeps_ret | apply keeps_remove | apply keeps_increment
      | apply keeps_add_to_history | apply keeps_set_stats
      | apply keeps_if | apply keeps_bind; [|intro] ].
  - intro e. apply keeps_if; [|apply keeps_ret].
    apply keeps_bind; [apply keeps_increment|intro; apply keeps_ret].
Qed.

Lemma returns_process_entry (self : LastFMScrobbler.t) (entry : ScrobbleEntry.t) :
  returns (LastFMScrobbler.process_entry self entry).
Proof.
  unfold LastFMScrobbler.process_entry, LastFMScrobbler.count_successful,
    LastFMScrobbler.count_processed, LastFMScrobbler.count_failed.
  apply returns_try.
  - apply keeps_bind; [apply keeps_attempt|intro result].
    repeat first
      [ apply keeps_ret | apply keeps_remove | apply keeps_increment
      | apply keeps_add_to_history | apply keeps_set_stats
      | apply keeps_if | apply keeps_bind; [|intro] ].
  - intros e w Hw.
    destruct (ScrobbleEntry.retry_count entry <? LastFMScrobbler.max_retries self).
    + destruct (returns_increment (ScrobbleEntry.id entry) w Hw) as [b [w' E]].
      unfold bind. rewrite E. unfold ret. eauto.
    + unfold ret. eauto.
Qed.

Lemma filter_absent (entry_id : Z) (queue : list QueueRow.t) :
  absent entry_id
    (filter (fun row => negb (DatabaseManager.id_is (Some entry_id) (QueueRow.id row)))
            queue).
Proof.
  unfold absent. rewrite in_map_iff. intros [row [Hid Hin]].
  apply filter_In in Hin as [_ Hkeep].
  cbn [DatabaseManager.id_is] in Hkeep. rewrite Hid, Z.eqb_refl in Hkeep.
  discriminate.
Qed.

Lemma process_entries_drops (self : LastFMScrobbler.t)
      (entries : list ScrobbleEntry.t) (w : World) :
  LastFMScrobbler._running self = true ->
  reliable w ->
  exists w',
    LastFMScrobbler.process_entries self entries w = Returned tt w'
    /\ later w w'
    /\ (forall entry entry_id,
          In entry entries ->
          fails_validation self entry = true ->
          ScrobbleEntry.id entry = Some entry_id ->
          absent entry_id (scrobble_queue (store w'))).
Proof.
  intros Hrun. revert w.
  induction entries as [|first rest IH]; intros w Hw.
  - exists w. split; [reflexivity|]. split; [apply later_refl|].
    intros entry entry_id [].
  - cbn [LastFMScrobbler.process_entries]. rewrite Hrun. cbn [negb].
    destruct (returns_process_entry self first w Hw) as [[] [w1 E1]].
    pose proof (keeps_process_entry self first w Hw) as L1.
    rewrite E1 in L1. cbn [world_of] in L1.
    destruct (IH w1 (later_reliable _ _ L1 Hw)) as [w2 [E2 [L2 Hrest]]].
    exists w2. unfold bind. rewrite E1.
    split; [exact E2|]. split; [eapply later_trans; eassumption|].
    intros entry entry_id [<-|Hin] Hbad Hid; [|eapply Hrest; eassumption].
    apply (later_absent w1 w2 entry_id L2).
    destruct (process_entry_fails_validation self first w Hbad (Hw _))
      as [w1' [E1' [Hq _]]].
    rewrite E1 in E1'. injection E1' as <-.
    rewrite Hq, Hid. apply filter_absent.
Qed.

Lemma invalid_fails_validation (self : LastFMScrobbler.t) (row : QueueRow.t) :
  QueueRow.artist row = []
  \/ QueueRow.title row = []
  \/ (exists d, QueueRow.duration row = Some d
                /\ d <> 0 /\ d < LastFMScrobbler.min_play_time self) ->
  fails_validation self (DatabaseManager.entry_of_row row) = true.
Proof.
  unfold fails_validation, LastFMScrobbler.too_short.
  cbn [DatabaseManager.entry_of_row ScrobbleEntry.artist ScrobbleEntry.title
       ScrobbleEntry.duration].
  intros [Ha|[Ht|[d [Hd [Hnz Hlt]]]]].
  - rewrite Ha. reflexivity.
  - rewrite Ht. apply orb_true_iff. left. apply orb_true_r.
  - rewrite Hd. apply orb_true_iff. right.
    apply andb_true_iff. split.
    + apply negb_true_iff, Z.eqb_neq, Hnz.
    + apply Z.ltb_lt, Hlt.
Qed.

(** C6. A queue entry with an empty artist or title, or with a duration
    that is not zero and is below the minimum play time, is turned down
    before the sink is reached: the attempt answers with a failure that is
    not to be retried and leaves the world as it was.  The loop body then
    deletes the entry's row whatever its retry count, still without a sink
    call; and after a whole drain pass over a reliable store no row with
    its id is left in the queue. *)
Theorem invalid_entry_dropped (self : LastFMScrobbler.t) (row : QueueRow.t) :
  let entry := DatabaseManager.entry_of_row row in
  QueueRow.artist row = []
  \/ QueueRow.title row = []
  \/ (exists d, QueueRow.duration row = Some d
                /\ d <> 0 /\ d < LastFMScrobbler.min_play_time self) ->
  (forall w, exists message,
      LastFMScrobbler._attempt_scrobble self entry w
      = Returned (ScrobbleResult.mk false None (Some message) false) w)
  /\ (forall w, store_fault w (length (store_log w)) = false ->
       exists w',
         LastFMScrobbler.process_entry self entry w = Returned tt w'
         /\ scrobble_queue (store w')
            = filter (fun queued => negb (QueueRow.id queued =? QueueRow.id row))
                     (scrobble_queue (store w))
         /\ sink_log w' = sink_log w)
  /\ (forall w,
       LastFMScrobbler.is_available self = true ->
       LastFMScrobbler._running self = true ->
       reliable w ->
       In row (firstn 50 (DatabaseManager.order_by QueueRow.created_at
                            (scrobble_queue (store w)))) ->
       exists w',
         LastFMScrobbler._process_scrobble_queue self w = Returned tt w'
         /\ absent (QueueRow.id row) (scrobble_queue (store w'))).
Proof.
  intros entry Hbad. apply invalid_fails_validation in Hbad.
  fold entry in Hbad. split; [|split].
  - intro w. apply attempt_fails_validation. exact Hbad.
  - intros w Hf.
    destruct (process_entry_fails_validation self entry w Hbad Hf)
      as [w' [E [Hq [Hs _]]]].
    exists w'. split; [exact E|]. split; [exact Hq|exact Hs].
  - intros w Hav Hrun Hw Hin.
    unfold LastFMScrobbler._process_scrobble_queue,
      DatabaseManager.get_scrobble_queue.
    rewrite Hav. cbn [negb].
    set (batch := firstn 50 (DatabaseManager.order_by QueueRow.created_at
                               (scrobble_queue (store w)))) in *.
    destruct w as [clk n flt log rep slog s sts].
    step_world. rewrite (Hw _). step_world.
    cbn [store] in batch. fold batch.
    set (w0 := mkWorld clk n flt (log ++ [CallGetScrobbleQueue]) rep slog s sts).
    assert (Hw0 : reliable w0) by (intro k; apply (Hw k)).
    destruct (process_entries_drops self (map DatabaseManager.entry_of_row batch)
                                    w0 Hrun Hw0) as [w' [E [_ Hdrop]]].
    assert (Hin' : In entry (map DatabaseManager.entry_of_row batch))
      by (apply in_map; exact Hin).
    destruct (map DatabaseManager.entry_of_row batch) as [|e es] eqn:Eb;
      [contradiction|].
    exists w'. split; [exact E|].
    apply (Hdrop entry (QueueRow.id row) Hin' Hbad). reflexivity.
Qed.

(** *** Transient failures and retries *)

(** One failed attempt of a valid entry against a sink that fails
    transiently: a row with retries left has its count raised by one and
    stays; a row that has used them up is deleted. *)
Lemma process_entry_transient
  (self : LastFMScrobbler.t) (entry : ScrobbleEntry.t) (w : World) :
  fails_validation self entry = false ->
  LastFMScrobbler.network self = true ->
  transient (sink_reply w (length (sink_log w))) = true ->
  store_fault w (length (store_log w)) = false ->
  exists w',
    LastFMScrobbler.process_entry self entry w = Returned tt w'
    /\ scrobble_queue (store w')
       = (if ScrobbleEntry.retry_count entry <? LastFMScrobbler.max_retries self
          then map (fun row => if DatabaseManager.id_is (ScrobbleEntry.id entry)
                                                        (QueueRow.id row)
                               then DatabaseManager.bump row else row)
                   (scrobble_queue (store w))
          else filter (fun row => negb (DatabaseManager.id_is (ScrobbleEntry.id entry)
                                                              (QueueRow.id row)))
                      (scrobble_queue (store w)))
    /\ length (sink_log w') = S (length (sink_log w))
    /\ store_fault w' = store_fault w
    /\ sink_reply w' = sink_reply w.
Proof.
  intros Hok Hnet Hrep Hf.
  unfold fails_validation in Hok.
  apply orb_false_iff in Hok as [Hok Hshort].
  unfold LastFMScrobbler.process_entry, LastFMScrobbler._attempt_scrobble,
    LastFMScrobbler.network_scrobble, LastFMScrobbler.or_time_now,
    LastFMScrobbler.count_attempted, LastFMScrobbler.count_network_error,
    LastFMScrobbler.count_failed, LastFMScrobbler.count_processed,
    DatabaseManager.increment_retry_count,
    DatabaseManager.remove_from_scrobble_queue.
  rewrite Hok, Hshort, Hnet. cbn [negb].
  destruct w as [clk n flt log rep slog [q qs h hs c cs] sts].
  cbn [store_fault store_log sink_reply sink_log] in Hrep, Hf.
  assert (Hlen : forall x : Submission.t, length (slog ++ [x]) = S (length slog))
    by (intro x; rewrite length_app; cbn; lia).
  destruct (ScrobbleEntry.timestamp entry) as [t|]; [destruct (t =? 0)|];
    step_world;
    (destruct (rep (length slog)) as [|code message|message];
     [discriminate Hrep| |]);
    cbn [transient] in Hrep; step_world; rewrite ?Hrep;
    cbn [ScrobbleResult.success ScrobbleResult.should_retry andb];
    (destruct (ScrobbleEntry.retry_count entry <? LastFMScrobbler.max_retries self);
     step_world; rewrite Hf; step_world;
     eexists; (split; [reflexivity|]); (split; [reflexivity|]);
     (split; [apply Hlen|]); split; reflexivity).
Qed.

Lemma fails_validation_retry_count
  (self : LastFMScrobbler.t) (count : Z) (row : QueueRow.t) :
  fails_validation self (DatabaseManager.entry_of_row (with_retry_count count row))
  = fails_validation self (DatabaseManager.entry_of_row row).
Proof. reflexivity. Qed.

(** One wake-up of the loop on a queue that holds one valid row, against a
    sink that fails transiently. *)
Lemma wakeup_transient (self : LastFMScrobbler.t) (row : QueueRow.t) (w : World) :
  LastFMScrobbler.is_available self = true ->
  reliable w -> sink_down w ->
  LastFMScrobbler._running self = true ->
  fails_validation self (DatabaseManager.entry_of_row row) = false ->
  scrobble_queue (store w) = [row] ->
  exists w',
    try_except (LastFMScrobbler._process_scrobble_queue self) (fun _ => ret tt) w
    = Returned tt w'
    /\ scrobble_queue (store w')
       = (if QueueRow.retry_count row <? LastFMScrobbler.max_retries self
          then [with_retry_count (QueueRow.retry_count row + 1) row]
          else [])
    /\ length (sink_log w') = S (length (sink_log w))
    /\ reliable w' /\ sink_down w'.
Proof.
  intros Hav Hw Hdown Hrun Hok Hq.
  assert (Hnet : LastFMScrobbler.network self = true).
  { unfold LastFMScrobbler.is_available in Hav.
    apply andb_true_iff in Hav. tauto. }
  unfold LastFMScrobbler._process_scrobble_queue,
    DatabaseManager.get_scrobble_queue.
  rewrite Hav. cbn [negb].
  destruct w as [clk n flt log rep slog [q qs h hs c cs] sts].
  cbn [store scrobble_queue] in Hq. subst q.
  step_world. rewrite (Hw _). step_world.
  cbn [DatabaseManager.order_by fold_left DatabaseManager.insert_by firstn map
       LastFMScrobbler.process_entries].
  rewrite Hrun. cbn [negb].
  set (w0 := mkWorld clk n flt (log ++ [CallGetScrobbleQueue]) rep slog
                     (mkStore [row] qs h hs c cs) sts).
  destruct (process_entry_transient self (DatabaseManager.entry_of_row row) w0
              Hok Hnet (Hdown _) (Hw _))
    as [w' [E [Hq' [Hlen [Hf Hr]]]]].
  unfold bind. rewrite E. unfold ret. exists w'. split; [reflexivity|].
  cbn [ScrobbleEntry.retry_count ScrobbleEntry.id DatabaseManager.entry_of_row
       store scrobble_queue w0 map filter DatabaseManager.id_is] in Hq'.
  rewrite Z.eqb_refl in Hq'. cbn [negb] in Hq'.
  split; [exact Hq'|]. split; [exact Hlen|].
  split; intro k; [rewrite Hf|rewrite Hr]; [apply (Hw k)|apply (Hdown k)].
Qed.

Lemma loop_transient (self : LastFMScrobbler.t) (row : QueueRow.t) :
  LastFMScrobbler.is_available self = true ->
  LastFMScrobbler._running self = true ->
  fails_validation self (DatabaseManager.entry_of_row row) = false ->
  forall (k : nat) (count : Z) (w : World),
    reliable w -> sink_down w ->
    scrobble_queue (store w) = [with_retry_count count row] ->
    count + Z.of_nat k <= LastFMScrobbler.max_retries self ->
    exists w',
      LastFMScrobbler._scrobble_loop k self w = Returned tt w'
      /\ scrobble_queue (store w') = [with_retry_count (count + Z.of_nat k) row]
      /\ length (sink_log w') = (length (sink_log w) + k)%nat
      /\ reliable w' /\ sink_down w'.
Proof.
  intros Hav Hrun Hok.
  induction k as [|k IH]; intros count w Hw Hdown Hq Hle.
  - exists w. rewrite Z.add_0_r, Nat.add_0_r. auto.
  - cbn [LastFMScrobbler._scrobble_loop]. rewrite Hrun. cbn [negb].
    destruct (wakeup_transient self (with_retry_count count row) w
                Hav Hw Hdown Hrun Hok Hq)
      as [w1 [E1 [Hq1 [Hlen1 [Hw1 Hdown1]]]]].
    cbn [QueueRow.retry_count with_retry_count] in Hq1.
    assert (Hlt : (count <? LastFMScrobbler.max_retries self) = true)
      by (apply Z.ltb_lt; lia).
    rewrite Hlt in Hq1.
    destruct (IH (count + 1) w1 Hw1 Hdown1 Hq1 ltac:(lia))
      as [w2 [E2 [Hq2 [Hlen2 [Hw2 Hdown2]]]]].
    exists w2. unfold bind. rewrite E1.
    split; [exact E2|].
    split; [rewrite Hq2; f_equal; f_equal; lia|].
    split; [lia|auto].
Qed.

Lemma scrobble_loop_step (self : LastFMScrobbler.t) (k : nat) :
  LastFMScrobbler._running self = true ->
  LastFMScrobbler._scrobble_loop (S k) self
  = bind (try_except (LastFMScrobbler._process_scrobble_queue self)
                     (fun _ => ret tt))
         (fun _ => LastFMScrobbler._scrobble_loop k self).
Proof. intro Hrun. cbn [LastFMScrobbler._scrobble_loop]. rewrite Hrun. reflexivity. Qed.

Lemma bind_assoc {A B C} (m : M A) (f : A -> M B) (g : B -> M C) (w : World) :
  bind (bind m f) g w = bind m (fun a => bind (f a) g) w.
Proof. unfold bind. destruct (m w); reflexivity. Qed.

Lemma bind_ext {A B} (m : M A) (f g : A -> M B) (w : World) :
  (forall a w', f a w' = g a w') -> bind m f w = bind m g w.
Proof. intro H. unfold bind. destruct (m w); [apply H|reflexivity]. Qed.

(** The last wake-up comes after all the earlier ones. *)
Lemma scrobble_loop_last (self : LastFMScrobbler.t) :
  LastFMScrobbler._running self = true ->
  forall (k : nat) (w : World),
    LastFMScrobbler._scrobble_loop (S k) self w
    = bind (LastFMScrobbler._scrobble_loop k self)
           (fun _ => LastFMScrobbler._scrobble_loop 1 self) w.
Proof.
  intro Hrun. induction k as [|k IH]; intro w.
  - reflexivity.
  - rewrite (scrobble_loop_step self (S k) Hrun).
    rewrite (bind_ext _ _
               (fun _ => bind (LastFMScrobbler._scrobble_loop k self)
                              (fun _ => LastFMScrobbler._scrobble_loop 1 self))
               w (fun _ w' => IH w')).
    rewrite <- bind_assoc.
    rewrite <- (scrobble_loop_step self k Hrun). reflexivity.
Qed.

(** C2, as the code has it.  Against a sink that always fails
    transiently, every failed attempt made while the row has retries left
    raises its retry count by exactly one and leaves it queued: after [k]
    wake-ups, [k] up to [max_retries], the count is [k].  The failed
    attempt made once the count has reached [max_retries] deletes the
    row: the entry is attempted [max_retries + 1] times, the first attempt
    and [max_retries] retries, and is gone after the last one. *)
Theorem retried_then_dropped
  (self : LastFMScrobbler.t) (row : QueueRow.t) (w : World) :
  LastFMScrobbler.is_available self = true ->
  LastFMScrobbler._running self = true ->
  reliable w -> sink_down w ->
  fails_validation self (DatabaseManager.entry_of_row row) = false ->
  QueueRow.retry_count row = 0 ->
  0 <= LastFMScrobbler.max_retries self ->
  scrobble_queue (store w) = [row] ->
  (forall k : nat,
      Z.of_nat k <= LastFMScrobbler.max_retries self ->
      let after := world_of (LastFMScrobbler._scrobble_loop k self w) in
      scrobble_queue (store after) = [with_retry_count (Z.of_nat k) row]
      /\ length (sink_log after) = (length (sink_log w) + k)%nat)
  /\ (let attempts := S (Z.to_nat (LastFMScrobbler.max_retries self)) in
      let after := world_of (LastFMScrobbler._scrobble_loop attempts self w) in
      scrobble_queue (store after) = []
      /\ length (sink_log after) = (length (sink_log w) + attempts)%nat).
Proof.
  intros Hav Hrun Hw Hdown Hok Hzero Hmax Hq.
  assert (Hrow : row = with_retry_count 0 row)
    by (destruct row; cbn in *; subst; reflexivity).
  rewrite Hrow in Hq.
  split.
  - intros k Hk.
    destruct (loop_transient self row Hav Hrun Hok k 0 w Hw Hdown Hq ltac:(lia))
      as [w' [E [Hq' [Hlen _]]]].
    cbn zeta. rewrite E. cbn [world_of]. rewrite Hq'. split; [reflexivity|exact Hlen].
  - cbn zeta.
    set (m := Z.to_nat (LastFMScrobbler.max_retries self)).
    assert (Hm : Z.of_nat m = LastFMScrobbler.max_retries self)
      by (unfold m; lia).
    rewrite (scrobble_loop_last self Hrun).
    destruct (loop_transient self row Hav Hrun Hok m 0 w Hw Hdown Hq ltac:(lia))
      as [w1 [E1 [Hq1 [Hlen1 [Hw1 Hdown1]]]]].
    unfold bind. rewrite E1.
    cbn [LastFMScrobbler._scrobble_loop]. rewrite Hrun. cbn [negb].
    destruct (wakeup_transient self (with_retry_count (0 + Z.of_nat m) row) w1
                Hav Hw1 Hdown1 Hrun Hok Hq1)
      as [w2 [E2 [Hq2 [Hlen2 _]]]].
    cbn [QueueRow.retry_count with_retry_count] in Hq2.
    assert (Hge : (0 + Z.of_nat m <? LastFMScrobbler.max_retries self) = false)
      by (apply Z.ltb_ge; lia).
    rewrite Hge in Hq2.
    unfold bind. rewrite E2. cbn [ret world_of].
    split; [exact Hq2|lia].
Qed.

Section ZeroDuration.
Context {hashlib : Hashlib}.

(** C10. A duration of exactly 0 counts as no duration: the fingerprint is
    that of the same result without a duration, and a queue entry with
    duration 0 passes the play-time test whatever the minimum is and is
    handed to the sink. *)
Theorem zero_duration_is_absent
  (r : RecognitionResult.t) (self : LastFMScrobbler.t)
  (entry : ScrobbleEntry.t) (w : World) :
  RecognitionResult.duration r = Some 0 ->
  ScrobbleEntry.duration entry = Some 0 ->
  Py.truthy (ScrobbleEntry.artist entry) = true ->
  Py.truthy (ScrobbleEntry.title entry) = true ->
  LastFMScrobbler.network self = true ->
  DuplicateDetector._create_fingerprint r
  = DuplicateDetector._create_fingerprint (without_duration r)
  /\ LastFMScrobbler.too_short self entry = false
  /\ exists timestamp,
       sink_log (world_of (LastFMScrobbler._attempt_scrobble self entry w))
       = sink_log w
         ++ [Submission.mk (ScrobbleEntry.artist entry)
                           (ScrobbleEntry.title entry) timestamp
                           (ScrobbleEntry.album entry) (Some 0)
                           (ScrobbleEntry.track_number entry)
                           (ScrobbleEntry.mbid entry)].
Proof.
  intros Hr He Ha Ht Hnet.
  split; [apply fingerprint_zero_duration; exact Hr|].
  assert (Hshort : LastFMScrobbler.too_short self entry = false)
    by (unfold LastFMScrobbler.too_short; rewrite He; reflexivity).
  split; [exact Hshort|].
  unfold LastFMScrobbler._attempt_scrobble, LastFMScrobbler.network_scrobble,
    LastFMScrobbler.or_time_now, LastFMScrobbler.count_attempted,
    LastFMScrobbler.count_network_error.
  rewrite Ha, Ht, Hshort, Hnet, He. cbn [negb orb].
  destruct w as [clk n flt log rep slog s sts].
  destruct (ScrobbleEntry.timestamp entry) as [t|]; [destruct (t =? 0)|];
    step_world;
    destruct (rep (length slog)) as [|code message|message];
    step_world; eexists; reflexivity.
Qed.

End ZeroDuration.

(** ** The properties on concrete inputs *)

(** C2, as stated, fails: with [max_retries] 5 and a sink that is always
    unreachable, five wake-ups make five failed attempts, after which the
    row is still queued, with retry count 5. *)
Lemma retry_counterexample :
  length (sink_log
            (world_of (LastFMScrobbler._scrobble_loop 5 default_scrobbler
                         (world_with (store_with_queue [queued_row])
                                     never always_offline))))
  = 5%nat
  /\ map QueueRow.retry_count
         (scrobble_queue
            (store
               (world_of (LastFMScrobbler._scrobble_loop 5 default_scrobbler
                            (world_with (store_with_queue [queued_row])
                                        never always_offline)))))
     = [5]
  /\ scrobble_queue
       (store
          (world_of (LastFMScrobbler._scrobble_loop 5 default_scrobbler
                       (world_with (store_with_queue [queued_row])
                                   never always_offline))))
     <> [].
Proof.
  split; [vm_compute; reflexivity|].
  split; [vm_compute; reflexivity|].
  vm_compute. discriminate.
Qed.

(** C6, as stated, fails for a duration of zero: it is below the minimum
    play time of 30, yet the attempt is not turned down; the entry is
    submitted to the sink and, once accepted, reported delivered. *)
Lemma zero_duration_counterexample :
  ScrobbleEntry.duration zero_entry = Some 0
  /\ 0 < LastFMScrobbler.min_play_time default_scrobbler
  /\ value_of (LastFMScrobbler._attempt_scrobble default_scrobbler zero_entry
                 (world_with empty_store never always_accepted))
     = Some (ScrobbleResult.mk true (Some 1) None false)
  /\ map Submission.duration
         (sink_log
            (world_of (LastFMScrobbler._attempt_scrobble default_scrobbler zero_entry
                         (world_with empty_store never always_accepted))))
     = [Some 0].
Proof.
  split; [reflexivity|]. split; [reflexivity|].
  split; reflexivity.
Qed.

Lemma retried_then_dropped_witness :
  scrobble_queue
    (store (world_of (LastFMScrobbler._scrobble_loop 6 default_scrobbler
                        (world_with (store_with_queue [queued_row])
                                    never always_offline))))
  = [].
Proof.
  apply (retried_then_dropped default_scrobbler queued_row
           (world_with (store_with_queue [queued_row]) never always_offline));
    try reflexivity.
  - intro n. reflexivity.
  - intro n. reflexivity.
  - vm_compute. discriminate.
Defined.

Lemma is_duplicate_not_cacheable_witness :
  @DuplicateDetector.is_duplicate plain_hash exact_ratio default_detector
    (RecognitionResult.mk false 0%float None None None None (lit "audd") None)
    (world_with empty_store never always_accepted)
  = Returned (DuplicateCheck.mk false 0%float None None None)
             (world_with empty_store never always_accepted).
Proof.
  apply (@is_duplicate_not_cacheable plain_hash exact_ratio).
  right. left. reflexivity.
Defined.

Lemma check_after_add_is_duplicate_witness :
  exists record,
    value_of
      (@DuplicateDetector.is_duplicate plain_hash exact_ratio default_detector
         (result_of "Artist" "Song" (Some 180))
         (world_of
            (@DuplicateDetector.add_track plain_hash default_detector
               (result_of "Artist" "Song" (Some 180))
               (world_with empty_store never always_accepted))))
    = Some (DuplicateCheck.mk true 1%float
              (Some (1700000003 - CacheRow.timestamp record))
              (Some (lit "Artist", lit "Song"))
              (Some (@DuplicateDetector._create_fingerprint plain_hash
                       (result_of "Artist" "Song" (Some 180))))).
Proof.
  destruct (@check_after_add_is_duplicate plain_hash exact_ratio default_detector
              (result_of "Artist" "Song" (Some 180))
              (world_with empty_store never always_accepted)
              eq_refl eq_refl eq_refl eq_refl eq_refl)
    as [record [_ [_ [Ha [Ht [_ [_ H]]]]]]].
  exists record. rewrite H, Ha, Ht. reflexivity.
Defined.

Lemma fuzzy_check_first_match_witness :
  value_of
    (@DuplicateDetector.is_duplicate plain_hash exact_ratio default_detector
       (result_of "Artist" "Song" (Some 180))
       (world_with (store_with_history [played_row]) never always_accepted))
  = Some (DuplicateCheck.mk true 1%float (Some 101)
            (Some (lit "artist", lit "SONG!"))
            (Some (@DuplicateDetector._create_fingerprint plain_hash
                     (result_of "Artist" "Song" (Some 180))))).
Proof.
  destruct (@fuzzy_check_first_match plain_hash exact_ratio default_detector
              (result_of "Artist" "Song" (Some 180))
              (world_with (store_with_history [played_row]) never always_accepted)
              eq_refl eq_refl eq_refl eq_refl
              (fun k _ => eq_refl)
              (fun record (H : In record []) => match H with end))
    as [H _].
  rewrite H. vm_compute. reflexivity.
Defined.

Lemma queue_scrobble_bounded_witness :
  value_of
    (LastFMScrobbler.queue_scrobble default_scrobbler
       (result_of "Artist" "Song" (Some 180)) None
       (world_with (store_with_queue [queued_row]) never always_accepted))
  = Some true.
Proof.
  destruct (queue_scrobble_bounded default_scrobbler
              (result_of "Artist" "Song" (Some 180)) None
              (world_with (store_with_queue [queued_row]) never always_accepted)
              (fun k _ => eq_refl))
    as [_ H].
  destruct (H eq_refl eq_refl eq_refl eq_refl) as [row [Hv _]].
  exact Hv.
Defined.

Lemma invalid_entry_dropped_witness :
  (exists w',
      LastFMScrobbler._process_scrobble_queue default_scrobbler
        (world_with (store_with_queue [short_row]) never always_accepted)
      = Returned tt w'
      /\ absent 1 (scrobble_queue (store w')))
  /\ (exists w',
         LastFMScrobbler._process_scrobble_queue default_scrobbler
           (world_with (store_with_queue [untitled_row]) never always_accepted)
         = Returned tt w'
         /\ absent 1 (scrobble_queue (store w'))).
Proof.
  split.
  - destruct (invalid_entry_dropped default_scrobbler short_row) as [_ [_ H]].
    { right. right. exists 10.
      split; [reflexivity|split; [discriminate|reflexivity]]. }
    apply (H (world_with (store_with_queue [short_row]) never always_accepted));
      try reflexivity.
    + intro n. reflexivity.
    + left. reflexivity.
  - destruct (invalid_entry_dropped default_scrobbler untitled_row) as [_ [_ H]].
    { right. left. reflexivity. }
    apply (H (world_with (store_with_queue [untitled_row]) never always_accepted));
      try reflexivity.
    + intro n. reflexivity.
    + left. reflexivity.
Defined.

Lemma zero_duration_is_absent_witness :
  @DuplicateDetector._create_fingerprint plain_hash
     (result_of "Artist" "Song" (Some 0))
  = @DuplicateDetector._create_fingerprint plain_hash
      (result_of "Artist" "Song" None)
  /\ LastFMScrobbler.too_short default_scrobbler zero_entry = false.
Proof.
  destruct (@zero_duration_is_absent plain_hash
              (result_of "Artist" "Song" (Some 0)) default_scrobbler zero_entry
              (world_with empty_store never always_accepted)
              eq_refl eq_refl eq_refl eq_refl eq_refl)
    as [H1 [H2 _]].
  split; [exact H1|exact H2].
Defined.

Example normalize_example :
  _normalize_string (lit "  Simon  &  Garfunkel!! ") = lit "simon and garfunkel".
Proof. vm_compute. reflexivity. Qed.

Example fingerprint_bucket_example :
  Py.str_of_int (Py.round_div 183 5 * 5) = lit "185".
Proof. vm_compute. reflexivity. Qed.

(** The sibling of the check does catch the store's error. *)
Example add_track_store_error_caught :
  @DuplicateDetector.add_track plain_hash default_detector
     (result_of "Artist" "Song" (Some 180))
     (world_with empty_store (only_at 0) always_accepted)
  = Returned false
      (mkWorld ticking_clock 2 (only_at 0)
               [CallAddDuplicateEntry
                  (@DuplicateDetector._create_fingerprint plain_hash
                     (result_of "Artist" "Song" (Some 180)))]
               always_accepted [] empty_store zero_stats).
Proof. reflexivity. Qed.

(** The sixth failed attempt finds the count at the limit and deletes the
    row. *)
Example sixth_attempt_drops :
  scrobble_queue
    (store (world_of (LastFMScrobbler._scrobble_loop 6 default_scrobbler
                        (world_with (store_with_queue [queued_row])
                                    never always_offline))))
  = []
  /\ length (sink_log
               (world_of (LastFMScrobbler._scrobble_loop 6 default_scrobbler
                            (world_with (store_with_queue [queued_row])
                                        never always_offline))))
     = 6%nat.
Proof. split; vm_compute; reflexivity. Qed.

(** * Further properties *)

(** ** What normalised text looks like *)

Lemma settled_inv (c : ascii) :
  settled c = true ->
  Py.lower_char c = c
  /\ c <> "&"%char /\ c <> "+"%char
  /\ c <> char_tab /\ c <> char_newline /\ c <> char_return.
Proof.
  each_char c; vm_compute; intro H; try discriminate H;
    repeat split; discriminate.
Qed.

Lemma canonical_stripped (s : str) :
  Py.strip strip_chars (canonical s) = canonical s.
Proof.
  unfold canonical. rewrite <- squeeze_strip, strip_idempotent. reflexivity.
Qed.

(** X1. The text [_normalize_string] returns has no upper-case letter, no
    ampersand, plus sign, tab, newline or carriage return, no two spaces
    in a row, and no stripped character at either end. *)
Theorem normalize_clean (x : str) :
  Py.lower (_normalize_string x) = _normalize_string x
  /\ (forall c, In c (_normalize_string x) ->
        c <> "&"%char /\ c <> "+"%char
        /\ c <> char_tab /\ c <> char_newline /\ c <> char_return)
  /\ Py.contains double_space (_normalize_string x) = false
  /\ Py.strip strip_chars (_normalize_string x) = _normalize_string x.
Proof.
  rewrite normalize_canonical.
  pose proof (canonical_settled x) as Hs. rewrite forallb_forall in Hs.
  split; [|split; [|split]].
  - unfold Py.lower. rewrite <- (map_id (canonical x)) at 2.
    apply map_ext_in. intros c Hc. apply settled_inv, Hs, Hc.
  - intros c Hc. apply settled_inv, Hs, Hc.
  - unfold canonical. apply contains_double_squeeze.
  - apply canonical_stripped.
Qed.

Lemma squeeze_nil_inv (s : str) : squeeze s = [] -> s = [].
Proof.
  induction s as [|c r IH]; [reflexivity|].
  rewrite squeeze_cons.
  destruct (Ascii.eqb c char_space && starts_with_space r) eqn:E; [|discriminate].
  intro H. specialize (IH H). subst r.
  rewrite andb_false_r in E. discriminate.
Qed.

Lemma lstrip_nil_inv (chars s : str) :
  Py.lstrip chars s = [] -> forallb (fun c => Py.mem c chars) s = true.
Proof.
  induction s as [|c r IH]; [reflexivity|].
  simpl. destruct (Py.mem c chars); [exact IH|discriminate].
Qed.

Lemma strip_nil_iff (chars s : str) :
  Py.strip chars s = [] <-> forallb (fun c => Py.mem c chars) s = true.
Proof.
  split.
  - unfold Py.strip, Py.rstrip. intro H.
    apply (f_equal (@rev ascii)) in H. rewrite rev_involutive in H.
    cbn [rev] in H. apply lstrip_nil_inv in H. rewrite forallb_rev in H.
    pose proof (head_kept_lstrip chars s) as Hk.
    destruct (Py.lstrip chars s) as [|c r] eqn:E.
    + apply lstrip_nil_inv. exact E.
    + cbn [forallb] in H. cbn [head_kept] in Hk.
      apply andb_true_iff in H as [Hc _]. rewrite Hc in Hk. discriminate.
  - intro H. unfold Py.strip. rewrite (lstrip_all chars s H). reflexivity.
Qed.

Lemma folded_edge_iff_char (c : ascii) :
  forallb is_edge_char (fold_char (Py.lower_char c)) = is_edge_char c.
Proof. each_char c; vm_compute; reflexivity. Qed.

Lemma folded_edge_iff (s : str) :
  forallb is_edge_char (folded s) = forallb is_edge_char s.
Proof.
  induction s as [|c r IH]; [reflexivity|].
  unfold folded in *. simpl. rewrite forallb_app, folded_edge_iff_char, IH.
  reflexivity.
Qed.

(** X2. A text normalises to the empty text exactly when it consists of
    stripped characters only (white space and the listed punctuation). *)
Theorem normalize_empty_iff (x : str) :
  _normalize_string x = [] <-> forallb is_edge_char x = true.
Proof.
  rewrite normalize_canonical. unfold canonical. fold (folded x).
  rewrite <- folded_edge_iff. split.
  - intro H. apply squeeze_nil_inv in H. apply strip_nil_iff in H. exact H.
  - intro H. apply strip_nil_iff in H. unfold is_edge_char. rewrite H. reflexivity.
Qed.

(** The nearest integer is within half a unit. *)
Lemma nearest_even_error (a b : Z) :
  0 < b -> 2 * Z.abs (b * Py.nearest_even a b - a) <= b.
Proof.
  intro Hb. unfold Py.nearest_even.
  pose proof (Z.div_mod a b ltac:(lia)) as Hd.
  pose proof (Z.mod_pos_bound a b Hb) as Hr.
  destruct (2 * (a mod b) <? b) eqn:E1.
  - apply Z.ltb_lt in E1. lia.
  - apply Z.ltb_ge in E1.
    destruct (b <? 2 * (a mod b)) eqn:E2.
    + apply Z.ltb_lt in E2. lia.
    + apply Z.ltb_ge in E2. destruct (Z.even (a / b)); lia.
Qed.

(** An integer nearer than half a unit is the nearest one. *)
Lemma nearest_even_unique (a b n : Z) :
  0 < b -> 2 * Z.abs (a - n * b) < b -> Py.nearest_even a b = n.
Proof.
  intros Hb Hn. unfold Py.nearest_even.
  pose proof (Z.div_mod a b ltac:(lia)) as Hd.
  pose proof (Z.mod_pos_bound a b Hb) as Hr.
  assert (Hq : a / b = n \/ a / b = n - 1) by nia.
  destruct (2 * (a mod b) <? b) eqn:E1.
  - apply Z.ltb_lt in E1. nia.
  - apply Z.ltb_ge in E1.
    destruct (b <? 2 * (a mod b)) eqn:E2.
    + apply Z.ltb_lt in E2. nia.
    + apply Z.ltb_ge in E2. nia.
Qed.

(** A fifth rounded to eighths or finer, and then to an integer, lands on
    the integer nearest to the fifth: the float keeps the quotient away
    from the halves. *)
Lemma round_fifth_twice (a k unit : Z) :
  8 <= unit ->
  5 * k - 2 <= a <= 5 * k + 2 ->
  Py.nearest_even (Py.nearest_even (a * unit) 5) unit = k.
Proof.
  intros Hu Ha.
  pose proof (nearest_even_error (a * unit) 5 ltac:(lia)) as Hm.
  apply nearest_even_unique; [lia|]. nia.
Qed.

(** Below [2 ^ 50] the float of the fifth has five fraction bits or more. *)
Lemma quotient_exponent_small (a : Z) :
  0 < a < 2 ^ 50 -> 5 <= 52 - Py.quotient_exponent a 5.
Proof.
  intros [Hpos Hlt].
  apply Z.log2_lt_pow2 in Hlt; [|exact Hpos].
  unfold Py.quotient_exponent.
  change (Z.log2 5) with 2.
  destruct (_ <? _); lia.
Qed.

Lemma round_div_bucket (d k : Z) :
  Z.abs d < 2 ^ 50 ->
  5 * k - 2 <= d <= 5 * k + 2 -> Py.round_div d 5 = k.
Proof.
  intros Hbound H. unfold Py.round_div.
  destruct (d =? 0) eqn:E0; [apply Z.eqb_eq in E0; lia|].
  apply Z.eqb_neq in E0.
  pose proof (quotient_exponent_small (Z.abs d) ltac:(lia)) as Hshift.
  set (shift := 52 - Py.quotient_exponent (Z.abs d) 5) in *.
  replace (0 <=? shift) with true by (symmetry; apply Z.leb_le; lia).
  assert (Hunit : 8 <= 2 ^ shift).
  { change 8 with (2 ^ 3). apply Z.pow_le_mono_r; lia. }
  destruct (Z.abs_spec d) as [[Hd ->]|[Hd ->]].
  - rewrite (round_fifth_twice d k _ Hunit H).
    rewrite Z.sgn_pos by lia. lia.
  - rewrite (round_fifth_twice (- d) (- k) _ Hunit ltac:(lia)).
    rewrite Z.sgn_neg by lia. lia.
Qed.

(** Past that size the float of the quotient can sit on a half: two
    durations within two seconds of the same multiple of five then fall
    in different buckets. *)
Example round_div_binary64_example :
  Py.round_div 45035996273704963 5 * 5 = 45035996273704960
  /\ Py.round_div 45035996273704967 5 * 5 = 45035996273704970.
Proof. split; vm_compute; reflexivity. Qed.

Section Buckets.
Context {hashlib : Hashlib}.

(** X3. Durations are bucketed: two results that agree on artist, title
    and album up to the variations normalisation absorbs, and whose
    non-zero durations, below [2 ^ 50] seconds in size, lie within two
    seconds of the same multiple of five, have equal fingerprints. *)
Theorem fingerprint_duration_bucket
  (r1 r2 : RecognitionResult.t) (d1 d2 k : Z) :
  differ_only_by_variations
    (Py.or_empty (RecognitionResult.artist r1))
    (Py.or_empty (RecognitionResult.artist r2)) ->
  differ_only_by_variations
    (Py.or_empty (RecognitionResult.title r1))
    (Py.or_empty (RecognitionResult.title r2)) ->
  differ_only_by_variations
    (Py.or_empty (RecognitionResult.album r1))
    (Py.or_empty (RecognitionResult.album r2)) ->
  RecognitionResult.duration r1 = Some d1 ->
  RecognitionResult.duration r2 = Some d2 ->
  d1 <> 0 -> d2 <> 0 ->
  Z.abs d1 < 2 ^ 50 -> Z.abs d2 < 2 ^ 50 ->
  5 * k - 2 <= d1 <= 5 * k + 2 ->
  5 * k - 2 <= d2 <= 5 * k + 2 ->
  DuplicateDetector._create_fingerprint r1
  = DuplicateDetector._create_fingerprint r2.
Proof.
  intros Ha Ht Hb H1 H2 N1 N2 S1 S2 B1 B2.
  unfold DuplicateDetector._create_fingerprint.
  rewrite (normalize_variations _ _ Ha), (normalize_variations _ _ Ht),
          (normalize_variations _ _ Hb), H1, H2.
  apply Z.eqb_neq in N1, N2. rewrite N1, N2. cbn [negb].
  rewrite (round_div_bucket d1 k S1 B1), (round_div_bucket d2 k S2 B2).
  reflexivity.
Qed.

End Buckets.

Lemma fingerprint_duration_bucket_witness :
  @DuplicateDetector._create_fingerprint plain_hash
     (result_of "Artist" "Song" (Some 178))
  = @DuplicateDetector._create_fingerprint plain_hash
      (result_of "ARTIST" "Song" (Some 182)).
Proof.
  apply (@fingerprint_duration_bucket plain_hash _ _ 178 182 36);
    try reflexivity; try discriminate; try lia.
  - apply dv_trans with (t := Py.lower (lit "Artist")).
    + exact (dv_inside [] _ _ (lit "rtist") (var_case "A"%char)).
    + apply dv_sym.
      apply dv_trans with (t := lit "aRTIST");
        [exact (dv_inside [] _ _ (lit "RTIST") (var_case "A"%char))|].
      apply dv_trans with (t := lit "arTIST");
        [exact (dv_inside (lit "a") _ _ (lit "TIST") (var_case "R"%char))|].
      apply dv_trans with (t := lit "artIST");
        [exact (dv_inside (lit "ar") _ _ (lit "IST") (var_case "T"%char))|].
      apply dv_trans with (t := lit "artiST");
        [exact (dv_inside (lit "art") _ _ (lit "ST") (var_case "I"%char))|].
      apply dv_trans with (t := lit "artisT");
        [exact (dv_inside (lit "arti") _ _ (lit "T") (var_case "S"%char))|].
      exact (dv_inside (lit "artis") _ _ [] (var_case "T"%char)).
  - apply dv_refl.
  - apply dv_refl.
Defined.

(** ** The queue table *)

Lemma filter_keeps_all {A} (p : A -> bool) (l : list A) :
  Forall (fun x => p x = true) l -> filter p l = l.
Proof.
  intro H. induction H as [|x l Hx _ IH]; [reflexivity|].
  simpl. rewrite Hx, IH. reflexivity.
Qed.

Lemma NoDup_map_filter {Row Key : Type} (key : Row -> Key) (keep : Row -> bool)
      (rows : list Row) (distinct : NoDup (map key rows)) :
  NoDup (map key (filter keep rows)).
Proof.
  revert distinct. induction rows as [|row rows IH]; [intros; constructor|].
  simpl. intro H. inversion H as [|y ys Hnot Hnd]; subst.
  destruct (keep row); [|auto].
  simpl. constructor; [|auto].
  intro Hin. apply Hnot. apply in_map_iff in Hin as [z [Hz Hin]].
  apply filter_In in Hin as [Hin _]. apply in_map_iff. eauto.
Qed.

Lemma Forall_filter {A} (P : A -> Prop) (p : A -> bool) (l : list A) :
  Forall P l -> Forall P (filter p l).
Proof.
  intro H. apply Forall_forall. intros x Hx.
  apply filter_In in Hx as [Hx _]. rewrite Forall_forall in H. auto.
Qed.

(** X4. The ids of the queue stay pairwise different and below the
    AUTOINCREMENT counter under the three methods that write the queue,
    whether the store answers or raises; an id handed out by
    [add_to_scrobble_queue] was not in the queue before. *)
Theorem queue_ids_stay_fresh (w : World) :
  queue_ids_fresh (store w) ->
  (forall entry metadata,
      queue_ids_fresh
        (store (world_of (DatabaseManager.add_to_scrobble_queue entry metadata w)))
      /\ (forall new_id,
             value_of (DatabaseManager.add_to_scrobble_queue entry metadata w)
             = Some new_id ->
             ~ In new_id (map QueueRow.id (scrobble_queue (store w)))))
  /\ (forall entry_id,
         queue_ids_fresh
           (store (world_of (DatabaseManager.remove_from_scrobble_queue entry_id w))))
  /\ (forall entry_id,
         queue_ids_fresh
           (store (world_of (DatabaseManager.increment_retry_count entry_id w)))).
Proof.
  intros [Hnd Hle].
  destruct w as [clk n flt log rep slog [q qs h hs c cs] sts].
  cbn [store scrobble_queue queue_seq] in Hnd, Hle.
  assert (Hnew : ~ In (qs + 1) (map QueueRow.id q)).
  { intro Hin. apply in_map_iff in Hin as [row [Hid Hin]].
    rewrite Forall_forall in Hle. specialize (Hle row Hin). lia. }
  split; [|split].
  - intros entry metadata.
    unfold DatabaseManager.add_to_scrobble_queue.
    destruct (ScrobbleEntry.created_at entry) as [t|]; step_world;
      (destruct (flt (length log)); step_world;
       [split; [split; assumption|discriminate]|]);
      (split; [|intros new_id E; injection E as <-; exact Hnew]);
      (split; cbn [store scrobble_queue queue_seq];
       [rewrite map_app; cbn [map QueueRow.id];
        apply NoDup_app; [exact Hnd|repeat constructor; intros []|];
        intros x Hx [<-|[]]; exact (Hnew Hx)
       |apply Forall_app; split;
        [eapply Forall_impl; [|exact Hle]; cbn; intros; lia
        |repeat constructor; cbn; lia]]).
  - intro entry_id. unfold DatabaseManager.remove_from_scrobble_queue.
    step_world. destruct (flt (length log)); step_world;
      [split; assumption|].
    split; cbn [store scrobble_queue queue_seq].
    + apply NoDup_map_filter. exact Hnd.
    + apply Forall_filter. exact Hle.
  - intro entry_id. unfold DatabaseManager.increment_retry_count.
    step_world. destruct (flt (length log)); step_world;
      [split; assumption|].
    split; cbn [store scrobble_queue queue_seq].
    + rewrite bump_ids. exact Hnd.
    + apply Forall_forall. intros row Hin.
      apply in_map_iff in Hin as [row0 [<- Hin]].
      rewrite Forall_forall in Hle. specialize (Hle row0 Hin).
      destruct (DatabaseManager.id_is entry_id (QueueRow.id row0)); exact Hle.
Qed.

Lemma queue_ids_stay_fresh_witness :
  queue_ids_fresh
    (store (world_of (DatabaseManager.remove_from_scrobble_queue (Some 1)
                        (world_with (store_with_queue [queued_row])
                                    never always_accepted)))).
Proof.
  apply (queue_ids_stay_fresh
           (world_with (store_with_queue [queued_row]) never always_accepted)).
  split; cbn.
  - repeat constructor. intros [].
  - repeat constructor. cbn. lia.
Defined.

(** X5. Adding an entry and removing it by the id that was returned gives
    back the rows the queue had; the counter has moved on, so the id is
    not handed out again. *)
Theorem add_then_remove_restores
  (entry : ScrobbleEntry.t) (metadata : option str) (w : World) :
  queue_ids_fresh (store w) ->
  (forall k, (k < 2)%nat -> store_fault w (length (store_log w) + k) = false) ->
  exists new_id w1 w2,
    DatabaseManager.add_to_scrobble_queue entry metadata w = Returned new_id w1
    /\ DatabaseManager.remove_from_scrobble_queue (Some new_id) w1
       = Returned true w2
    /\ scrobble_queue (store w2) = scrobble_queue (store w)
    /\ new_id = queue_seq (store w) + 1
    /\ queue_seq (store w2) = new_id.
Proof.
  intros [Hnd Hle] Hf.
  pose proof (Hf 0%nat ltac:(lia)) as H0.
  pose proof (Hf 1%nat ltac:(lia)) as H1.
  rewrite Nat.add_0_r in H0.
  destruct w as [clk n flt log rep slog [q qs h hs c cs] sts].
  cbn [store scrobble_queue queue_seq store_fault store_log] in *.
  unfold DatabaseManager.add_to_scrobble_queue,
    DatabaseManager.remove_from_scrobble_queue.
  assert (Hlen : length (log ++ [CallAddToScrobbleQueue]) = (length log + 1)%nat)
    by (rewrite length_app; reflexivity).
  assert (Hkeep : forall row,
            filter (fun r => negb (DatabaseManager.id_is (Some (qs + 1)) (QueueRow.id r)))
                   (q ++ [row]) = q ++ filter
                     (fun r => negb (DatabaseManager.id_is (Some (qs + 1)) (QueueRow.id r)))
                     [row]).
  { intro row. rewrite filter_app. f_equal. apply filter_keeps_all.
    eapply Forall_impl; [|exact Hle]. intros r Hr. cbn in *.
    apply negb_true_iff, Z.eqb_neq. lia. }
  destruct (ScrobbleEntry.created_at entry) as [t|];
    step_world; rewrite H0; step_world;
    do 3 eexists; (split; [reflexivity|]);
    step_world; rewrite Hlen, H1; step_world;
    rewrite existsb_app; cbn [existsb DatabaseManager.id_is QueueRow.id];
    rewrite Z.eqb_refl, !orb_true_r;
    (split; [reflexivity|]);
    cbn [store scrobble_queue queue_seq];
    rewrite Hkeep; cbn [filter DatabaseManager.id_is QueueRow.id];
    rewrite Z.eqb_refl; cbn [negb]; rewrite app_nil_r; auto.
Qed.

Lemma add_then_remove_restores_witness :
  exists new_id w1 w2,
    DatabaseManager.add_to_scrobble_queue zero_entry None
      (world_with (store_with_queue [queued_row]) never always_accepted)
    = Returned new_id w1
    /\ DatabaseManager.remove_from_scrobble_queue (Some new_id) w1
       = Returned true w2
    /\ scrobble_queue (store w2) = [queued_row].
Proof.
  destruct (add_then_remove_restores zero_entry None
              (world_with (store_with_queue [queued_row]) never always_accepted))
    as [new_id [w1 [w2 [E1 [E2 [Hq _]]]]]].
  - split; cbn.
    + repeat constructor. intros [].
    + repeat constructor. cbn. lia.
  - intros k _. reflexivity.
  - exists new_id, w1, w2. auto.
Defined.

Lemma insert_by_perm {A} (key : A -> Z) (x : A) (l : list A) :
  Permutation (x :: l) (DatabaseManager.insert_by key x l).
Proof.
  induction l as [|y l IH]; simpl; [reflexivity|].
  destruct (key y <=? key x); [|reflexivity].
  rewrite perm_swap. apply perm_skip. exact IH.
Qed.

Lemma order_by_perm {A} (key : A -> Z) (rows : list A) :
  Permutation rows (DatabaseManager.order_by key rows).
Proof.
  induction rows as [|x rows IH] using rev_ind; [reflexivity|].
  rewrite order_by_snoc, <- insert_by_perm.
  rewrite Permutation_app_comm. simpl. apply perm_skip. exact IH.
Qed.

(** X6. [get_scrobble_queue] reads without writing and returns the oldest
    rows: the queue, put in creation order, splits into the batch that is
    returned, of [limit] rows or the whole queue if it is shorter, and the
    rest, which holds no row created before a returned one. *)
Theorem get_scrobble_queue_oldest_first (limit : nat) (w : World) :
  store_fault w (length (store_log w)) = false ->
  exists batch rest,
    value_of (DatabaseManager.get_scrobble_queue limit w)
    = Some (map DatabaseManager.entry_of_row batch)
    /\ Permutation (scrobble_queue (store w)) (batch ++ rest)
    /\ length batch = Nat.min limit (length (scrobble_queue (store w)))
    /\ StronglySorted
         (fun a b => QueueRow.created_at a <= QueueRow.created_at b)
         (batch ++ rest)
    /\ store (world_of (DatabaseManager.get_scrobble_queue limit w)) = store w.
Proof.
  intro Hf.
  exists (firstn limit (DatabaseManager.order_by QueueRow.created_at
                          (scrobble_queue (store w)))),
         (skipn limit (DatabaseManager.order_by QueueRow.created_at
                         (scrobble_queue (store w)))).
  rewrite firstn_skipn.
  split; [|split; [apply order_by_perm|split; [|split; [apply order_by_sorted|]]]].
  - unfold DatabaseManager.get_scrobble_queue.
    destruct w as [clk n flt log rep slog s sts].
    cbn [store_fault store_log] in Hf. step_world. rewrite Hf. reflexivity.
  - rewrite length_firstn.
    rewrite <- (Permutation_length (order_by_perm QueueRow.created_at
                                      (scrobble_queue (store w)))).
    reflexivity.
  - unfold DatabaseManager.get_scrobble_queue.
    destruct w as [clk n flt log rep slog s sts].
    cbn [store_fault store_log] in Hf. step_world. rewrite Hf. reflexivity.
Qed.

Lemma get_scrobble_queue_oldest_first_witness :
  exists batch rest,
    value_of (DatabaseManager.get_scrobble_queue 1
                (world_with (store_with_queue [queued_row; untitled_row])
                            never always_accepted))
    = Some (map DatabaseManager.entry_of_row batch)
    /\ Permutation [queued_row; untitled_row] (batch ++ rest)
    /\ length batch = 1%nat.
Proof.
  destruct (get_scrobble_queue_oldest_first 1
              (world_with (store_with_queue [queued_row; untitled_row])
                          never always_accepted) eq_refl)
    as [batch [rest [Hv [Hp [Hl _]]]]].
  exists batch, rest. auto.
Defined.

(** ** The history table *)

Lemma insert_by_first {A} (key : A -> Z) (x : A) (l : list A) :
  Forall (fun y => key x < key y) l ->
  DatabaseManager.insert_by key x l = x :: l.
Proof.
  intro H. destruct H as [|y l Hy _]; [reflexivity|].
  simpl. apply Z.leb_gt in Hy. rewrite Hy. reflexivity.
Qed.

(** X7. A delivery recorded by [add_to_history] at a time later than
    every recorded one is the first row [get_recent_scrobbles] returns,
    ahead of the rows it returned before; the row carries the entry's
    fields, the provider and the confidence. *)
Theorem history_newest_first
  (entry : ScrobbleEntry.t) (provider : str) (confidence : float)
  (metadata : option str) (timestamp : Z) (limit : nat) (w : World) :
  ScrobbleEntry.timestamp entry = Some timestamp ->
  (forall k, (k < 2)%nat -> store_fault w (length (store_log w) + k) = false) ->
  Forall (fun row => HistoryRow.scrobbled_at row < clock w (clock_reads w))
         (scrobble_history (store w)) ->
  let w1 := world_of (DatabaseManager.add_to_history entry provider confidence
                                                     metadata w) in
  exists row,
    value_of (DatabaseManager.get_recent_scrobbles (S limit) w1)
    = Some (row :: firstn limit
                     (DatabaseManager.order_by
                        (fun r => - HistoryRow.scrobbled_at r)
                        (scrobble_history (store w))))
    /\ HistoryRow.artist row = ScrobbleEntry.artist entry
    /\ HistoryRow.title row = ScrobbleEntry.title entry
    /\ HistoryRow.timestamp row = timestamp
    /\ HistoryRow.scrobbled_at row = clock w (clock_reads w)
    /\ HistoryRow.recognition_provider row = provider
    /\ HistoryRow.recognition_confidence row = confidence.
Proof.
  intros Ht Hf Hold.
  pose proof (Hf 0%nat ltac:(lia)) as H0.
  pose proof (Hf 1%nat ltac:(lia)) as H1.
  rewrite Nat.add_0_r in H0.
  destruct w as [clk n flt log rep slog [q qs h hs c cs] sts].
  cbn [store scrobble_history store_fault store_log clock clock_reads] in *.
  unfold DatabaseManager.add_to_history, DatabaseManager.get_recent_scrobbles.
  rewrite Ht. step_world. rewrite H0. step_world.
  rewrite length_app. cbn [length]. rewrite H1. step_world.
  eexists. split.
  - rewrite order_by_snoc, insert_by_first; [reflexivity|].
    apply Forall_forall. intros y Hy. apply order_by_in in Hy.
    rewrite Forall_forall in Hold. specialize (Hold y Hy).
    cbn [HistoryRow.scrobbled_at]. lia.
  - repeat split; reflexivity.
Qed.

Lemma history_newest_first_witness :
  exists row,
    value_of
      (DatabaseManager.get_recent_scrobbles 1
         (world_of (DatabaseManager.add_to_history zero_entry (lit "lastfm")
                      1%float None
                      (world_with (store_with_history [played_row])
                                  never always_accepted))))
    = Some [row]
    /\ HistoryRow.title row = lit "Song".
Proof.
  destruct (history_newest_first zero_entry (lit "lastfm") 1%float None
              1699999000 0
              (world_with (store_with_history [played_row]) never always_accepted)
              eq_refl (fun k _ => eq_refl))
    as [row [Hv [_ [Ht _]]]].
  - repeat constructor.
  - exists row. split; [exact Hv|exact Ht].
Defined.

(** ** The duplicate cache *)

(** X8. [find_duplicate] reads without writing and answers from unexpired
    rows only: an entry it returns copies a cache row with the fingerprint
    asked for whose expiry is after the clock reading of the call, and it
    returns nothing exactly when every row with that fingerprint has
    expired (or there is none). *)
Theorem find_duplicate_unexpired_only (fingerprint : str) (w : World) :
  store_fault w (length (store_log w)) = false ->
  let current_time := clock w (clock_reads w) in
  let found := DatabaseManager.find_duplicate fingerprint w in
  (forall entry,
      value_of found = Some (Some entry) ->
      exists row,
        In row (duplicate_cache (store w))
        /\ CacheRow.fingerprint row = fingerprint
        /\ current_time < CacheRow.expires_at row
        /\ entry = entry_of_cache_row row)
  /\ (value_of found = Some None <->
      forall row, In row (duplicate_cache (store w)) ->
                  CacheRow.fingerprint row = fingerprint ->
                  CacheRow.expires_at row <= current_time)
  /\ store (world_of found) = store w.
Proof.
  intro Hf. cbn zeta.
  unfold DatabaseManager.find_duplicate.
  destruct w as [clk n flt log rep slog [q qs h hs c cs] sts].
  cbn [store_fault store_log clock clock_reads store duplicate_cache] in *.
  step_world. rewrite Hf. step_world.
  destruct (find _ c) as [row|] eqn:E; cbn [option_map].
  - apply find_some in E as [Hin Hrow].
    apply andb_true_iff in Hrow as [Hfp Hexp].
    apply str_eqb_eq in Hfp. apply Z.ltb_lt in Hexp.
    split; [|split; [|reflexivity]].
    + intros entry [= <-]. exists row. auto.
    + split; [discriminate|].
      intro Hall. specialize (Hall row Hin Hfp). lia.
  - split; [discriminate|]. split; [|reflexivity].
    split; [|reflexivity].
    intros _ row Hin Hfp.
    pose proof (find_none _ _ E row Hin) as Hrow. cbn beta in Hrow.
    rewrite Hfp, str_eqb_refl in Hrow. cbn [andb] in Hrow.
    apply Z.ltb_ge in Hrow. exact Hrow.
Qed.

Lemma find_duplicate_unexpired_only_witness :
  value_of (DatabaseManager.find_duplicate (lit "abc")
              (world_with empty_store never always_accepted))
  = Some None.
Proof.
  destruct (find_duplicate_unexpired_only (lit "abc")
              (world_with empty_store never always_accepted) eq_refl)
    as [_ [H _]].
  apply H. intros row [].
Defined.

Lemma filter_other_keys (fingerprint : str) (cache : list CacheRow.t) :
  ~ In fingerprint
       (map CacheRow.fingerprint
            (filter (fun r => negb (str_eqb (CacheRow.fingerprint r) fingerprint))
                    cache)).
Proof.
  intro Hin. apply in_map_iff in Hin as [row [Hfp Hin]].
  apply filter_In in Hin as [_ Hkeep].
  rewrite Hfp, str_eqb_refl in Hkeep. discriminate.
Qed.

(** X9. The cache is keyed by fingerprint and the latest write wins:
    [add_duplicate_entry] keeps the fingerprints pairwise different in
    every world, and when the store answers it leaves one row with the
    entry's fingerprint, the new one, and the rows with other
    fingerprints as they were. *)
Theorem add_duplicate_entry_upserts
  (entry : DuplicateEntry.t) (ttl_seconds : Z) (w : World) :
  cache_keys_unique (store w) ->
  let w1 := world_of (DatabaseManager.add_duplicate_entry entry ttl_seconds w) in
  cache_keys_unique (store w1)
  /\ (store_fault w (length (store_log w)) = false ->
      exists row,
        duplicate_cache (store w1)
        = filter (fun r => negb (str_eqb (CacheRow.fingerprint r)
                                         (DuplicateEntry.fingerprint entry)))
                 (duplicate_cache (store w))
          ++ [row]
        /\ filter (fun r => str_eqb (CacheRow.fingerprint r)
                                    (DuplicateEntry.fingerprint entry))
                  (duplicate_cache (store w1))
           = [row]
        /\ CacheRow.fingerprint row = DuplicateEntry.fingerprint entry
        /\ CacheRow.artist row = DuplicateEntry.artist entry
        /\ CacheRow.title row = DuplicateEntry.title entry
        /\ CacheRow.timestamp row = DuplicateEntry.timestamp entry
        /\ CacheRow.expires_at row = clock w (clock_reads w) + ttl_seconds).
Proof.
  intro Hu. cbn zeta. unfold cache_keys_unique in *.
  unfold DatabaseManager.add_duplicate_entry.
  destruct w as [clk n flt log rep slog [q qs h hs c cs] sts].
  cbn [store duplicate_cache store_fault store_log clock clock_reads] in *.
  step_world.
  destruct (flt (length log)); step_world.
  - split; [exact Hu|discriminate].
  - split.
    + rewrite map_app. cbn [map CacheRow.fingerprint].
      apply NoDup_app; [apply NoDup_map_filter; exact Hu
                       |repeat constructor; intros []|].
      intros x Hx [<-|[]]. exact (filter_other_keys _ _ Hx).
    + intros _. eexists. split; [reflexivity|].
      split; [|repeat split; reflexivity].
      rewrite filter_app. cbn [filter CacheRow.fingerprint].
      rewrite str_eqb_refl.
      replace (filter _ (filter _ c)) with (@nil CacheRow.t); [reflexivity|].
      symmetry. induction c as [|r c IH]; [reflexivity|].
      inversion Hu as [|x xs _ Hnd]; subst.
      cbn [filter]. destruct (str_eqb (CacheRow.fingerprint r)
                                      (DuplicateEntry.fingerprint entry)) eqn:E;
        cbn [negb]; [apply IH; exact Hnd|].
      cbn [filter]. rewrite E. apply IH. exact Hnd.
Qed.

Lemma add_duplicate_entry_upserts_witness :
  cache_keys_unique
    (store (world_of (DatabaseManager.add_duplicate_entry
                        (DuplicateEntry.mk (lit "abc") (lit "Artist") (lit "Song")
                                           1700000000 1%float None)
                        900
                        (world_with empty_store never always_accepted)))).
Proof.
  apply (add_duplicate_entry_upserts
           (DuplicateEntry.mk (lit "abc") (lit "Artist") (lit "Song")
                              1700000000 1%float None)
           900 (world_with empty_store never always_accepted)).
  constructor.
Defined.

(** ** The detector as its callers see it *)

Section DetectorCallers.
Context {hashlib : Hashlib} {difflib : Difflib}.


Lemma scan_recent_fingerprint (self : DuplicateDetector.t) (r : RecognitionResult.t)
      (fingerprint : str) (current_time cutoff_time : Z)
      (rows : list HistoryRow.t) :
  DuplicateCheck.fingerprint
    (DuplicateDetector.scan_recent self r fingerprint current_time cutoff_time rows)
  = Some fingerprint.
Proof.
  rewrite scan_recent_first.
  destruct (find _ rows); reflexivity.
Qed.

(** X11. A check never writes: whatever the store and the clock do, the
    tables, the sink log and the counters are after [is_duplicate] what
    they were before. *)
Theorem is_duplicate_reads_only
  (self : DuplicateDetector.t) (r : RecognitionResult.t) (w : World) :
  store (world_of (DuplicateDetector.is_duplicate self r w)) = store w
  /\ sink_log (world_of (DuplicateDetector.is_duplicate self r w)) = sink_log w
  /\ stats (world_of (DuplicateDetector.is_duplicate self r w)) = stats w.
Proof.
  unfold DuplicateDetector.is_duplicate, DuplicateDetector._check_similar_tracks,
    DatabaseManager.find_duplicate, DatabaseManager.get_recent_stats,
    DatabaseManager.get_recent_scrobbles.
  destruct w as [clk n flt log rep slog s sts].
  destruct (DuplicateDetector.enabled self); cbn [negb];
    [|repeat split; reflexivity].
  destruct (negb (RecognitionResult.success r)
            || negb (Py.truthy_opt (RecognitionResult.artist r))
            || negb (Py.truthy_opt (RecognitionResult.title r)));
    [repeat split; reflexivity|].
  step_world.
  destruct (flt (length log)); step_world; [repeat split; reflexivity|].
  destruct (option_map _ _); step_world; [repeat split; reflexivity|].
  destruct (flt (length (log ++ _))); step_world; [repeat split; reflexivity|].
  destruct (flt (length ((log ++ _) ++ _))); step_world; repeat split; reflexivity.
Qed.

(** X12. Every check of a result the detector can cache carries the
    result's fingerprint, whether the answer is an exact hit, a fuzzy hit
    or a miss, so the caller can insert it. *)
Theorem check_carries_fingerprint
  (self : DuplicateDetector.t) (r : RecognitionResult.t) (w : World)
  (check : DuplicateCheck.t) :
  DuplicateDetector.enabled self = true ->
  RecognitionResult.success r = true ->
  Py.truthy_opt (RecognitionResult.artist r) = true ->
  Py.truthy_opt (RecognitionResult.title r) = true ->
  value_of (DuplicateDetector.is_duplicate self r w) = Some check ->
  DuplicateCheck.fingerprint check
  = Some (DuplicateDetector._create_fingerprint r).
Proof.
  intros He Hs Ha Ht.
  unfold DuplicateDetector.is_duplicate, DuplicateDetector._check_similar_tracks,
    DatabaseManager.find_duplicate, DatabaseManager.get_recent_stats,
    DatabaseManager.get_recent_scrobbles.
  rewrite He, Hs, Ha, Ht. cbn [negb orb].
  destruct w as [clk n flt log rep slog s sts].
  step_world.
  destruct (flt (length log)); step_world; [discriminate|].
  destruct (option_map _ _); step_world; [intros [= <-]; reflexivity|].
  destruct (flt (length (log ++ _))); step_world; [discriminate|].
  destruct (flt (length ((log ++ _) ++ _))); step_world; [discriminate|].
  intros [= <-]. apply scan_recent_fingerprint.
Qed.

End DetectorCallers.

Lemma check_carries_fingerprint_witness :
  DuplicateCheck.fingerprint
    (DuplicateCheck.mk true 1%float (Some 101)
       (Some (lit "artist", lit "SONG!"))
       (Some (@DuplicateDetector._create_fingerprint plain_hash
                (result_of "Artist" "Song" (Some 180)))))
  = Some (@DuplicateDetector._create_fingerprint plain_hash
            (result_of "Artist" "Song" (Some 180))).
Proof.
  apply (@check_carries_fingerprint plain_hash exact_ratio default_detector
           (result_of "Artist" "Song" (Some 180))
           (world_with (store_with_history [played_row]) never always_accepted));
    reflexivity.
Defined.

(** ** Rules for what computations leave alone *)

Section Respects.
Variable R : World -> World -> Prop.
Hypothesis R_refl : forall w, R w w.
Hypothesis R_trans : forall w1 w2 w3, R w1 w2 -> R w2 w3 -> R w1 w3.

Lemma respects_ret {A} (a : A) : respects R (ret a).
Proof. intro w. apply R_refl. Qed.

Lemma respects_raise {A} (e : Exn) : respects R (@raise A e).
Proof. intro w. apply R_refl. Qed.

Lemma respects_bind {A B} (m : M A) (k : A -> M B) :
  respects R m -> (forall a, respects R (k a)) -> respects R (bind m k).
Proof.
  intros Hm Hk w. unfold bind. specialize (Hm w).
  destruct (m w) as [a w1|e w1]; cbn [world_of] in *; [|exact Hm].
  eapply R_trans; [exact Hm|apply Hk].
Qed.

Lemma respects_try {A} (m : M A) (handler : Exn -> M A) :
  respects R m -> (forall e, respects R (handler e)) ->
  respects R (try_except m handler).
Proof.
  intros Hm Hh w. unfold try_except. specialize (Hm w).
  destruct (m w) as [a w1|e w1]; cbn [world_of] in *; [exact Hm|].
  eapply R_trans; [exact Hm|apply Hh].
Qed.

Lemma respects_if {A} (b : bool) (m1 m2 : M A) :
  respects R m1 -> respects R m2 -> respects R (if b then m1 else m2).
Proof. destruct b; auto. Qed.

Lemma respects_get {A} (f : World -> A) : respects R (get f).
Proof. intro w. apply R_refl. Qed.

End Respects.

Lemma total_ret {A} (a : A) : total (ret a).
Proof. intro w. unfold ret. eauto. Qed.

Lemma total_bind {A B} (m : M A) (k : A -> M B) :
  total m -> (forall a, total (k a)) -> total (bind m k).
Proof.
  intros Hm Hk w. unfold bind. destruct (Hm w) as [a [w1 E]]. rewrite E.
  apply Hk.
Qed.

Lemma total_try {A} (m : M A) (handler : Exn -> M A) :
  (forall e, total (handler e)) -> total (try_except m handler).
Proof.
  intros Hh w. unfold try_except. destruct (m w) as [a w1|e w1]; [eauto|].
  apply Hh.
Qed.

Lemma total_modify (f : World -> World) : total (modify f).
Proof. intro w. unfold modify. eauto. Qed.

Lemma total_if {A} (b : bool) (m1 m2 : M A) :
  total m1 -> total m2 -> total (if b then m1 else m2).
Proof. destruct b; auto. Qed.

(** *** The relations *)

Lemma same_store_refl (w : World) : same_store w w.
Proof. reflexivity. Qed.

Lemma same_store_trans (w1 w2 w3 : World) :
  same_store w1 w2 -> same_store w2 w3 -> same_store w1 w3.
Proof. unfold same_store. congruence. Qed.

Lemma retried_refl (row : QueueRow.t) : retried row row.
Proof. split; [destruct row; reflexivity|lia]. Qed.

Lemma retried_trans (a b c : QueueRow.t) : retried a b -> retried b c -> retried a c.
Proof.
  intros [E1 L1] [E2 L2]. split; [|lia].
  rewrite E2 at 1. rewrite E1. reflexivity.
Qed.

Lemma retried_bump (row : QueueRow.t) : retried row (DatabaseManager.bump row).
Proof. split; [reflexivity|cbn; lia]. Qed.

Lemma dwindles_refl (q : list QueueRow.t) : dwindles q q.
Proof.
  induction q as [|row q IH]; [constructor|].
  apply dw_keep; [apply retried_refl|exact IH].
Qed.

Lemma dwindles_trans (a b c : list QueueRow.t) :
  dwindles a b -> dwindles b c -> dwindles a c.
Proof.
  intro H. revert c. induction H as [|row q q' _ IH|row row' q q' Hr _ IH];
    intros c Hc.
  - exact Hc.
  - apply dw_drop. apply IH. exact Hc.
  - inversion Hc as [|x y z Hd|x x' y z Hr' Hd]; subst.
    + apply dw_drop. apply IH. exact Hd.
    + apply dw_keep; [eapply retried_trans; eassumption|apply IH; exact Hd].
Qed.

Lemma dwindles_filter (p : QueueRow.t -> bool) (q : list QueueRow.t) :
  dwindles q (filter p q).
Proof.
  induction q as [|row q IH]; [constructor|].
  simpl. destruct (p row);
    [apply dw_keep; [apply retried_refl|exact IH]|apply dw_drop; exact IH].
Qed.

Lemma dwindles_bump (p : QueueRow.t -> bool) (q : list QueueRow.t) :
  dwindles q (map (fun row => if p row then DatabaseManager.bump row else row) q).
Proof.
  induction q as [|row q IH]; [constructor|].
  simpl. apply dw_keep; [|exact IH].
  destruct (p row); [apply retried_bump|apply retried_refl].
Qed.

Lemma dwindles_length (q q' : list QueueRow.t) :
  dwindles q q' -> (length q' <= length q)%nat.
Proof. intro H. induction H; simpl; lia. Qed.

Lemma dwindles_ids (q q' : list QueueRow.t) :
  dwindles q q' -> incl (map QueueRow.id q') (map QueueRow.id q).
Proof.
  intro H. induction H as [|row q q' _ IH|row row' q q' [E _] _ IH]; simpl.
  - apply incl_refl.
  - apply incl_tl. exact IH.
  - rewrite E. cbn [with_retry_count QueueRow.id].
    apply incl_cons; [left; reflexivity|apply incl_tl; exact IH].
Qed.

Lemma queue_dwindles_refl (w : World) : queue_dwindles w w.
Proof. apply dwindles_refl. Qed.

Lemma queue_dwindles_trans (w1 w2 w3 : World) :
  queue_dwindles w1 w2 -> queue_dwindles w2 w3 -> queue_dwindles w1 w3.
Proof. apply dwindles_trans. Qed.

Lemma respects_weaken (R R' : World -> World -> Prop) {A} (m : M A) :
  (forall w w', R w w' -> R' w w') -> respects R m -> respects R' m.
Proof. intros H Hm w. apply H, Hm. Qed.

Lemma same_store_dwindles (w w' : World) : same_store w w' -> queue_dwindles w w'.
Proof. unfold same_store, queue_dwindles. intros ->. apply dwindles_refl. Qed.

Lemma same_store_time_now : respects same_store time_now.
Proof. intros [clk n flt log rep slog s sts]. reflexivity. Qed.

Lemma same_store_connect (call : StoreCall) : respects same_store (connect call).
Proof.
  intros [clk n flt log rep slog s sts]. unfold connect. step_world.
  destruct (flt (length log)); reflexivity.
Qed.

Lemma same_store_set_stats (g : World -> Stats.t) :
  respects same_store (modify (fun w => set_stats (g w) w)).
Proof. intros [clk n flt log rep slog s sts]. reflexivity. Qed.

Lemma same_store_network_scrobble (self : LastFMScrobbler.t) (submission : Submission.t) :
  respects same_store (LastFMScrobbler.network_scrobble self submission).
Proof.
  intros [clk n flt log rep slog s sts].
  unfold LastFMScrobbler.network_scrobble.
  destruct (LastFMScrobbler.network self); cbn [negb]; [|reflexivity].
  step_world. destruct (rep (length slog)); reflexivity.
Qed.

Lemma same_store_get_scrobble_queue (limit : nat) :
  respects same_store (DatabaseManager.get_scrobble_queue limit).
Proof.
  intros [clk n flt log rep slog s sts].
  unfold DatabaseManager.get_scrobble_queue. step_world.
  destruct (flt (length log)); reflexivity.
Qed.

Lemma same_store_attempt (self : LastFMScrobbler.t) (entry : ScrobbleEntry.t) :
  respects same_store (LastFMScrobbler._attempt_scrobble self entry).
Proof.
  unfold LastFMScrobbler._attempt_scrobble, LastFMScrobbler.or_time_now,
    LastFMScrobbler.count_attempted, LastFMScrobbler.count_network_error.
  apply (respects_try _ same_store_trans).
  - repeat first
      [ apply (respects_ret _ same_store_refl)
      | apply same_store_network_scrobble | apply same_store_time_now
      | apply same_store_set_stats
      | apply respects_if
      | apply (respects_bind _ same_store_trans); [|intro]
      | match goal with
        | |- respects _ (match ?x with _ => _ end) => destruct x
        end ].
  - intros [| |];
      repeat first
        [ apply (respects_ret _ same_store_refl) | apply same_store_set_stats
        | apply (respects_bind _ same_store_trans); [|intro] ].
Qed.

Lemma total_attempt (self : LastFMScrobbler.t) (entry : ScrobbleEntry.t) :
  total (LastFMScrobbler._attempt_scrobble self entry).
Proof.
  unfold LastFMScrobbler._attempt_scrobble,
    LastFMScrobbler.count_attempted, LastFMScrobbler.count_network_error.
  apply total_try. intros [| |];
    repeat first [ apply total_ret | apply total_modify
                 | apply total_bind; [|intro] ].
Qed.

Lemma dwindles_remove (entry_id : option Z) :
  respects queue_dwindles (DatabaseManager.remove_from_scrobble_queue entry_id).
Proof.
  intros [clk n flt log rep slog [q qs h hs c cs] sts].
  unfold DatabaseManager.remove_from_scrobble_queue, queue_dwindles. step_world.
  destruct (flt (length log)); step_world;
    [apply dwindles_refl|apply dwindles_filter].
Qed.

Lemma dwindles_increment (entry_id : option Z) :
  respects queue_dwindles (DatabaseManager.increment_retry_count entry_id).
Proof.
  intros [clk n flt log rep slog [q qs h hs c cs] sts].
  unfold DatabaseManager.increment_retry_count, queue_dwindles. step_world.
  destruct (flt (length log)); step_world;
    [apply dwindles_refl|].
  apply (dwindles_bump (fun row => DatabaseManager.id_is entry_id (QueueRow.id row))).
Qed.

Lemma dwindles_add_to_history (entry : ScrobbleEntry.t) (provider : str)
      (confidence : float) (metadata : option str) :
  respects queue_dwindles
    (DatabaseManager.add_to_history entry provider confidence metadata).
Proof.
  intros [clk n flt log rep slog [q qs h hs c cs] sts].
  unfold DatabaseManager.add_to_history, queue_dwindles. step_world.
  destruct (flt (length log)); step_world; [apply dwindles_refl|].
  destruct (ScrobbleEntry.timestamp entry); step_world; apply dwindles_refl.
Qed.

Ltac dwindles_step :=
  first
    [ apply (respects_ret _ queue_dwindles_refl)
    | apply dwindles_remove | apply dwindles_increment
    | apply dwindles_add_to_history
    | apply (respects_weaken same_store _ _ same_store_dwindles);
      first [ apply same_store_attempt | apply same_store_set_stats
            | apply same_store_get_scrobble_queue ]
    | apply respects_if
    | apply (respects_bind _ queue_dwindles_trans); [|intro] ].

Lemma dwindles_process_entry (self : LastFMScrobbler.t) (entry : ScrobbleEntry.t) :
  respects queue_dwindles (LastFMScrobbler.process_entry self entry).
Proof.
  unfold LastFMScrobbler.process_entry, LastFMScrobbler.count_successful,
    LastFMScrobbler.count_processed, LastFMScrobbler.count_failed.
  apply (respects_try _ queue_dwindles_trans).
  - repeat dwindles_step.
  - intro e. repeat dwindles_step.
Qed.

Lemma dwindles_process_entries (self : LastFMScrobbler.t)
      (entries : list ScrobbleEntry.t) :
  respects queue_dwindles (LastFMScrobbler.process_entries self entries).
Proof.
  induction entries as [|entry rest IH].
  - apply (respects_ret _ queue_dwindles_refl).
  - cbn [LastFMScrobbler.process_entries].
    apply respects_if; [apply (respects_ret _ queue_dwindles_refl)|].
    apply (respects_bind _ queue_dwindles_trans);
      [apply dwindles_process_entry|intro; exact IH].
Qed.

Lemma dwindles_drain (self : LastFMScrobbler.t) :
  respects queue_dwindles (LastFMScrobbler._process_scrobble_queue self).
Proof.
  unfold LastFMScrobbler._process_scrobble_queue.
  apply respects_if; [apply (respects_ret _ queue_dwindles_refl)|].
  apply (respects_bind _ queue_dwindles_trans).
  - apply (respects_weaken same_store _ _ same_store_dwindles).
    apply same_store_get_scrobble_queue.
  - intros [|entry rest]; [apply (respects_ret _ queue_dwindles_refl)|].
    apply dwindles_process_entries.
Qed.

Lemma dwindles_loop (self : LastFMScrobbler.t) (wakeups : nat) :
  respects queue_dwindles (LastFMScrobbler._scrobble_loop wakeups self).
Proof.
  induction wakeups as [|k IH].
  - apply (respects_ret _ queue_dwindles_refl).
  - cbn [LastFMScrobbler._scrobble_loop].
    apply respects_if; [apply (respects_ret _ queue_dwindles_refl)|].
    apply (respects_bind _ queue_dwindles_trans); [|intro; exact IH].
    apply (respects_try _ queue_dwindles_trans);
      [apply dwindles_drain|intro; apply (respects_ret _ queue_dwindles_refl)].
Qed.

(** X13. Whatever the store and the sink do, a pass of the drain loop,
    and any number of wake-ups of [_scrobble_loop], only deletes rows and
    raises retry counts: no row is added, no retry count goes down, no
    other column changes, the rows left keep their order, and the queue
    does not grow. *)
Theorem drain_only_dwindles (self : LastFMScrobbler.t) (wakeups : nat) (w : World) :
  dwindles (scrobble_queue (store w))
           (scrobble_queue
              (store (world_of (LastFMScrobbler._process_scrobble_queue self w))))
  /\ dwindles (scrobble_queue (store w))
              (scrobble_queue
                 (store (world_of (LastFMScrobbler._scrobble_loop wakeups self w))))
  /\ (length (scrobble_queue
                (store (world_of (LastFMScrobbler._scrobble_loop wakeups self w))))
      <= length (scrobble_queue (store w)))%nat.
Proof.
  split; [apply dwindles_drain|].
  split; [apply dwindles_loop|apply dwindles_length, dwindles_loop].
Qed.

(** ** Delivery attempts *)

(** X14. [_attempt_scrobble] never raises and never touches the store: it
    always returns a result, makes no store call, and hands at most one
    submission to the sink.  It reports success only when the sink
    accepted that submission, and then names the entry's id. *)
Theorem attempt_never_raises
  (self : LastFMScrobbler.t) (entry : ScrobbleEntry.t) (w : World) :
  exists result w',
    LastFMScrobbler._attempt_scrobble self entry w = Returned result w'
    /\ store w' = store w
    /\ store_log w' = store_log w
    /\ (sink_log w' = sink_log w
        \/ exists submission, sink_log w' = sink_log w ++ [submission])
    /\ (ScrobbleResult.success result = true ->
        sink_reply w (length (sink_log w)) = Accepted
        /\ sink_log w' <> sink_log w
        /\ ScrobbleResult.entry_id result = ScrobbleEntry.id entry).
Proof.
  unfold LastFMScrobbler._attempt_scrobble, LastFMScrobbler.network_scrobble,
    LastFMScrobbler.or_time_now, LastFMScrobbler.count_attempted,
    LastFMScrobbler.count_network_error.
  destruct w as [clk n flt log rep slog s sts].
  assert (Hne : forall x : Submission.t, slog ++ [x] <> slog).
  { intros x H. apply (f_equal (@length _)) in H.
    rewrite length_app in H. cbn in H. lia. }
  destruct (negb (Py.truthy (ScrobbleEntry.artist entry))
            || negb (Py.truthy (ScrobbleEntry.title entry)));
    [step_world; do 2 eexists; split; [reflexivity|];
     cbn; intuition (auto; discriminate)|].
  destruct (LastFMScrobbler.too_short self entry);
    [step_world; do 2 eexists; split; [reflexivity|];
     cbn; intuition (auto; discriminate)|].
  destruct (LastFMScrobbler.network self); cbn [negb];
    (destruct (ScrobbleEntry.timestamp entry) as [t|]; [destruct (t =? 0)|]);
    step_world;
    try (destruct (rep (length slog)) as [|code message|message] eqn:Er);
    step_world; do 2 eexists; (split; [reflexivity|]); cbn;
    repeat split; eauto; try discriminate; intros _; apply Hne.
Qed.

Lemma submittable_passes (self : LastFMScrobbler.t) (entry : ScrobbleEntry.t) :
  submittable self entry ->
  negb (Py.truthy (ScrobbleEntry.artist entry))
  || negb (Py.truthy (ScrobbleEntry.title entry)) = false
  /\ LastFMScrobbler.too_short self entry = false.
Proof.
  intros [Ha [Ht Hd]]. split.
  - destruct (ScrobbleEntry.artist entry); [contradiction|].
    destruct (ScrobbleEntry.title entry); [contradiction|]. reflexivity.
  - unfold LastFMScrobbler.too_short.
    destruct (ScrobbleEntry.duration entry) as [d|]; [|reflexivity].
    destruct Hd as [->|Hd]; [reflexivity|].
    apply andb_false_iff. right. apply Z.ltb_ge. exact Hd.
Qed.

(** X15. For an entry with artist and title whose duration is missing,
    zero or not below the minimum, one submission with the entry's fields
    reaches the sink and the answer decides the result: acceptance is a
    success that names the entry's id; every failure the library can
    report, a web-service error included, is a failure with the
    exception's message that asks for a retry.  The list of permanent
    error codes is never matched, since [pylast.WSError] has no
    [error_code] attribute. *)
Theorem attempt_follows_sink
  (self : LastFMScrobbler.t) (entry : ScrobbleEntry.t) (w : World) :
  submittable self entry ->
  LastFMScrobbler.network self = true ->
  from_pylast (sink_reply w (length (sink_log w))) = true ->
  exists w' timestamp,
    LastFMScrobbler._attempt_scrobble self entry w
    = Returned
        match sink_reply w (length (sink_log w)) with
        | Accepted => ScrobbleResult.mk true (ScrobbleEntry.id entry) None false
        | RaisesWSError _ message =>
            ScrobbleResult.mk false None (Some message) true
        | RaisesOther message => ScrobbleResult.mk false None (Some message) true
        end
        w'
    /\ sink_log w'
       = sink_log w
         ++ [Submission.mk (ScrobbleEntry.artist entry) (ScrobbleEntry.title entry)
                           timestamp (ScrobbleEntry.album entry)
                           (ScrobbleEntry.duration entry)
                           (ScrobbleEntry.track_number entry)
                           (ScrobbleEntry.mbid entry)]
    /\ (forall t, ScrobbleEntry.timestamp entry = Some t -> t <> 0 -> timestamp = t).
Proof.
  intros Hok Hnet Hlib.
  apply submittable_passes in Hok as [Hok Hshort].
  unfold LastFMScrobbler._attempt_scrobble, LastFMScrobbler.network_scrobble,
    LastFMScrobbler.or_time_now, LastFMScrobbler.count_attempted,
    LastFMScrobbler.count_network_error.
  rewrite Hok, Hshort, Hnet. cbn [negb].
  destruct w as [clk n flt log rep slog s sts].
  cbn [sink_reply sink_log] in Hlib.
  destruct (ScrobbleEntry.timestamp entry) as [t|]; [destruct (t =? 0) eqn:Et|];
    step_world;
    destruct (rep (length slog)) as [|[code|] message|message];
    try discriminate Hlib;
    step_world; do 2 eexists; (split; [reflexivity|]);
    (split; [reflexivity|]);
    intros t' E; try discriminate E; injection E as <-;
    intro Hn; try reflexivity;
    apply Z.eqb_eq in Et; contradiction.
Qed.

Lemma attempt_follows_sink_witness :
  exists w' timestamp,
    LastFMScrobbler._attempt_scrobble default_scrobbler
      (DatabaseManager.entry_of_row queued_row)
      (world_with (store_with_queue [queued_row]) never
                  (fun _ => RaisesWSError None (lit "Invalid session key")))
    = Returned (ScrobbleResult.mk false None (Some (lit "Invalid session key")) true)
               w'
    /\ sink_log w'
       = [Submission.mk (lit "Artist") (lit "Song") timestamp
                        (Some (lit "Album")) (Some 180) None None].
Proof.
  destruct (attempt_follows_sink default_scrobbler
              (DatabaseManager.entry_of_row queued_row)
              (world_with (store_with_queue [queued_row]) never
                          (fun _ => RaisesWSError None (lit "Invalid session key"))))
    as [w' [timestamp [E [Hs _]]]]; try reflexivity.
  - split; [discriminate|]. split; [discriminate|]. right. cbn. lia.
  - exists w', timestamp. split; [exact E|exact Hs].
Defined.

(** ** Outcomes of one queue entry *)

(** X16. An accepted submission ends the entry's life in the queue and
    starts its record: the loop body deletes the rows with its id and
    appends one history row with the entry's artist, title and timestamp,
    the time of the delivery, the provider name lastfm and confidence
    1.0. *)
Theorem delivered_entry_recorded
  (self : LastFMScrobbler.t) (entry : ScrobbleEntry.t) (timestamp : Z) (w : World) :
  fails_validation self entry = false ->
  LastFMScrobbler.network self = true ->
  ScrobbleEntry.timestamp entry = Some timestamp ->
  timestamp <> 0 ->
  sink_reply w (length (sink_log w)) = Accepted ->
  (forall k, (k < 2)%nat -> store_fault w (length (store_log w) + k) = false) ->
  exists w' row,
    LastFMScrobbler.process_entry self entry w = Returned tt w'
    /\ scrobble_queue (store w')
       = filter (fun queued => negb (DatabaseManager.id_is (ScrobbleEntry.id entry)
                                                           (QueueRow.id queued)))
                (scrobble_queue (store w))
    /\ scrobble_history (store w') = scrobble_history (store w) ++ [row]
    /\ HistoryRow.artist row = ScrobbleEntry.artist entry
    /\ HistoryRow.title row = ScrobbleEntry.title entry
    /\ HistoryRow.timestamp row = timestamp
    /\ HistoryRow.scrobbled_at row = clock w (clock_reads w)
    /\ HistoryRow.recognition_provider row = lit "lastfm"
    /\ HistoryRow.recognition_confidence row = 1%float
    /\ length (sink_log w') = S (length (sink_log w)).
Proof.
  intros Hok Hnet Ht Hnz Hrep Hf.
  pose proof (Hf 0%nat ltac:(lia)) as H0.
  pose proof (Hf 1%nat ltac:(lia)) as H1.
  rewrite Nat.add_0_r in H0.
  unfold fails_validation in Hok.
  apply orb_false_iff in Hok as [Hok Hshort].
  apply Z.eqb_neq in Hnz.
  unfold LastFMScrobbler.process_entry, LastFMScrobbler._attempt_scrobble,
    LastFMScrobbler.network_scrobble, LastFMScrobbler.or_time_now,
    LastFMScrobbler.count_attempted, LastFMScrobbler.count_network_error,
    LastFMScrobbler.count_successful, LastFMScrobbler.count_processed,
    DatabaseManager.remove_from_scrobble_queue, DatabaseManager.add_to_history.
  rewrite Hok, Hshort, Hnet, Ht, Hnz. cbn [negb].
  destruct w as [clk n flt log rep slog [q qs h hs c cs] sts].
  cbn [store_fault store_log sink_reply sink_log clock clock_reads] in *.
  step_world. rewrite Hrep. step_world.
  cbn [ScrobbleResult.success]. step_world. rewrite H0. step_world.
  rewrite length_app. cbn [length]. rewrite H1. step_world.
  do 2 eexists. split; [reflexivity|].
  cbn [store scrobble_queue scrobble_history sink_log].
  repeat split; try reflexivity.
  rewrite length_app. cbn. lia.
Qed.

Lemma delivered_entry_recorded_witness :
  exists w' row,
    LastFMScrobbler.process_entry default_scrobbler
      (DatabaseManager.entry_of_row queued_row)
      (world_with (store_with_queue [queued_row]) never always_accepted)
    = Returned tt w'
    /\ scrobble_queue (store w') = []
    /\ scrobble_history (store w') = [row]
    /\ HistoryRow.title row = lit "Song".
Proof.
  destruct (delivered_entry_recorded default_scrobbler
              (DatabaseManager.entry_of_row queued_row) 1699999000
              (world_with (store_with_queue [queued_row]) never always_accepted)
              eq_refl eq_refl eq_refl ltac:(discriminate) eq_refl
              (fun k _ => eq_refl))
    as [w' [row [E [Hq [Hh [_ [Ht _]]]]]]].
  exists w', row. auto.
Defined.

(** X17. A web-service error never ends an entry at once, whatever the
    error number Last.fm reported: the handler finds no [error_code] on
    [pylast.WSError], so the loop body treats the failure as one to retry.
    After the one failed submission a row with retries left stays, with
    its retry count raised by one; only a row that has used its retries up
    is deleted.  No history is written. *)
Theorem web_service_error_retried
  (self : LastFMScrobbler.t) (entry : ScrobbleEntry.t) (message : str) (w : World) :
  submittable self entry ->
  LastFMScrobbler.network self = true ->
  sink_reply w (length (sink_log w)) = RaisesWSError None message ->
  store_fault w (length (store_log w)) = false ->
  exists w',
    LastFMScrobbler.process_entry self entry w = Returned tt w'
    /\ scrobble_queue (store w')
       = (if ScrobbleEntry.retry_count entry <? LastFMScrobbler.max_retries self
          then map (fun row => if DatabaseManager.id_is (ScrobbleEntry.id entry)
                                                        (QueueRow.id row)
                               then DatabaseManager.bump row else row)
                   (scrobble_queue (store w))
          else filter (fun row => negb (DatabaseManager.id_is (ScrobbleEntry.id entry)
                                                              (QueueRow.id row)))
                      (scrobble_queue (store w)))
    /\ scrobble_history (store w') = scrobble_history (store w)
    /\ length (sink_log w') = S (length (sink_log w)).
Proof.
  intros Hok Hnet Hrep Hf.
  apply submittable_passes in Hok as [Hok Hshort].
  unfold LastFMScrobbler.process_entry, LastFMScrobbler._attempt_scrobble,
    LastFMScrobbler.network_scrobble, LastFMScrobbler.or_time_now,
    LastFMScrobbler.count_attempted, LastFMScrobbler.count_network_error,
    LastFMScrobbler.count_failed, LastFMScrobbler.count_processed,
    DatabaseManager.increment_retry_count,
    DatabaseManager.remove_from_scrobble_queue.
  rewrite Hok, Hshort, Hnet. cbn [negb].
  destruct w as [clk n flt log rep slog [q qs h hs c cs] sts].
  cbn [store_fault store_log sink_reply sink_log] in *.
  destruct (ScrobbleEntry.timestamp entry) as [t|]; [destruct (t =? 0)|];
    step_world; rewrite Hrep; step_world;
    cbn [LastFMScrobbler.code_in negb ScrobbleResult.success
         ScrobbleResult.should_retry andb];
    destruct (ScrobbleEntry.retry_count entry <? LastFMScrobbler.max_retries self);
    step_world; rewrite Hf; step_world;
    eexists; (split; [reflexivity|]);
    cbn [store scrobble_queue scrobble_history sink_log];
    repeat split; rewrite length_app; cbn; lia.
Qed.

Lemma web_service_error_retried_witness :
  exists w',
    LastFMScrobbler.process_entry default_scrobbler
      (DatabaseManager.entry_of_row queued_row)
      (world_with (store_with_queue [queued_row]) never
                  (fun _ => RaisesWSError None (lit "Invalid session key")))
    = Returned tt w'
    /\ scrobble_queue (store w') = [with_retry_count 1 queued_row].
Proof.
  destruct (web_service_error_retried default_scrobbler
              (DatabaseManager.entry_of_row queued_row)
              (lit "Invalid session key")
              (world_with (store_with_queue [queued_row]) never
                          (fun _ => RaisesWSError None (lit "Invalid session key"))))
    as [w' [E [Hq _]]]; try reflexivity.
  - split; [discriminate|]. split; [discriminate|]. right. cbn. lia.
  - exists w'. split; [exact E|exact Hq].
Defined.

(** X18. A scrobbler that is unavailable or has been stopped delivers
    nothing: a drain pass then leaves the tables and the sink log as they
    were, whatever the store does. *)
Theorem idle_scrobbler_delivers_nothing (self : LastFMScrobbler.t) (w : World) :
  LastFMScrobbler.is_available self = false
  \/ LastFMScrobbler._running self = false ->
  store (world_of (LastFMScrobbler._process_scrobble_queue self w)) = store w
  /\ sink_log (world_of (LastFMScrobbler._process_scrobble_queue self w))
     = sink_log w.
Proof.
  intro H. unfold LastFMScrobbler._process_scrobble_queue,
    DatabaseManager.get_scrobble_queue.
  destruct (LastFMScrobbler.is_available self); cbn [negb];
    [|split; reflexivity].
  destruct H as [H|H]; [discriminate|].
  destruct w as [clk n flt log rep slog s sts]. step_world.
  destruct (flt (length log)); step_world; [split; reflexivity|].
  destruct (map _ _) as [|entry rest]; [split; reflexivity|].
  cbn [LastFMScrobbler.process_entries]. rewrite H. split; reflexivity.
Qed.

Lemma idle_scrobbler_delivers_nothing_witness :
  store (world_of (LastFMScrobbler._process_scrobble_queue
                     (LastFMScrobbler.mk true 30 1000 300 5 true true false)
                     (world_with (store_with_queue [queued_row]) never
                                 always_accepted)))
  = store_with_queue [queued_row].
Proof.
  apply (idle_scrobbler_delivers_nothing
           (LastFMScrobbler.mk true 30 1000 300 5 true true false)
           (world_with (store_with_queue [queued_row]) never always_accepted)).
  right. reflexivity.
Defined.

(** ** The queue as its callers see it *)

(** X19. The queue never outgrows its limit: when it holds at most
    [max_queue_size] rows, it still does after [queue_scrobble] and after
    any number of wake-ups of the drain loop, whatever the store and the
    sink do. *)
Theorem queue_bound_kept
  (self : LastFMScrobbler.t) (r : RecognitionResult.t) (timestamp : option Z)
  (wakeups : nat) (w : World) :
  Z.of_nat (length (scrobble_queue (store w))) <= LastFMScrobbler.max_queue_size self ->
  Z.of_nat (length (scrobble_queue
                      (store (world_of (LastFMScrobbler.queue_scrobble
                                          self r timestamp w)))))
  <= LastFMScrobbler.max_queue_size self
  /\ Z.of_nat (length (scrobble_queue
                         (store (world_of (LastFMScrobbler._scrobble_loop
                                             wakeups self w)))))
     <= LastFMScrobbler.max_queue_size self.
Proof.
  intro Hb. split.
  - unfold LastFMScrobbler.queue_scrobble, DatabaseManager.get_queue_size,
      DatabaseManager.add_to_scrobble_queue, LastFMScrobbler.or_time_now.
    destruct w as [clk n flt log rep slog [q qs h hs c cs] sts].
    cbn [store scrobble_queue] in *.
    destruct (RecognitionResult.success r); cbn [negb]; [|exact Hb].
    destruct (negb (Py.truthy_opt (RecognitionResult.artist r))
              || negb (Py.truthy_opt (RecognitionResult.title r)));
      [exact Hb|].
    step_world. destruct (flt (length log)); step_world; [exact Hb|].
    destruct (LastFMScrobbler.max_queue_size self <=? Z.of_nat (length q)) eqn:E;
      [exact Hb|].
    apply Z.leb_gt in E.
    destruct timestamp as [t|]; [destruct (t =? 0)|];
      step_world; cbn [ScrobbleEntry.created_at ScrobbleEntry.timestamp];
      step_world;
      (destruct (flt (length (log ++ [CallGetQueueSize]))); step_world;
       [exact Hb|rewrite length_app; cbn [length]; lia]).
  - pose proof (dwindles_length _ _ (dwindles_loop self wakeups w)) as Hl.
    lia.
Qed.

Lemma queue_bound_kept_witness :
  Z.of_nat (length (scrobble_queue
                      (store (world_of (LastFMScrobbler.queue_scrobble
                                          default_scrobbler
                                          (result_of "Artist" "Song" (Some 180))
                                          None
                                          (world_with (store_with_queue [queued_row])
                                                      never always_accepted))))))
  <= 1000.
Proof.
  apply (queue_bound_kept default_scrobbler (result_of "Artist" "Song" (Some 180))
           None 0
           (world_with (store_with_queue [queued_row]) never always_accepted)).
  cbn. lia.
Defined.

(** X20. The two store failures of [queue_scrobble] end differently.  If
    the read of the queue size fails, the error is raised to the caller;
    if the size is read and the insert fails, the error is swallowed and
    the answer is [False].  Either way the store is as it was. *)
Theorem queue_scrobble_store_failures
  (self : LastFMScrobbler.t) (r : RecognitionResult.t)
  (timestamp : option Z) (w : World) :
  RecognitionResult.success r = true ->
  Py.truthy_opt (RecognitionResult.artist r) = true ->
  Py.truthy_opt (RecognitionResult.title r) = true ->
  let after := LastFMScrobbler.queue_scrobble self r timestamp w in
  (store_fault w (length (store_log w)) = true ->
   raised_with after = Some DatabaseError /\ store (world_of after) = store w)
  /\ (store_fault w (length (store_log w)) = false ->
      store_fault w (S (length (store_log w))) = true ->
      Z.of_nat (length (scrobble_queue (store w))) < LastFMScrobbler.max_queue_size self ->
      value_of after = Some false /\ store (world_of after) = store w).
Proof.
  intros Hs Ha Ht. cbn zeta.
  unfold LastFMScrobbler.queue_scrobble, DatabaseManager.get_queue_size,
    DatabaseManager.add_to_scrobble_queue, LastFMScrobbler.or_time_now.
  rewrite Hs, Ha, Ht. cbn [negb orb].
  destruct w as [clk n flt log rep slog [q qs h hs c cs] sts].
  cbn [store scrobble_queue store_fault store_log].
  split.
  - intro H0. step_world. rewrite H0. split; reflexivity.
  - intros H0 H1 Hroom. apply Z.leb_gt in Hroom.
    step_world. rewrite H0. step_world. rewrite Hroom.
    assert (Hlen : length (log ++ [CallGetQueueSize]) = S (length log))
      by (rewrite length_app; cbn; lia).
    destruct timestamp as [t|]; [destruct (t =? 0)|];
      step_world; cbn [ScrobbleEntry.created_at ScrobbleEntry.timestamp];
      step_world; rewrite Hlen, H1; split; reflexivity.
Qed.

Lemma queue_scrobble_store_failures_witness :
  raised_with
    (LastFMScrobbler.queue_scrobble default_scrobbler
       (result_of "Artist" "Song" (Some 180)) None
       (world_with empty_store (only_at 0) always_accepted))
  = Some DatabaseError.
Proof.
  destruct (queue_scrobble_store_failures default_scrobbler
              (result_of "Artist" "Song" (Some 180)) None
              (world_with empty_store (only_at 0) always_accepted)
              eq_refl eq_refl eq_refl)
    as [H _].
  apply H. reflexivity.
Defined.

Lemma attempt_never_raises_store
  (self : LastFMScrobbler.t) (entry : ScrobbleEntry.t) (w : World) :
  exists result w',
    LastFMScrobbler._attempt_scrobble self entry w = Returned result w'
    /\ store w' = store w
    /\ store_log w' = store_log w.
Proof.
  destruct (total_attempt self entry w) as [result [w' E]].
  exists result, w'. split; [exact E|].
  pose proof (same_store_attempt self entry w) as Hs.
  rewrite E in Hs. cbn [world_of] in Hs. split; [exact Hs|].
  revert E.
  unfold LastFMScrobbler._attempt_scrobble, LastFMScrobbler.network_scrobble,
    LastFMScrobbler.or_time_now, LastFMScrobbler.count_attempted,
    LastFMScrobbler.count_network_error.
  destruct w as [clk n flt log rep slog s sts].
  destruct (negb (Py.truthy (ScrobbleEntry.artist entry))
            || negb (Py.truthy (ScrobbleEntry.title entry)));
    [step_world; intros [= _ <-]; reflexivity|].
  destruct (LastFMScrobbler.too_short self entry);
    [step_world; intros [= _ <-]; reflexivity|].
  destruct (LastFMScrobbler.network self); cbn [negb];
    (destruct (ScrobbleEntry.timestamp entry) as [t|]; [destruct (t =? 0)|]);
    step_world;
    try (destruct (rep (length slog)) as [|code message|message]);
    step_world; intros [= _ <-]; reflexivity.
Qed.

(** X21. [scrobble_now] bypasses the queue altogether: it never raises,
    makes no store call and leaves the tables as they were.  When the
    scrobbler is unavailable it does nothing at all and answers with a
    failure that asks for a retry. *)
Theorem scrobble_now_bypasses_queue
  (self : LastFMScrobbler.t) (r : RecognitionResult.t)
  (timestamp : option Z) (w : World) :
  exists result w',
    LastFMScrobbler.scrobble_now self r timestamp w = Returned result w'
    /\ store w' = store w
    /\ store_log w' = store_log w
    /\ (LastFMScrobbler.is_available self = false ->
        w' = w
        /\ ScrobbleResult.success result = false
        /\ ScrobbleResult.should_retry result = true).
Proof.
  unfold LastFMScrobbler.scrobble_now.
  destruct (LastFMScrobbler.is_available self); cbn [negb];
    [|do 2 eexists; split; [reflexivity|]; cbn; auto].
  unfold bind.
  assert (Ht : exists t w0, LastFMScrobbler.or_time_now timestamp w = Returned t w0
                            /\ store w0 = store w /\ store_log w0 = store_log w).
  { unfold LastFMScrobbler.or_time_now.
    destruct w as [clk n flt log rep slog s sts].
    destruct timestamp as [t|]; [destruct (t =? 0)|];
      step_world; do 2 eexists; repeat split. }
  destruct Ht as [t [w0 [E [Hs Hl]]]]. rewrite E.
  destruct (attempt_never_raises_store self
              (ScrobbleEntry.mk (Py.or_empty (RecognitionResult.artist r))
                                (Py.or_empty (RecognitionResult.title r))
                                (RecognitionResult.album r) (Some t)
                                (RecognitionResult.duration r)
                                None None 0 None None) w0)
    as [result [w' [E' [Hs' Hl']]]].
  exists result, w'. split; [exact E'|].
  split; [congruence|]. split; [congruence|discriminate].
Qed.

(** ** Clearing the queue *)

Lemma filter_filter {A} (p q : A -> bool) (l : list A) :
  filter p (filter q l) = filter (fun x => q x && p x) l.
Proof.
  induction l as [|x l IH]; [reflexivity|].
  simpl. destruct (q x); simpl; [destruct (p x)|]; rewrite ?IH; reflexivity.
Qed.

Lemma clear_entries_all (rows : list QueueRow.t) :
  NoDup (map QueueRow.id rows) ->
  forall (count : Z) (w : World),
    reliable w ->
    incl rows (scrobble_queue (store w)) ->
    exists w',
      LastFMScrobbler.clear_entries (map DatabaseManager.entry_of_row rows) count w
      = Returned (count + Z.of_nat (length rows)) w'
      /\ scrobble_queue (store w')
         = filter (fun queued =>
                     negb (existsb (Z.eqb (QueueRow.id queued))
                                   (map QueueRow.id rows)))
                  (scrobble_queue (store w))
      /\ sink_log w' = sink_log w.
Proof.
  induction rows as [|row rest IH]; intros Hnd count w Hw Hin.
  - exists w. cbn. rewrite Z.add_0_r. split; [reflexivity|].
    split; [|reflexivity]. symmetry. apply filter_keeps_all.
    apply Forall_forall. reflexivity.
  - inversion Hnd as [|x xs Hnot Hnd']; subst.
    cbn [map LastFMScrobbler.clear_entries DatabaseManager.entry_of_row
         ScrobbleEntry.id].
    destruct (remove_reliable (Some (QueueRow.id row)) w (Hw _))
      as [w1 [E1 [Hq1 [Hf1 [_ [_ [Hs1 _]]]]]]].
    unfold bind. rewrite E1.
    assert (Hhit : existsb (fun r => DatabaseManager.id_is (Some (QueueRow.id row))
                                                           (QueueRow.id r))
                           (scrobble_queue (store w)) = true).
    { apply existsb_exists. exists row. split; [apply Hin; left; reflexivity|].
      cbn. apply Z.eqb_refl. }
    rewrite Hhit.
    assert (Hw1 : reliable w1) by (intro k; rewrite Hf1; apply Hw).
    assert (Hin1 : incl rest (scrobble_queue (store w1))).
    { intros r Hr. rewrite Hq1. apply filter_In. split; [apply Hin; right; exact Hr|].
      cbn. apply negb_true_iff, Z.eqb_neq. intro Heq. apply Hnot.
      rewrite <- Heq. apply in_map. exact Hr. }
    destruct (IH Hnd' (count + 1) w1 Hw1 Hin1) as [w' [E' [Hq' Hs']]].
    exists w'. split; [rewrite E'; f_equal; cbn [length]; lia|].
    split; [|congruence].
    rewrite Hq', Hq1, filter_filter. apply filter_ext. intro queued.
    cbn [DatabaseManager.id_is map existsb].
    destruct (QueueRow.id queued =? QueueRow.id row); reflexivity.
Qed.

(** X22. On a store that answers, [clear_queue] empties a queue of up to
    1000 rows with pairwise different ids and returns how many rows it
    held; no submission reaches the sink. *)
Theorem clear_queue_empties (w : World) :
  reliable w ->
  queue_ids_fresh (store w) ->
  (length (scrobble_queue (store w)) <= 1000)%nat ->
  exists w',
    LastFMScrobbler.clear_queue w
    = Returned (Z.of_nat (length (scrobble_queue (store w)))) w'
    /\ scrobble_queue (store w') = []
    /\ sink_log w' = sink_log w.
Proof.
  intros Hw [Hnd _] Hlen.
  unfold LastFMScrobbler.clear_queue, DatabaseManager.get_scrobble_queue.
  set (sorted := DatabaseManager.order_by QueueRow.created_at
                   (scrobble_queue (store w))).
  assert (Hperm : Permutation (scrobble_queue (store w)) sorted)
    by apply order_by_perm.
  assert (Hall : firstn 1000 sorted = sorted).
  { apply firstn_all2. rewrite <- (Permutation_length Hperm). exact Hlen. }
  destruct w as [clk n flt log rep slog [q qs h hs c cs] sts].
  cbn [store scrobble_queue] in *.
  step_world. rewrite (Hw _). step_world. fold sorted. rewrite Hall.
  set (w0 := mkWorld clk n flt (log ++ [CallGetScrobbleQueue]) rep slog
                     (mkStore q qs h hs c cs) sts).
  assert (Hw0 : reliable w0) by (intro k; apply (Hw k)).
  destruct (clear_entries_all sorted) with (count := 0) (w := w0)
    as [w' [E [Hq Hs]]].
  - eapply Permutation_NoDup; [|exact Hnd]. apply Permutation_map. exact Hperm.
  - exact Hw0.
  - intros r Hr. cbn. eapply Permutation_in; [symmetry; exact Hperm|exact Hr].
  - exists w'. rewrite E. split.
    + f_equal. cbn. f_equal. symmetry. apply Permutation_length. exact Hperm.
    + split; [|exact Hs]. rewrite Hq. cbn [w0 store scrobble_queue].
      assert (Hnone : forall l : list QueueRow.t,
                 Forall (fun x => In x sorted) l ->
                 filter (fun queued =>
                           negb (existsb (Z.eqb (QueueRow.id queued))
                                         (map QueueRow.id sorted))) l = []).
      { intros l Hl. induction Hl as [|x l Hx _ IHl]; [reflexivity|].
        cbn [filter].
        assert (Hx' : existsb (Z.eqb (QueueRow.id x)) (map QueueRow.id sorted) = true).
        { apply existsb_exists. exists (QueueRow.id x).
          split; [apply in_map; exact Hx|apply Z.eqb_refl]. }
        rewrite Hx'. exact IHl. }
      apply Hnone. apply Forall_forall. intros x Hx.
      eapply Permutation_in; [exact Hperm|exact Hx].
Qed.

Lemma clear_queue_empties_witness :
  exists w',
    LastFMScrobbler.clear_queue
      (world_with (store_with_queue [queued_row]) never always_accepted)
    = Returned 1 w'
    /\ scrobble_queue (store w') = [].
Proof.
  destruct (clear_queue_empties
              (world_with (store_with_queue [queued_row]) never always_accepted))
    as [w' [E [Hq _]]].
  - intro k. reflexivity.
  - split; cbn; repeat constructor; [intros []|cbn; lia].
  - cbn. lia.
  - exists w'. split; [exact E|exact Hq].
Defined.

(** ** Cache maintenance *)

Ltac step_job :=
  unfold Maintenance.cleanup_expired, Maintenance.cleanup_expired_duplicates,
         Maintenance.guarded, Maintenance.and_then, Maintenance.pure,
         Maintenance.lift, Maintenance.connect, Maintenance.set_duplicate_cache;
  step_world;
  cbn [Maintenance.world Maintenance.fault Maintenance.log
       Maintenance.state_of];
  step_world.

Lemma find_filter_implied {A} (p q : A -> bool) (l : list A) :
  (forall x, p x = true -> q x = true) ->
  find p (filter q l) = find p l.
Proof.
  intro H. induction l as [|x l IH]; [reflexivity|].
  simpl. destruct (q x) eqn:Eq; simpl.
  - destruct (p x); [reflexivity|exact IH].
  - destruct (p x) eqn:Ep; [|exact IH].
    rewrite (H x Ep) in Eq. discriminate.
Qed.

Lemma filter_split_length {A} (p : A -> bool) (l : list A) :
  length l = (length (filter p l) + length (filter (fun x => negb (p x)) l))%nat.
Proof.
  induction l as [|x l IH]; [reflexivity|].
  simpl. destruct (p x); simpl; lia.
Qed.

(** What [cleanup_expired] does to the state, in both cases. *)
Lemma cleanup_expired_run (s : Maintenance.State) :
  let w := Maintenance.world s in
  let t := clock w (clock_reads w) in
  let cache := duplicate_cache (store w) in
  exists count cache',
    Maintenance.cleanup_expired s
    = Maintenance.Finished count
        (Maintenance.mk
           (set_store
              (mkStore (scrobble_queue (store w)) (queue_seq (store w))
                       (scrobble_history (store w)) (history_seq (store w))
                       cache' (cache_seq (store w)))
              (set_clock_reads (S (clock_reads w)) w))
           (Maintenance.fault s)
           (Maintenance.log s ++ [Maintenance.CallCleanupExpiredDuplicates]))
    /\ (if Maintenance.fault s (length (Maintenance.log s))
        then count = 0 /\ cache' = cache
        else count = Z.of_nat (length (filter (Maintenance.expired t) cache))
             /\ cache' = filter (fun row => negb (Maintenance.expired t row)) cache).
Proof.
  destruct s as [[clk n flt log rep slog [q qs h hs c cs] sts] mf ml].
  cbn zeta. step_job.
  destruct (mf (length ml)); step_job.
  - exists 0, c. split; [reflexivity|split; reflexivity].
  - eexists; eexists. split; [reflexivity|split; reflexivity].
Qed.

(** X23. [cleanup_expired] never raises and reports what it removed: the
    cache shrinks by exactly the returned count (0 when the store fails),
    the rows left are rows that were there, and the queue and the history
    are not touched. *)
Theorem cleanup_expired_counts_removed (s : Maintenance.State) :
  exists count s',
    Maintenance.cleanup_expired s = Maintenance.Finished count s'
    /\ 0 <= count
    /\ Z.of_nat (length (duplicate_cache (store (Maintenance.world s))))
       = count + Z.of_nat (length (duplicate_cache (store (Maintenance.world s'))))
    /\ incl (duplicate_cache (store (Maintenance.world s')))
            (duplicate_cache (store (Maintenance.world s)))
    /\ scrobble_queue (store (Maintenance.world s'))
       = scrobble_queue (store (Maintenance.world s))
    /\ scrobble_history (store (Maintenance.world s'))
       = scrobble_history (store (Maintenance.world s)).
Proof.
  destruct (cleanup_expired_run s) as [count [cache' [Hrun Hcase]]].
  exists count. eexists. split; [exact Hrun|].
  cbn [Maintenance.world store set_store duplicate_cache scrobble_queue
       scrobble_history].
  destruct (Maintenance.fault s (length (Maintenance.log s))).
  - destruct Hcase as [-> ->].
    repeat split; try reflexivity; try lia. apply incl_refl.
  - destruct Hcase as [-> ->].
    repeat split; try reflexivity.
    + lia.
    + rewrite (filter_split_length
                 (Maintenance.expired
                    (clock (Maintenance.world s)
                           (clock_reads (Maintenance.world s))))
                 (duplicate_cache (store (Maintenance.world s)))) at 1.
      lia.
    + apply incl_filter.
Qed.

(** X24. Cleaning up does not change what a lookup answers: when the clock
    does not run backwards between the two readings, [find_duplicate]
    after [cleanup_expired] answers as it would have without the cleanup,
    whether the cleanup's store call failed or not. *)
Theorem cleanup_keeps_lookups (fingerprint : str) (s : Maintenance.State) :
  let w := Maintenance.world s in
  clock w (clock_reads w) <= clock w (S (clock_reads w)) ->
  value_of (DatabaseManager.find_duplicate fingerprint
              (Maintenance.world
                 (Maintenance.state_of (Maintenance.cleanup_expired s))))
  = value_of (DatabaseManager.find_duplicate fingerprint
                (set_clock_reads (S (clock_reads w)) w)).
Proof.
  cbn zeta. intro Hclock.
  destruct (cleanup_expired_run s) as [count [cache' [Hrun Hcase]]].
  rewrite Hrun. cbn [Maintenance.state_of Maintenance.world].
  destruct s as [[clk n flt log rep slog [q qs h hs c cs] sts] mf ml].
  cbn [Maintenance.world Maintenance.fault Maintenance.log clock clock_reads
       store duplicate_cache scrobble_queue queue_seq scrobble_history
       history_seq cache_seq] in *.
  unfold DatabaseManager.find_duplicate. step_world.
  destruct (flt (length log)); [reflexivity|]. step_world.
  destruct (mf (length ml)); destruct Hcase as [_ ->]; [reflexivity|].
  rewrite find_filter_implied; [reflexivity|].
  intros row Hrow. apply andb_true_iff in Hrow as [_ Hexp].
  apply Z.ltb_lt in Hexp. unfold Maintenance.expired.
  apply negb_true_iff, Z.leb_gt. lia.
Qed.

Lemma cleanup_keeps_lookups_witness :
  value_of (DatabaseManager.find_duplicate (lit "def")
              (Maintenance.world
                 (Maintenance.state_of
                    (Maintenance.cleanup_expired
                       (Maintenance.start
                          (world_with (store_with_cache [stale_row; fresh_row])
                                      never always_accepted)
                          never)))))
  = value_of (DatabaseManager.find_duplicate (lit "def")
                (set_clock_reads 1
                   (world_with (store_with_cache [stale_row; fresh_row])
                               never always_accepted))).
Proof.
  apply (cleanup_keeps_lookups (lit "def")
           (Maintenance.start
              (world_with (store_with_cache [stale_row; fresh_row])
                          never always_accepted)
              never)).
  cbn. lia.
Defined.

Lemma find_all_expired (fingerprint : str) (t : Z) (cache : list CacheRow.t) :
  Forall (fun row => CacheRow.expires_at row = 0) cache ->
  0 <= t ->
  find (fun row => str_eqb (CacheRow.fingerprint row) fingerprint
                   && (t <? CacheRow.expires_at row)) cache
  = None.
Proof.
  intros Hall Ht. induction Hall as [|row cache Hrow _ IH]; [reflexivity|].
  simpl. rewrite Hrow.
  replace (t <? 0) with false by (symmetry; apply Z.ltb_ge; exact Ht).
  rewrite andb_false_r. exact IH.
Qed.

Lemma expire_all_expired (cache : list CacheRow.t) :
  Forall (fun row => CacheRow.expires_at row = 0) (map Maintenance.expire cache).
Proof.
  induction cache as [|row cache IH]; constructor; [reflexivity|exact IH].
Qed.

Lemma filter_all_expired (t : Z) (cache : list CacheRow.t) :
  Forall (fun row => CacheRow.expires_at row = 0) cache ->
  0 <= t ->
  filter (fun row => negb (Maintenance.expired t row)) cache = [].
Proof.
  intros Hall Ht. induction Hall as [|row cache Hrow _ IH]; [reflexivity|].
  simpl. unfold Maintenance.expired at 1. rewrite Hrow.
  replace (0 <=? t) with true by (symmetry; apply Z.leb_le; exact Ht).
  exact IH.
Qed.

(** X25. [clear_cache] never raises, and it forgets the tracks as soon as
    its UPDATE goes through: it returns the number of rows of the cache,
    and from then on no lookup made at a non-negative clock reading finds
    anything, even if the clean-up that follows fails and leaves the rows
    in the table; when the clean-up answers too the table is empty.  When
    the UPDATE fails it returns 0 and the cache is as it was.  The queue
    and the history are never touched. *)
Theorem clear_cache_forgets (s : Maintenance.State) :
  let w := Maintenance.world s in
  let calls := length (Maintenance.log s) in
  exists count s',
    Maintenance.clear_cache s = Maintenance.Finished count s'
    /\ scrobble_queue (store (Maintenance.world s')) = scrobble_queue (store w)
    /\ scrobble_history (store (Maintenance.world s')) = scrobble_history (store w)
    /\ (Maintenance.fault s calls = true ->
        count = 0
        /\ duplicate_cache (store (Maintenance.world s'))
           = duplicate_cache (store w))
    /\ (Maintenance.fault s calls = false ->
        count = Z.of_nat (length (duplicate_cache (store w)))
        /\ (forall fingerprint w',
               store w' = store (Maintenance.world s') ->
               0 <= clock w' (clock_reads w') ->
               store_fault w' (length (store_log w')) = false ->
               value_of (DatabaseManager.find_duplicate fingerprint w')
               = Some None)
        /\ (Maintenance.fault s (S calls) = false ->
            0 <= clock w (S (clock_reads w)) ->
            duplicate_cache (store (Maintenance.world s')) = [])).
Proof.
  destruct s as [[clk n flt log rep slog [q qs h hs c cs] sts] mf ml].
  cbn zeta. unfold Maintenance.clear_cache. step_job.
  destruct (mf (length ml)) eqn:E1; step_job.
  - eexists; eexists. split; [reflexivity|].
    cbn [Maintenance.world store scrobble_queue scrobble_history duplicate_cache].
    repeat split; discriminate.
  - rewrite length_app, Nat.add_comm. cbn [length Nat.add].
    assert (Hlookup : forall cache' fingerprint w',
               Forall (fun row => CacheRow.expires_at row = 0) cache' ->
               store w' = mkStore q qs h hs cache' cs ->
               0 <= clock w' (clock_reads w') ->
               store_fault w' (length (store_log w')) = false ->
               value_of (DatabaseManager.find_duplicate fingerprint w')
               = Some None).
    { intros cache' fingerprint
             [clk' n' flt' log' rep' slog' st' sts'] Hall Hst Ht Hf.
      cbn [store clock clock_reads store_fault store_log] in *. subst st'.
      unfold DatabaseManager.find_duplicate. step_world.
      rewrite Hf. step_world.
      rewrite (find_all_expired fingerprint (clk' n') cache' Hall Ht).
      reflexivity. }
    destruct (mf (S (length ml))) eqn:E2; step_job;
      (eexists; eexists; split; [reflexivity|]);
      cbn [Maintenance.world store scrobble_queue scrobble_history
           duplicate_cache];
      (split; [reflexivity|]); (split; [reflexivity|]);
      (split; [discriminate|]); intros _; (split; [reflexivity|]); split.
    + intros fingerprint w'. apply Hlookup, expire_all_expired.
    + discriminate.
    + intros fingerprint w'.
      apply Hlookup, Forall_filter, expire_all_expired.
    + intros _ Ht. apply filter_all_expired; [apply expire_all_expired|exact Ht].
Qed.

Lemma describe_rows_run (rows : list CacheRow.t) (s : Maintenance.State) :
  exists infos s',
    Maintenance.describe_rows rows s = Maintenance.Finished infos s'
    /\ store (Maintenance.world s') = store (Maintenance.world s)
    /\ Forall2 describes infos rows.
Proof.
  revert s. induction rows as [|row rows IH]; intro s.
  - exists [], s. repeat split. constructor.
  - cbn [Maintenance.describe_rows]. step_job.
    destruct (IH (Maintenance.mk
                    (mkWorld (clock (Maintenance.world s))
                             (S (clock_reads (Maintenance.world s)))
                             (store_fault (Maintenance.world s))
                             (store_log (Maintenance.world s))
                             (sink_reply (Maintenance.world s))
                             (sink_log (Maintenance.world s))
                             (store (Maintenance.world s))
                             (stats (Maintenance.world s)))
                    (Maintenance.fault s) (Maintenance.log s)))
      as [infos [s' [Hrun [Hstore Hall]]]].
    rewrite Hrun. eexists; eexists. split; [reflexivity|].
    split; [exact Hstore|].
    constructor; [repeat split|exact Hall].
Qed.

Lemma limit_rows_length {A} (limit : Z) (rows : list A) :
  0 <= limit -> (length (Maintenance.limit_rows limit rows) <= Z.to_nat limit)%nat.
Proof.
  intro H. unfold Maintenance.limit_rows.
  replace (limit <? 0) with false by (symmetry; apply Z.ltb_ge; exact H).
  apply firstn_le_length.
Qed.

Lemma limit_rows_incl {A} (limit : Z) (rows : list A) :
  incl (Maintenance.limit_rows limit rows) rows.
Proof.
  unfold Maintenance.limit_rows. destruct (limit <? 0); [apply incl_refl|].
  intros x Hx. rewrite <- (firstn_skipn (Z.to_nat limit) rows).
  apply in_or_app. left. exact Hx.
Qed.

Lemma StronglySorted_firstn {A} (R : A -> A -> Prop) (n : nat) (l : list A) :
  StronglySorted R l -> StronglySorted R (firstn n l).
Proof.
  revert l. induction n as [|n IH]; intros l H; [constructor|].
  destruct H as [|x l Hl Hx]; [constructor|].
  cbn [firstn]. constructor; [apply IH, Hl|].
  apply Forall_forall. intros y Hy.
  apply (proj1 (Forall_forall _ _) Hx).
  rewrite <- (firstn_skipn n l). apply in_or_app. left. exact Hy.
Qed.

Lemma limit_rows_sorted {A} (R : A -> A -> Prop) (limit : Z) (rows : list A) :
  StronglySorted R rows -> StronglySorted R (Maintenance.limit_rows limit rows).
Proof.
  intro H. unfold Maintenance.limit_rows.
  destruct (limit <? 0); [exact H|apply StronglySorted_firstn, H].
Qed.

Lemma describes_sorted (infos : list Maintenance.FingerprintInfo)
      (rows : list CacheRow.t) :
  Forall2 describes infos rows ->
  StronglySorted (fun a b => - CacheRow.timestamp a <= - CacheRow.timestamp b) rows ->
  StronglySorted
    (fun a b => Maintenance.info_timestamp b <= Maintenance.info_timestamp a) infos.
Proof.
  intro H. induction H as [|info row infos rows Hd Hrest IH]; intro Hs;
    [constructor|].
  inversion Hs as [|? ? Hs' Hrow]; subst.
  constructor; [apply IH, Hs'|].
  clear IH Hs Hs'. induction Hrest as [|i r infos' rows' Hir _ IH]; [constructor|].
  inversion Hrow as [|? ? Hr Hrow']; subst.
  constructor; [|apply IH, Hrow'].
  destruct Hd as [_ [_ [_ [-> _]]]]. destruct Hir as [_ [_ [_ [-> _]]]]. lia.
Qed.

(** X26. [get_recent_fingerprints] never raises and never writes.  When its
    query fails it answers the empty list.  What it answers holds at most
    [limit] dicts (all of them when [limit] is negative), each the fields
    of a cache row not yet expired at the reading of the clock, the latest
    timestamp first. *)
Theorem recent_fingerprints_unexpired_newest_first
  (limit : Z) (s : Maintenance.State) :
  let w := Maintenance.world s in
  exists infos s',
    Maintenance.get_recent_fingerprints limit s = Maintenance.Finished infos s'
    /\ store (Maintenance.world s') = store w
    /\ (Maintenance.fault s (length (Maintenance.log s)) = true -> infos = [])
    /\ (0 <= limit -> (length infos <= Z.to_nat limit)%nat)
    /\ Forall (fun info =>
                 exists row,
                   In row (duplicate_cache (store w))
                   /\ describes info row
                   /\ clock w (clock_reads w) < CacheRow.expires_at row)
              infos
    /\ StronglySorted
         (fun a b => Maintenance.info_timestamp b <= Maintenance.info_timestamp a)
         infos
    /\ (Maintenance.fault s (length (Maintenance.log s)) = false ->
        (limit < 0
         \/ (length (filter (fun row => (clock w (clock_reads w)
                                         <? CacheRow.expires_at row)%Z)
                            (duplicate_cache (store w)))
             <= Z.to_nat limit)%nat) ->
        forall row,
          In row (duplicate_cache (store w)) ->
          clock w (clock_reads w) < CacheRow.expires_at row ->
          exists info, In info infos /\ describes info row).
Proof.
  cbn zeta. unfold Maintenance.get_recent_fingerprints.
  destruct s as [[clk n flt log rep slog st sts] mf ml].
  step_job.
  destruct (mf (length ml)) eqn:E1; step_job.
  - eexists; eexists. split; [reflexivity|].
    repeat split; try constructor; try discriminate.
    intros _. cbn. lia.
  - set (rows := Maintenance.limit_rows limit _).
    match goal with
    | |- context [Maintenance.describe_rows rows ?s0] =>
        destruct (describe_rows_run rows s0) as [infos [s' [Hrun [Hstore Hall]]]]
    end.
    rewrite Hrun. exists infos, s'. split; [reflexivity|].
    cbn [Maintenance.world store] in Hstore.
    split; [exact Hstore|]. split; [discriminate|].
    assert (Hrows : forall row, In row rows ->
                In row (duplicate_cache st) /\ clk n < CacheRow.expires_at row).
    { intros row Hin. apply limit_rows_incl in Hin.
      apply order_by_in, order_by_in, filter_In in Hin as [Hin Hexp].
      apply Z.ltb_lt in Hexp. split; assumption. }
    split; [|split; [|split]].
    + intro Hl. rewrite (Forall2_length Hall). apply limit_rows_length, Hl.
    + clear Hrun. induction Hall as [|info row infos rows' Hd _ IH];
        constructor.
      * exists row. destruct (Hrows row (or_introl eq_refl)) as [Hin Hexp].
        repeat split; try apply Hd; assumption.
      * apply IH. intros r Hr. apply Hrows. right. exact Hr.
    + apply (describes_sorted infos rows Hall).
      apply limit_rows_sorted, order_by_sorted.
    + intros _ Hall_fit row Hin Hexp.
      assert (Hrow : In row rows).
      { unfold rows, Maintenance.limit_rows.
        assert (Hsorted : In row (DatabaseManager.order_by
                                    (fun row => - CacheRow.timestamp row)
                                    (DatabaseManager.order_by CacheRow.expires_at
                                       (filter (fun row => clk n <? CacheRow.expires_at row)
                                               (duplicate_cache st))))).
        { apply order_by_in, order_by_in, filter_In. split; [exact Hin|].
          apply Z.ltb_lt, Hexp. }
        destruct (limit <? 0) eqn:El; [exact Hsorted|].
        destruct Hall_fit as [Hneg|Hfit];
          [apply Z.ltb_ge in El; lia|].
        rewrite firstn_all2; [exact Hsorted|].
        rewrite <- (Permutation_length (order_by_perm _ _)).
        rewrite <- (Permutation_length (order_by_perm _ _)). exact Hfit. }
      clear - Hall Hrow.
      induction Hall as [|info r infos rows' Hd _ IH]; [destruct Hrow|].
      destruct Hrow as [->|Hrow].
      * exists info. split; [left; reflexivity|exact Hd].
      * destruct (IH Hrow) as [i [Hi Hdi]]. exists i. split; [right|]; assumption.
Qed.

(** ** The configuration *)

Lemma lookup_assign_same (key : str) (value : Json) (fields : list (str * Json)) :
  ConfigManager.lookup key (ConfigManager.assign key value fields) = Some value.
Proof.
  induction fields as [|[k v] fields IH]; simpl.
  - rewrite str_eqb_refl. reflexivity.
  - destruct (str_eqb k key) eqn:E; simpl; rewrite E; [reflexivity|exact IH].
Qed.

Lemma lookup_assign_other (key key' : str) (value : Json)
      (fields : list (str * Json)) :
  str_eqb key key' = false ->
  ConfigManager.lookup key' (ConfigManager.assign key value fields)
  = ConfigManager.lookup key' fields.
Proof.
  intro Hne. induction fields as [|[k v] fields IH]; simpl.
  - rewrite Hne. reflexivity.
  - destruct (str_eqb k key) eqn:E; simpl.
    + apply str_eqb_eq in E. subst k. rewrite Hne. reflexivity.
    + destruct (str_eqb k key'); [reflexivity|exact IH].
Qed.

Lemma set_path_walk (value : Json) (rest : list str) :
  forall key config config',
    ConfigManager.set_path key rest value config = Some config' ->
    ConfigManager.walk config' (key :: rest) = Some value.
Proof.
  induction rest as [|next rest IH]; intros key config config' Hset;
    destruct config as [| | | | | |fields]; try discriminate; simpl in Hset.
  - injection Hset as <-. simpl. rewrite lookup_assign_same. reflexivity.
  - destruct (ConfigManager.set_path next rest value _) as [inner'|] eqn:E;
      [|discriminate].
    injection Hset as <-.
    cbn [ConfigManager.walk ConfigManager.subscript].
    rewrite lookup_assign_same. exact (IH _ _ _ E).
Qed.

(** X27. What [set] stores, [get] reads back: when [set] goes through,
    [get] of the same dotted path returns the value, whatever the default
    and whatever the configuration held, dicts created on the way
    included. *)
Theorem get_after_set (config config' : Json) (key_path : str)
        (value default : Json) :
  ConfigManager.set config key_path value = Some config' ->
  ConfigManager.get config' key_path default = value.
Proof.
  unfold ConfigManager.set, ConfigManager.get, ConfigManager.keys_of.
  destruct (ConfigManager.split_dot key_path) as [key keys].
  intro Hset. rewrite (set_path_walk value keys key config config' Hset).
  reflexivity.
Qed.

Lemma get_after_set_witness :
  exists config',
    ConfigManager.set sample_config (lit "scrobbling.lastfm.timeout") (JInt 30)
    = Some config'
    /\ ConfigManager.get config' (lit "scrobbling.lastfm.timeout") JNull = JInt 30.
Proof.
  eexists. split; [reflexivity|].
  apply (get_after_set sample_config _ (lit "scrobbling.lastfm.timeout")
           (JInt 30) JNull).
  reflexivity.
Defined.

Lemma diverges_cons_inv (key : str) (rest keys' : list str) :
  ConfigManager.diverges (key :: rest) keys' = true ->
  exists key' rest',
    keys' = key' :: rest'
    /\ (str_eqb key key' = false
        \/ (key' = key /\ ConfigManager.diverges rest rest' = true)).
Proof.
  destruct keys' as [|key' rest']; [discriminate|].
  simpl. intro H. exists key', rest'. split; [reflexivity|].
  destruct (str_eqb key key') eqn:E; [|left; reflexivity].
  right. apply str_eqb_eq in E. auto.
Qed.

Lemma set_path_elsewhere (value : Json) (rest : list str) :
  forall key keys' config config',
    ConfigManager.set_path key rest value config = Some config' ->
    ConfigManager.diverges (key :: rest) keys' = true ->
    ConfigManager.walk config' keys' = ConfigManager.walk config keys'.
Proof.
  induction rest as [|next rest IH]; intros key keys' config config' Hset Hdiv;
    destruct config as [| | | | | |fields]; try discriminate; simpl in Hset;
    apply diverges_cons_inv in Hdiv as [key' [rest' [-> Hdiv]]].
  - injection Hset as <-.
    destruct Hdiv as [Hne|[_ Hdiv]]; [|destruct rest'; discriminate].
    cbn [ConfigManager.walk ConfigManager.subscript].
    rewrite (lookup_assign_other _ _ _ _ Hne). reflexivity.
  - destruct (ConfigManager.set_path next rest value _) as [inner'|] eqn:E;
      [|discriminate].
    injection Hset as <-.
    cbn [ConfigManager.walk ConfigManager.subscript].
    destruct Hdiv as [Hne|[-> Hdiv]].
    + rewrite (lookup_assign_other _ _ _ _ Hne). reflexivity.
    + rewrite lookup_assign_same.
      rewrite (IH _ _ _ _ E Hdiv).
      destruct (ConfigManager.lookup key fields) as [found|]; [reflexivity|].
      apply diverges_cons_inv in Hdiv as [k [r [-> _]]]. reflexivity.
Qed.

(** X28. [set] changes nothing elsewhere: when the key lists of two dotted
    paths part ways at some key, so that neither path leads through the
    other, [get] of the second path returns after [set] of the first what
    it returned before. *)
Theorem set_keeps_other_paths (config config' : Json) (key_path other : str)
        (value default : Json) :
  ConfigManager.diverges (ConfigManager.keys_of key_path)
                         (ConfigManager.keys_of other) = true ->
  ConfigManager.set config key_path value = Some config' ->
  ConfigManager.get config' other default = ConfigManager.get config other default.
Proof.
  unfold ConfigManager.set, ConfigManager.get.
  unfold ConfigManager.keys_of at 1.
  destruct (ConfigManager.split_dot key_path) as [key keys].
  intros Hdiv Hset.
  rewrite (set_path_elsewhere value keys key _ config config' Hset Hdiv).
  reflexivity.
Qed.

Lemma set_keeps_other_paths_witness :
  exists config',
    ConfigManager.set sample_config (lit "duplicate_detection.cache.size") (JInt 10)
    = Some config'
    /\ ConfigManager.get config' (lit "duplicate_detection.time_window") JNull
       = ConfigManager.get sample_config (lit "duplicate_detection.time_window") JNull.
Proof.
  eexists. split; [reflexivity|].
  apply (set_keeps_other_paths sample_config _
           (lit "duplicate_detection.cache.size")
           (lit "duplicate_detection.time_window") (JInt 10) JNull);
    reflexivity.
Defined.

Lemma walk_empty_dict (keys : list str) (found : Json) :
  ConfigManager.walk (JDict []) keys = Some found -> found = JDict [].
Proof.
  destruct keys as [|key keys]; simpl; [intros [= <-]; reflexivity|discriminate].
Qed.

Lemma set_path_raises_iff (value : Json) (rest : list str) :
  forall key config,
    ConfigManager.set_path key rest value config = None
    <-> exists n found,
          (n <= length rest)%nat
          /\ ConfigManager.walk config (firstn n (key :: rest)) = Some found
          /\ ConfigManager.is_dict found = false.
Proof.
  induction rest as [|next rest IH]; intros key config.
  - split.
    + intro Hset. exists 0%nat, config. split; [apply Nat.le_refl|].
      split; [reflexivity|].
      destruct config; try reflexivity. discriminate.
    + intros [n [found [Hn [Hwalk Hnot]]]].
      assert (n = 0%nat) as -> by (simpl in Hn; lia).
      simpl in Hwalk. injection Hwalk as ->.
      destruct found; try reflexivity. discriminate.
  - split.
    + intro Hset.
      destruct config as [| | | | | |fields];
        try (exists 0%nat; eexists; split; [apply Nat.le_0_l|];
             split; reflexivity).
      simpl in Hset.
      destruct (ConfigManager.set_path next rest value _) as [inner'|] eqn:E;
        [discriminate|].
      apply IH in E as [n [found [Hn [Hwalk Hnot]]]].
      destruct (ConfigManager.lookup key fields) as [inner|] eqn:El.
      * exists (S n), found. split; [simpl; lia|].
        split; [|exact Hnot].
        cbn [firstn ConfigManager.walk ConfigManager.subscript].
        rewrite El. exact Hwalk.
      * apply walk_empty_dict in Hwalk. subst found. discriminate.
    + intros [n [found [Hn [Hwalk Hnot]]]].
      destruct config as [| | | | | |fields]; try reflexivity.
      destruct n as [|n].
      * simpl in Hwalk. injection Hwalk as <-. discriminate.
      * cbn [firstn ConfigManager.walk ConfigManager.subscript] in Hwalk.
        destruct (ConfigManager.lookup key fields) as [inner|] eqn:El;
          [|discriminate].
        simpl. rewrite El.
        assert (Hinner : ConfigManager.set_path next rest value inner = None).
        { apply IH. exists n, found. split; [simpl in Hn; lia|].
          split; assumption. }
        rewrite Hinner. reflexivity.
Qed.

(** X29. [set] raises exactly when the path is blocked: some proper prefix
    of its key list (the empty one, for the configuration itself,
    included) leads to a value that is not a dict.  It never overwrites
    such a value to make room for the path below it. *)
Theorem set_raises_iff_blocked (config : Json) (key_path : str) (value : Json) :
  ConfigManager.set config key_path value = None
  <-> exists n found,
        (n < length (ConfigManager.keys_of key_path))%nat
        /\ ConfigManager.walk config (firstn n (ConfigManager.keys_of key_path))
           = Some found
        /\ ConfigManager.is_dict found = false.
Proof.
  unfold ConfigManager.set, ConfigManager.keys_of.
  destruct (ConfigManager.split_dot key_path) as [key keys].
  rewrite set_path_raises_iff. cbn [length].
  split; intros [n [found [Hn H]]]; exists n, found; (split; [lia|exact H]).
Qed.

Lemma update_value_dict (inner existing : list (str * Json)) :
  ConfigManager.update_value (JDict inner) (Some (JDict existing))
  = JDict (ConfigManager.update_nested_dict existing inner).
Proof.
  cbn [ConfigManager.update_value]. f_equal.
  revert existing. induction inner as [|[k v] inner IH]; intro existing;
    [reflexivity|].
  cbn [ConfigManager.update_nested_dict]. rewrite <- IH. reflexivity.
Qed.

Lemma update_value_other (value : Json) (current : option Json) :
  (ConfigManager.is_dict value = false
   \/ match current with Some (JDict _) => False | _ => True end) ->
  ConfigManager.update_value value current = value.
Proof.
  intros [H|H]; destruct value; try reflexivity; try discriminate.
  destruct current as [[]|]; try reflexivity. destruct H.
Qed.

Lemma lookup_in (key : str) (fields : list (str * Json)) (value : Json) :
  ConfigManager.lookup key fields = Some value -> In (key, value) fields.
Proof.
  induction fields as [|[k v] fields IH]; simpl; [discriminate|].
  destruct (str_eqb k key) eqn:E.
  - intros [= <-]. apply str_eqb_eq in E. subst k. left. reflexivity.
  - intro H. right. exact (IH H).
Qed.

Lemma lookup_absent (key : str) (fields : list (str * Json)) :
  ~ In key (map fst fields) -> ConfigManager.lookup key fields = None.
Proof.
  induction fields as [|[k v] fields IH]; simpl; [reflexivity|].
  intro Hnot. destruct (str_eqb k key) eqn:E.
  - apply str_eqb_eq in E. subst k. destruct Hnot. left. reflexivity.
  - apply IH. intro Hin. apply Hnot. right. exact Hin.
Qed.

Lemma lookup_update_untouched (key : str) (updates : list (str * Json)) :
  forall original,
    ConfigManager.lookup key updates = None ->
    ConfigManager.lookup key (ConfigManager.update_nested_dict original updates)
    = ConfigManager.lookup key original.
Proof.
  induction updates as [|[k v] updates IH]; intros original Hnone;
    [reflexivity|].
  simpl in Hnone. destruct (str_eqb k key) eqn:E; [discriminate|].
  cbn [ConfigManager.update_nested_dict].
  rewrite (IH _ Hnone). apply lookup_assign_other, E.
Qed.

Lemma lookup_update (key : str) (updates : list (str * Json)) :
  NoDup (map fst updates) ->
  forall original value,
    ConfigManager.lookup key updates = Some value ->
    ConfigManager.lookup key (ConfigManager.update_nested_dict original updates)
    = Some (ConfigManager.update_value value
              (ConfigManager.lookup key original)).
Proof.
  induction updates as [|[k v] updates IH]; intros Hnd original value Hfound;
    [discriminate|].
  simpl in Hnd. inversion Hnd as [|? ? Hnot Hnd']; subst.
  simpl in Hfound. cbn [ConfigManager.update_nested_dict].
  destruct (str_eqb k key) eqn:E.
  - injection Hfound as ->. apply str_eqb_eq in E. subst k.
    rewrite (lookup_update_untouched key updates _ (lookup_absent _ _ Hnot)).
    apply lookup_assign_same.
  - rewrite (IH Hnd' _ _ Hfound).
    rewrite (lookup_assign_other _ _ _ _ E). reflexivity.
Qed.

Lemma leaf_after_update (keys : list str) :
  forall updates original leaf,
    well_keyed (JDict updates) ->
    ConfigManager.walk (JDict updates) keys = Some leaf ->
    ConfigManager.is_dict leaf = false ->
    ConfigManager.walk (JDict (ConfigManager.update_nested_dict original updates))
                       keys
    = Some leaf.
Proof.
  induction keys as [|key keys IH]; intros updates original leaf Hwk Hwalk Hleaf.
  - simpl in Hwalk. injection Hwalk as <-. discriminate.
  - inversion Hwk as [fields Hnd Hsub Heq|value Hnot Heq]; subst;
      [|discriminate].
    cbn [ConfigManager.walk ConfigManager.subscript] in *.
    destruct (ConfigManager.lookup key updates) as [u|] eqn:El; [|discriminate].
    rewrite (lookup_update key updates Hnd original u El).
    pose proof (Hsub key u (lookup_in _ _ _ El)) as Hu.
    destruct (ConfigManager.lookup key original) as [[| | | | | |existing]|];
      try (rewrite update_value_other; [exact Hwalk|right; exact I]).
    destruct u as [| | | | | |inner];
      try (rewrite update_value_other; [exact Hwalk|left; reflexivity]).
    rewrite update_value_dict. apply IH; assumption.
Qed.

(** X30. [update_config] merges by key, dict into dict: every value of the
    updates that is not a dict is afterwards read at the path it has in
    the updates, whatever the configuration held there; and a path whose
    first key the updates do not name reads what it read before. *)
Theorem update_config_merges (config updates : list (str * Json)) :
  well_keyed (JDict updates) ->
  let config' := ConfigManager.update_config config updates in
  (forall keys leaf,
      ConfigManager.walk (JDict updates) keys = Some leaf ->
      ConfigManager.is_dict leaf = false ->
      ConfigManager.walk config' keys = Some leaf)
  /\ (forall key rest,
         ConfigManager.lookup key updates = None ->
         ConfigManager.walk config' (key :: rest)
         = ConfigManager.walk (JDict config) (key :: rest)).
Proof.
  intro Hwk. cbn zeta. unfold ConfigManager.update_config. split.
  - intros keys leaf Hwalk Hleaf. apply leaf_after_update; assumption.
  - intros key rest Hnone.
    cbn [ConfigManager.walk ConfigManager.subscript].
    rewrite (lookup_update_untouched key updates config Hnone). reflexivity.
Qed.

Lemma update_config_merges_witness :
  ConfigManager.walk
    (ConfigManager.update_config
       [ (lit "duplicate_detection",
          JDict [ (lit "enabled", JBool true); (lit "time_window", JInt 900) ]) ]
       [ (lit "duplicate_detection", JDict [ (lit "time_window", JInt 600) ]) ])
    [lit "duplicate_detection"; lit "time_window"]
  = Some (JInt 600).
Proof.
  refine (proj1 (update_config_merges _ _ _) _ _ _ _); try reflexivity.
  apply wk_dict.
  - repeat constructor; simpl; intuition discriminate.
  - intros k v [[= <- <-]|[]]. apply wk_dict.
    + repeat constructor; simpl; intuition discriminate.
    + intros k' v' [[= <- <-]|[]]. apply wk_other. reflexivity.
Defined.
